(** * GitFlix frame codec: container format, CRC-32 and the RAW / DELTA codecs

    A shallow embedding of [src/frame_format.c], [src/compression.c] and the
    frame loop of the encoder ([encode_frame_to_commit],
    [encode_video_sequence]) and of the player ([decode_and_display_frame]),
    followed by the properties of the design document that concern them.
    The rest of the program follows in both halves: the file names of
    [src/frame_format.c], the test pattern of the encoder, the decoder
    thread and the frame buffer of [src/player.c], and the blob cache of the
    libgit2 reader.

    Conventions.
    - A [uint8_t] buffer is a [list Z] whose elements are in [0, 256); a
      [uint32_t] is a [Z] reduced with [u32]; a [size_t] index is a [nat]
      (the target is 64-bit and no index below exceeds 2^33, so [size_t]
      arithmetic never wraps).
    - A pointer/size pair ([data], [data_size]) is one list; [malloc] is
      assumed to succeed and pointers to be non-null, so the
      [GVC_ERROR_MEMORY] paths are not modelled.
    - A C function returning an [int] status and filling an out-parameter
      returns an [outcome].
    - A load [buf[i]] is written with the total lookup [buf !!! i]; on
      every path that does not end in [OutOfBounds] the index is inside the
      list, so the default element is never observed. *)

From stdpp Require Import base list.
From Stdlib Require Import ZArith Lia.
From Stdlib Require Import Ascii.

Local Open Scope Z_scope.

(** ** Machine integers *)

Definition u32 (x : Z) : Z := x mod 2 ^ 32.
Definition u8 (x : Z) : Z := x mod 256.

(** The value of [(int8_t)b] for a [uint8_t] value [b]. *)
Definition int8 (b : Z) : Z := if 128 <=? b then b - 256 else b.

Definition MIN (a b : Z) : Z := if a <? b then a else b.
Definition MAX (a b : Z) : Z := if a >? b then a else b.
Definition CLAMP (x lo hi : Z) : Z := MIN (MAX x lo) hi.

Definition byte_ok (b : Z) : Prop := 0 <= b < 256.
Definition bytes_ok (l : list Z) : Prop := Forall byte_ok l.

(** ** Status codes and outcomes *)

Definition GVC_SUCCESS : Z := 0.
Definition GVC_ERROR_MEMORY : Z := -1.
Definition GVC_ERROR_COMPRESSION : Z := -4.
Definition GVC_ERROR_FORMAT : Z := -5.

(** [Success a]: the function returned [GVC_SUCCESS] and its out-parameter
    holds [a].  [Failure code]: it returned the error [code].
    [OutOfBounds]: it performed a load or a store outside an allocation
    (undefined behaviour in C).  [OutOfFuel]: a loop of the model used up
    its iteration budget; the totality lemmas below show that no function
    of this file returns it. *)
Inductive outcome (A : Type) : Type :=
  | Success (a : A)
  | Failure (code : Z)
  | OutOfBounds
  | OutOfFuel.
Arguments Success {A} a.
Arguments Failure {A} code.
Arguments OutOfBounds {A}.
Arguments OutOfFuel {A}.

#[global] Instance outcome_bind : MBind outcome := fun A B k m =>
  match m with
  | Success a => k a
  | Failure code => Failure code
  | OutOfBounds => OutOfBounds
  | OutOfFuel => OutOfFuel
  end.

(** ** Configuration ([git_vid_codec.h]) *)

Definition FRAME_WIDTH : Z := 1920.
Definition FRAME_HEIGHT : Z := 1080.
Definition FRAME_CHANNELS : Z := 3.
Definition FRAME_MAGIC : Z := 0x47564346.

(** ** Data model *)

Record frame_header_t := {
  frame_number : Z;
  width : Z;
  height : Z;
  channels : Z;
  compressed_size : Z;
  checksum : Z;
  compression_type : Z;
  reserved0 : Z;
  reserved1 : Z;
  reserved2 : Z
}.

(** [data] stands for the pair ([data], [data_size]) of the C struct. *)
Record frame_t := {
  header : frame_header_t;
  data : list Z
}.

Record raw_frame_t := {
  pixels : list Z;
  raw_width : Z;
  raw_height : Z;
  raw_channels : Z
}.

(** [width * height * channels] as C computes it: in [uint32_t]. *)
Definition pixel_count_of (w h c : Z) : nat := Z.to_nat (u32 (w * h * c)).

(** ** CRC-32 *)

(** Modelled from the spec: zlib's [crc32] is linked from outside the
    repository.  It is CRC-32/ISO-HDLC: polynomial 0x04C11DB7 in reflected
    form (0xEDB88320), the running value complemented on entry and on exit,
    so that the initial argument is 0. *)
Definition CRC_POLY : Z := 0xEDB88320.

Definition crc_shift (c : Z) : Z :=
  if Z.testbit c 0 then Z.lxor (Z.shiftr c 1) CRC_POLY else Z.shiftr c 1.

Definition crc_byte (c b : Z) : Z :=
  Nat.iter 8 crc_shift (Z.lxor c b).

Definition crc_update (c : Z) (buf : list Z) : Z := fold_left crc_byte buf c.

Definition crc32 (crc : Z) (buf : list Z) : Z :=
  Z.lxor (crc_update (Z.lxor crc 0xFFFFFFFF) buf) 0xFFFFFFFF.

Definition calculate_checksum (buf : list Z) : Z := crc32 0 buf.

(** ** Little-endian words and the container layout *)

Definition le32 (x : Z) : list Z :=
  [x mod 256; (x / 256) mod 256; (x / 65536) mod 256; (x / 16777216) mod 256].

Definition read_le32 (buffer : list Z) (offset : nat) : Z :=
  buffer !!! offset
  + 256 * buffer !!! (offset + 1)%nat
  + 65536 * buffer !!! (offset + 2)%nat
  + 16777216 * buffer !!! (offset + 3)%nat.

(** The 28 bytes of [frame_header_t] as [memcpy] sees them. *)
Definition header_bytes (h : frame_header_t) : list Z :=
  le32 (frame_number h) ++ le32 (width h) ++ le32 (height h)
  ++ le32 (channels h) ++ le32 (compressed_size h) ++ le32 (checksum h)
  ++ [compression_type h; reserved0 h; reserved1 h; reserved2 h].

Definition read_header (buffer : list Z) (offset : nat) : frame_header_t :=
  {| frame_number := read_le32 buffer offset;
     width := read_le32 buffer (offset + 4);
     height := read_le32 buffer (offset + 8);
     channels := read_le32 buffer (offset + 12);
     compressed_size := read_le32 buffer (offset + 16);
     checksum := read_le32 buffer (offset + 20);
     compression_type := buffer !!! (offset + 24)%nat;
     reserved0 := buffer !!! (offset + 25)%nat;
     reserved1 := buffer !!! (offset + 26)%nat;
     reserved2 := buffer !!! (offset + 27)%nat |}.

(** [serialize_frame]: magic, header, then [data_size] bytes of data. *)
Definition serialize_frame (frame : frame_t) : list Z :=
  le32 FRAME_MAGIC ++ header_bytes (header frame) ++ data frame.

Definition deserialize_frame (buffer : list Z) : outcome frame_t :=
  let size := length buffer in
  if (size <? 4 + 28)%nat then Failure GVC_ERROR_FORMAT
  else
    let magic := read_le32 buffer 0 in
    if negb (magic =? FRAME_MAGIC) then Failure GVC_ERROR_FORMAT
    else
      let hdr := read_header buffer 4 in
      let offset := (4 + 28)%nat in
      if negb (width hdr =? FRAME_WIDTH) || negb (height hdr =? FRAME_HEIGHT)
         || negb (channels hdr =? FRAME_CHANNELS)
      then Failure GVC_ERROR_FORMAT
      else if Z.of_nat offset + compressed_size hdr >? Z.of_nat size
      then Failure GVC_ERROR_FORMAT
      else
        let data_size := Z.to_nat (compressed_size hdr) in
        if (0 <? data_size)%nat then
          let payload := take data_size (drop offset buffer) in
          let calculated_checksum := calculate_checksum payload in
          if negb (calculated_checksum =? checksum hdr)
          then Failure GVC_ERROR_FORMAT
          else Success {| header := hdr; data := payload |}
        else Success {| header := hdr; data := [] |}.

(** ** The entropy coder *)

(** zlib's [compressBound], used to size the destination buffers. *)
Definition compressBound (sourceLen : nat) : nat :=
  let n := Z.of_nat sourceLen in
  Z.to_nat (n + Z.shiftr n 12 + Z.shiftr n 14 + Z.shiftr n 25 + 13).

(** Modelled from the spec: the LZFSE coder of Apple's libcompression is
    linked from outside the repository.  The design treats it as an opaque,
    deterministic, lossless byte-stream compressor that meets the round-trip
    law on arbitrary inputs.  [lz_encode src] is the complete compressed
    stream of [src]; it is never empty and fits the [compressBound]
    destination the callers allocate. *)
Class EntropyCoder := {
  lz_encode : list Z -> list Z;
  lz_decode : list Z -> option (list Z);
  lz_decode_encode : forall src, lz_decode (lz_encode src) = Some src;
  lz_encode_nonempty : forall src, lz_encode src <> [];
  lz_encode_bound : forall src,
    (length (lz_encode src) <= compressBound (length src))%nat
}.

Section Compression.
Context `{EntropyCoder}.

(** [compression_encode_buffer dst_size src]: the bytes written to the
    destination; none (return value 0) when the stream does not fit. *)
Definition compression_encode_buffer (dst_size : nat) (src : list Z) : list Z :=
  let stream := lz_encode src in
  if (length stream <=? dst_size)%nat then stream else [].

(** [compression_decode_buffer dst_size src]: the bytes written to the
    destination; none (return value 0) on a corrupt stream, and only the
    first [dst_size] bytes when the output is longer than the destination. *)
Definition compression_decode_buffer (dst_size : nat) (src : list Z) : list Z :=
  match lz_decode src with
  | Some decoded => take dst_size decoded
  | None => []
  end.

(** *** [compress_frame_delta] *)

(** The inner [while] that measures a run of identical bytes.  [budget] is
    [255 - identical_run], so that [budget = 0] is the failure of the test
    [identical_run < 255]. *)
Fixpoint identical_run_scan (budget : nat) (cur prev : list Z)
    (pixel_count i identical_run : nat) : nat :=
  match budget with
  | O => identical_run
  | S budget' =>
      if (i + identical_run <? pixel_count)%nat
         && (cur !!! (i + identical_run)%nat =? prev !!! (i + identical_run)%nat)
      then identical_run_scan budget' cur prev pixel_count i (S identical_run)
      else identical_run
  end.

(** The inner [while] that measures a run of differing bytes. *)
Fixpoint diff_run_scan (budget : nat) (cur prev : list Z)
    (pixel_count i diff_run : nat) : nat :=
  match budget with
  | O => diff_run
  | S budget' =>
      if (i + diff_run <? pixel_count)%nat
         && negb (cur !!! (i + diff_run)%nat =? prev !!! (i + diff_run)%nat)
      then diff_run_scan budget' cur prev pixel_count i (S diff_run)
      else diff_run
  end.

(** The bytes stored by the [for] loop of a differing run. *)
Definition delta_values (cur prev : list Z) (i diff_run : nat) : list Z :=
  map (fun j : nat =>
         let delta := cur !!! (i + j)%nat - prev !!! (i + j)%nat in
         Z.land delta 0xFF)
      (seq 0 diff_run).

(** The outer [while (i < pixel_count)].  [delta_buffer] holds the bytes
    stored so far, that is the cells [0 .. delta_pos - 1]; every store is at
    index [delta_pos++], so stores happen at consecutive indices. *)
Fixpoint delta_loop (fuel : nat) (cur prev : list Z) (pixel_count i : nat)
    (delta_buffer : list Z) : option (list Z) :=
  if (i <? pixel_count)%nat then
    match fuel with
    | O => None
    | S fuel' =>
        let identical_run := identical_run_scan 255 cur prev pixel_count i 0 in
        if (0 <? identical_run)%nat then
          delta_loop fuel' cur prev pixel_count (i + identical_run)
            (delta_buffer ++ [0x00; u8 (Z.of_nat identical_run)])
        else
          let diff_run := diff_run_scan 255 cur prev pixel_count i 0 in
          if (0 <? diff_run)%nat then
            delta_loop fuel' cur prev pixel_count (i + diff_run)
              (delta_buffer ++ [0x01; u8 (Z.of_nat diff_run)]
                            ++ delta_values cur prev i diff_run)
          else
            delta_loop fuel' cur prev pixel_count (i + 1) delta_buffer
    end
  else Some delta_buffer.

(** The run-length stream of a frame pair: the loop started at [i = 0] with
    an empty buffer.  Each iteration advances [i], so [pixel_count]
    iterations are enough. *)
Definition delta_transform (cur prev : list Z) (pixel_count : nat)
    : option (list Z) :=
  delta_loop pixel_count cur prev pixel_count 0 [].

(** The fields a compressor fills in; [frame_number] is set to 0 and the
    reserved bytes keep whatever the caller's struct held. *)
Definition fill_output (output : frame_t) (w h c : Z) (type : Z)
    (compressed_data : list Z) : frame_t :=
  {| header :=
       {| frame_number := 0;
          width := w; height := h; channels := c;
          compressed_size := u32 (Z.of_nat (length compressed_data));
          checksum := calculate_checksum compressed_data;
          compression_type := type;
          reserved0 := reserved0 (header output);
          reserved1 := reserved1 (header output);
          reserved2 := reserved2 (header output) |};
     data := compressed_data |}.

(** Every index below [pixel_count] is loaded from both frames, so a pixel
    buffer shorter than that is read out of bounds.  The delta buffer has
    [pixel_count * 2] cells and is stored to at consecutive indices from
    0, so a store falls outside it exactly when the stream is longer. *)
Definition compress_frame_delta (current previous : raw_frame_t)
    (output : frame_t) : outcome frame_t :=
  if negb (raw_width current =? raw_width previous)
     || negb (raw_height current =? raw_height previous)
     || negb (raw_channels current =? raw_channels previous)
  then Failure GVC_ERROR_FORMAT
  else
    let pixel_count :=
      pixel_count_of (raw_width current) (raw_height current)
                     (raw_channels current) in
    if (length (pixels current) <? pixel_count)%nat
       || (length (pixels previous) <? pixel_count)%nat
    then OutOfBounds
    else
      match delta_transform (pixels current) (pixels previous) pixel_count with
      | None => OutOfFuel
      | Some delta_buffer =>
          let delta_pos := length delta_buffer in
          if (pixel_count * 2 <? delta_pos)%nat then OutOfBounds
          else
            let compressed_size := compressBound delta_pos in
            let compressed_data :=
              compression_encode_buffer compressed_size delta_buffer in
            if (length compressed_data =? 0)%nat
            then Failure GVC_ERROR_COMPRESSION
            else Success (fill_output output (raw_width current)
                            (raw_height current) (raw_channels current)
                            1 compressed_data)
      end.

(** *** [decompress_frame_delta] *)

(** The variables of the replay loop.  [stores] is a ghost log of the
    indices at which [output->pixels] was written, most recent first. *)
Record replay_state := {
  delta_pos : nat;
  pixel_pos : nat;
  out_pixels : list Z;
  stores : list nat
}.

(** The [for] loop of a differing run; [remaining] is [run_length - i]. *)
Fixpoint apply_deltas (remaining : nat) (delta_buffer : list Z)
    (pixel_count : nat) (st : replay_state) : replay_state :=
  match remaining with
  | O => st
  | S remaining' =>
      if (pixel_pos st <? pixel_count)%nat
         && (delta_pos st <? length delta_buffer)%nat
      then
        let delta := int8 (delta_buffer !!! delta_pos st) in
        let new_value := out_pixels st !!! pixel_pos st + delta in
        apply_deltas remaining' delta_buffer pixel_count
          {| delta_pos := S (delta_pos st);
             pixel_pos := S (pixel_pos st);
             out_pixels :=
               <[pixel_pos st := u8 (CLAMP new_value 0 255)]> (out_pixels st);
             stores := pixel_pos st :: stores st |}
      else st
  end.

(** The [while (delta_pos < delta_size && pixel_pos < pixel_count)] loop;
    [delta_size] is the length of [delta_buffer].  [None]: out of fuel. *)
Fixpoint replay_loop (fuel : nat) (delta_buffer : list Z) (pixel_count : nat)
    (st : replay_state) : option replay_state :=
  if (delta_pos st <? length delta_buffer)%nat
     && (pixel_pos st <? pixel_count)%nat
  then
    match fuel with
    | O => None
    | S fuel' =>
        let command := delta_buffer !!! delta_pos st in
        let delta_pos1 := S (delta_pos st) in
        if (length delta_buffer <=? delta_pos1)%nat then
          Some {| delta_pos := delta_pos1; pixel_pos := pixel_pos st;
                  out_pixels := out_pixels st; stores := stores st |}
        else
          let run_length := Z.to_nat (delta_buffer !!! delta_pos1) in
          let delta_pos2 := S delta_pos1 in
          if command =? 0x00 then
            replay_loop fuel' delta_buffer pixel_count
              {| delta_pos := delta_pos2;
                 pixel_pos := (pixel_pos st + run_length)%nat;
                 out_pixels := out_pixels st; stores := stores st |}
          else if command =? 0x01 then
            replay_loop fuel' delta_buffer pixel_count
              (apply_deltas run_length delta_buffer pixel_count
                 {| delta_pos := delta_pos2; pixel_pos := pixel_pos st;
                    out_pixels := out_pixels st; stores := stores st |})
          else
            replay_loop fuel' delta_buffer pixel_count
              {| delta_pos := delta_pos2; pixel_pos := pixel_pos st;
                 out_pixels := out_pixels st; stores := stores st |}
    end
  else Some st.

(** The loop entered with [delta_pos = pixel_pos = 0] on the copy of the
    predecessor.  Each iteration consumes a command byte, so [delta_size]
    iterations are enough. *)
Definition replay (delta_buffer : list Z) (pixel_count : nat)
    (copied : list Z) : option replay_state :=
  replay_loop (length delta_buffer) delta_buffer pixel_count
    {| delta_pos := 0; pixel_pos := 0; out_pixels := copied; stores := [] |}.

(** [delta_size] is computed in [uint32_t]; [memcpy] reads [pixel_count]
    bytes of the predecessor, out of bounds when it holds fewer. *)
Definition decompress_frame_delta (compressed : frame_t)
    (previous : raw_frame_t) : outcome raw_frame_t :=
  let hdr := header compressed in
  let delta_size := Z.to_nat (u32 (width hdr * height hdr * channels hdr * 2)) in
  let delta_buffer := compression_decode_buffer delta_size (data compressed) in
  if (length delta_buffer =? 0)%nat then Failure GVC_ERROR_COMPRESSION
  else
    let pixel_count := pixel_count_of (width hdr) (height hdr) (channels hdr) in
    if (length (pixels previous) <? pixel_count)%nat then OutOfBounds
    else
      match replay delta_buffer pixel_count
              (take pixel_count (pixels previous)) with
      | None => OutOfFuel
      | Some st =>
          Success {| pixels := out_pixels st;
                     raw_width := width hdr;
                     raw_height := height hdr;
                     raw_channels := channels hdr |}
      end.

(** *** RAW mode *)

Definition compress_frame_raw (input : raw_frame_t) (output : frame_t)
    : outcome frame_t :=
  let pixel_count :=
    pixel_count_of (raw_width input) (raw_height input) (raw_channels input) in
  if (length (pixels input) <? pixel_count)%nat then OutOfBounds
  else
    let compressed_size := compressBound pixel_count in
    let compressed_data :=
      compression_encode_buffer compressed_size
        (take pixel_count (pixels input)) in
    if (length compressed_data =? 0)%nat then Failure GVC_ERROR_COMPRESSION
    else Success (fill_output output (raw_width input) (raw_height input)
                    (raw_channels input) 0 compressed_data).

Definition decompress_frame_raw (compressed : frame_t) : outcome raw_frame_t :=
  let hdr := header compressed in
  let pixel_count := pixel_count_of (width hdr) (height hdr) (channels hdr) in
  let decoded := compression_decode_buffer pixel_count (data compressed) in
  let decompressed_size := length decoded in
  if (decompressed_size =? 0)%nat || negb (decompressed_size =? pixel_count)%nat
  then Failure GVC_ERROR_COMPRESSION
  else Success {| pixels := decoded;
                  raw_width := width hdr;
                  raw_height := height hdr;
                  raw_channels := channels hdr |}.

(** ** One frame of the encoder and of the player *)

Definition set_frame_number (frame : frame_t) (n : Z) : frame_t :=
  let h := header frame in
  {| header :=
       {| frame_number := n;
          width := width h; height := height h; channels := channels h;
          compressed_size := compressed_size h; checksum := checksum h;
          compression_type := compression_type h;
          reserved0 := reserved0 h; reserved1 := reserved1 h;
          reserved2 := reserved2 h |};
     data := data frame |}.

(** [encode_frame_to_commit] up to the hand-over to the object store: the
    record it builds and the blob bytes it passes to [git_create_blob].
    [stack] is the content of the uninitialised local [compressed_frame]. *)
Definition encode_frame_to_commit (current_frame : raw_frame_t)
    (previous_frame : option raw_frame_t) (frame_number : Z)
    (stack : frame_t) : outcome (frame_t * list Z) :=
  compressed_frame ←
    match previous_frame with
    | Some previous => compress_frame_delta current_frame previous stack
    | None => compress_frame_raw current_frame stack
    end;
  let compressed_frame := set_frame_number compressed_frame (u32 frame_number) in
  Success (compressed_frame, serialize_frame compressed_frame).

(** [decode_and_display_frame] of [player.c] between deserialisation and
    display: the choice of the decoder by compression type. *)
Definition decode_and_display_frame (compressed_frame : frame_t)
    (previous_frame : option raw_frame_t) : outcome raw_frame_t :=
  if compression_type (header compressed_frame) =? 0 then
    decompress_frame_raw compressed_frame
  else if compression_type (header compressed_frame) =? 1 then
    match previous_frame with
    | None => Failure GVC_ERROR_FORMAT
    | Some previous => decompress_frame_delta compressed_frame previous
    end
  else Failure GVC_ERROR_FORMAT.

End Compression.

(** ** A reference entropy coder *)

(** The simplest admissible coder: a one-byte block marker followed by the
    input, stored uncompressed. *)
Definition stored_encode (src : list Z) : list Z := 0x2D :: src.

Definition stored_decode (stream : list Z) : option (list Z) :=
  match stream with
  | marker :: body => if marker =? 0x2D then Some body else None
  | [] => None
  end.

Lemma compressBound_lower (n : nat) : (n + 13 <= compressBound n)%nat.
Proof.
  unfold compressBound.
  pose proof (Z.shiftr_nonneg (Z.of_nat n) 12).
  pose proof (Z.shiftr_nonneg (Z.of_nat n) 14).
  pose proof (Z.shiftr_nonneg (Z.of_nat n) 25).
  lia.
Qed.

Lemma stored_decode_encode (src : list Z) :
  stored_decode (stored_encode src) = Some src.
Proof. reflexivity. Qed.

Lemma stored_encode_nonempty (src : list Z) : stored_encode src <> [].
Proof. discriminate. Qed.

Lemma stored_encode_bound (src : list Z) :
  (length (stored_encode src) <= compressBound (length src))%nat.
Proof.
  pose proof (compressBound_lower (length src)).
  unfold stored_encode. simpl. lia.
Qed.

Definition stored_coder : EntropyCoder := {|
  lz_encode := stored_encode;
  lz_decode := stored_decode;
  lz_decode_encode := stored_decode_encode;
  lz_encode_nonempty := stored_encode_nonempty;
  lz_encode_bound := stored_encode_bound
|}.

(** ** Well-formedness and the vocabulary of the properties *)

(** The [RawFrame] invariant: positive dimensions, a pixel buffer of
    [width * height * channels] bytes, and a byte count whose double is
    representable in [uint32_t]. *)
Definition raw_frame_ok (f : raw_frame_t) : Prop :=
  0 < raw_width f /\ 0 < raw_height f /\ 0 < raw_channels f
  /\ raw_width f * raw_height f * raw_channels f * 2 < 2 ^ 32
  /\ length (pixels f) = Z.to_nat (raw_width f * raw_height f * raw_channels f)
  /\ bytes_ok (pixels f).

Definition same_dims (f g : raw_frame_t) : Prop :=
  raw_width f = raw_width g /\ raw_height f = raw_height g
  /\ raw_channels f = raw_channels g.

(** Every byte-wise difference [cur[k] - prev[k]] is a signed 8-bit value. *)
Definition in_delta_range (prev cur : list Z) : Prop :=
  Forall2 (fun p c => -128 <= c - p <= 127) prev cur.

(** The run-length stream of the pair fits the [pixel_count * 2] bytes that
    both the encoder and the decoder allocate for it. *)
Definition delta_fits (prev cur : raw_frame_t) : Prop :=
  exists stream,
    delta_transform (pixels cur) (pixels prev) (length (pixels cur)) = Some stream
    /\ (length stream <= 2 * length (pixels cur))%nat.

(** A relation holds between each frame and its successor. *)
Fixpoint consecutive (R : raw_frame_t -> raw_frame_t -> Prop)
    (frames : list raw_frame_t) : Prop :=
  match frames with
  | f0 :: rest =>
      match rest with
      | f1 :: _ => R f0 f1 /\ consecutive R rest
      | [] => True
      end
  | [] => True
  end.

(** The fields of a header, and of a record, hold values of their C types. *)
Definition header_well_typed (h : frame_header_t) : Prop :=
  0 <= frame_number h < 2 ^ 32 /\ 0 <= width h < 2 ^ 32
  /\ 0 <= height h < 2 ^ 32 /\ 0 <= channels h < 2 ^ 32
  /\ 0 <= compressed_size h < 2 ^ 32 /\ 0 <= checksum h < 2 ^ 32
  /\ byte_ok (compression_type h)
  /\ byte_ok (reserved0 h) /\ byte_ok (reserved1 h) /\ byte_ok (reserved2 h).

Definition frame_well_typed (r : frame_t) : Prop :=
  header_well_typed (header r) /\ bytes_ok (data r).

(** A valid [FrameRecord]: configured dimensions, checksum of the payload,
    zero reserved bytes, payload of [compressed_size] bytes. *)
Definition valid_record (r : frame_t) : Prop :=
  let h := header r in
  width h = FRAME_WIDTH /\ height h = FRAME_HEIGHT
  /\ channels h = FRAME_CHANNELS
  /\ checksum h = calculate_checksum (data r)
  /\ reserved0 h = 0 /\ reserved1 h = 0 /\ reserved2 h = 0
  /\ Z.of_nat (length (data r)) = compressed_size h.

(** Bit [bit] of the byte at [index] inverted. *)
Definition flip_bit (buffer : list Z) (index bit : nat) : list Z :=
  <[index := Z.lxor (buffer !!! index) (2 ^ Z.of_nat bit)]> buffer.

(** The byte the DELTA decoder reconstructs from predecessor byte [p] when
    the encoder saw current byte [c]. *)
Definition delta_decoded_byte (p c : Z) : Z :=
  u8 (CLAMP (p + int8 (Z.land (c - p) 0xFF)) 0 255).

(** A pair the DELTA codec carries exactly: same dimensions, differences
    in the signed 8-bit range, stream within the delta buffer. *)
Definition delta_exact (prev cur : raw_frame_t) : Prop :=
  same_dims cur prev
  /\ in_delta_range (pixels prev) (pixels cur)
  /\ delta_fits prev cur.

(** ** Sample data *)

(** The content of a zero-initialised [frame_t]. *)
Definition zero_frame : frame_t :=
  {| header :=
       {| frame_number := 0; width := 0; height := 0; channels := 0;
          compressed_size := 0; checksum := 0; compression_type := 0;
          reserved0 := 0; reserved1 := 0; reserved2 := 0 |};
     data := [] |}.

(** A frame of [w * h * c] bytes, all equal to [value]. *)
Definition uniform_frame (w h c value : Z) : raw_frame_t :=
  {| pixels := repeat value (Z.to_nat (w * h * c));
     raw_width := w; raw_height := h; raw_channels := c |}.

(** A one-pixel RGB frame. *)
Definition pixel_frame (r g b : Z) : raw_frame_t :=
  {| pixels := [r; g; b]; raw_width := 1; raw_height := 1; raw_channels := 3 |}.

(** Three single-channel pixels in a row: the bytes of a one-pixel RGB
    frame under other dimensions. *)
Definition row_frame (a b c : Z) : raw_frame_t :=
  {| pixels := [a; b; c]; raw_width := 3; raw_height := 1; raw_channels := 1 |}.

(** [2 * k] bytes alternating 1 and 0. *)
Fixpoint stripes (k : nat) : list Z :=
  match k with
  | O => []
  | S k' => 1 :: 0 :: stripes k'
  end.

(** A frame whose bytes alternate 1 and 0 ([w * h * c] even). *)
Definition striped_frame (w h c : Z) : raw_frame_t :=
  {| pixels := stripes (Z.to_nat (w * h * c / 2));
     raw_width := w; raw_height := h; raw_channels := c |}.

(** [k] times the five bytes (0x01, 1, 1), (0x00, 1). *)
Fixpoint striped_stream (k : nat) : list Z :=
  match k with
  | O => []
  | S k' => [1; 1; 1; 0; 1] ++ striped_stream k'
  end.

(** Two frames that differ by small amounts in every byte. *)
Definition steady_frames : list raw_frame_t :=
  [pixel_frame 10 20 30; pixel_frame 12 21 29].

(** A black frame and a bright one of the configured size: every byte
    jumps by 200. *)
Definition black_frame : raw_frame_t :=
  uniform_frame FRAME_WIDTH FRAME_HEIGHT FRAME_CHANNELS 0.
Definition bright_frame : raw_frame_t :=
  uniform_frame FRAME_WIDTH FRAME_HEIGHT FRAME_CHANNELS 200.

(** A frame of two pixels. *)
Definition wide_frame : raw_frame_t :=
  {| pixels := [10; 20; 30; 40; 50; 60];
     raw_width := 2; raw_height := 1; raw_channels := 3 |}.

(** The 8 x 8 RGB frame of value 0x80. *)
Definition gray_frame : raw_frame_t := uniform_frame 8 8 3 0x80.

(** A small record with the configured dimensions, used to exercise the
    container. *)
Definition sample_record : frame_t :=
  {| header :=
       {| frame_number := 7; width := 1920; height := 1080; channels := 3;
          compressed_size := 4; checksum := calculate_checksum [1; 2; 3; 4];
          compression_type := 0;
          reserved0 := 0; reserved1 := 0; reserved2 := 0 |};
     data := [1; 2; 3; 4] |}.

(** Records that differ from [sample_record] in a reserved byte, and in
    the compression type. *)
Definition reserved_set_record : frame_t :=
  {| header :=
       {| frame_number := 7; width := 1920; height := 1080; channels := 3;
          compressed_size := 4; checksum := calculate_checksum [1; 2; 3; 4];
          compression_type := 0;
          reserved0 := 1; reserved1 := 0; reserved2 := 0 |};
     data := [1; 2; 3; 4] |}.

Definition unknown_type_record : frame_t :=
  {| header :=
       {| frame_number := 7; width := 1920; height := 1080; channels := 3;
          compressed_size := 4; checksum := calculate_checksum [1; 2; 3; 4];
          compression_type := 7;
          reserved0 := 0; reserved1 := 0; reserved2 := 0 |};
     data := [1; 2; 3; 4] |}.

(** ** The decoder thread of the player *)

(** [copy_raw_frame] of [frame_format.c]; [decoder_thread] and
    [buffer_put_frame] of [player.c] copy a frame with the same three
    statements.  [memcpy] reads [width * height * channels] bytes of the
    source, out of bounds when it holds fewer. *)
Definition copy_raw_frame (src : raw_frame_t) : outcome raw_frame_t :=
  let pixel_count :=
    pixel_count_of (raw_width src) (raw_height src) (raw_channels src) in
  if (length (pixels src) <? pixel_count)%nat then OutOfBounds
  else Success {| pixels := take pixel_count (pixels src);
                  raw_width := raw_width src;
                  raw_height := raw_height src;
                  raw_channels := raw_channels src |}.

Section PlayerThread.
Context `{EntropyCoder}.

(** [decode_and_display_frame_buffered] of [player.c]; [frame_data] is
    what [git_read_frame_from_commit] returned for the commit. *)
Definition decode_and_display_frame_buffered (frame_data : outcome (list Z))
    (previous_frame : option raw_frame_t) : outcome raw_frame_t :=
  buffer ← frame_data;
  compressed_frame ← deserialize_frame buffer;
  decode_and_display_frame compressed_frame previous_frame.

(** The loop of [decoder_thread] while [should_exit] stays 0: the frames
    handed to [buffer_put_frame], in order.  A commit that fails to decode
    is passed over and leaves [previous_frame] as it was. *)
Fixpoint decoder_thread (commits : list (outcome (list Z)))
    (previous_frame : option raw_frame_t) : outcome (list raw_frame_t) :=
  match commits with
  | [] => Success []
  | frame_data :: rest =>
      match decode_and_display_frame_buffered frame_data previous_frame with
      | Success current_frame =>
          buffer_frame ← copy_raw_frame current_frame;
          frames ← decoder_thread rest (Some current_frame);
          Success (buffer_frame :: frames)
      | Failure _ => decoder_thread rest previous_frame
      | OutOfBounds => OutOfBounds
      | OutOfFuel => OutOfFuel
      end
  end.

End PlayerThread.

(** A frame at the configured dimensions. *)
Definition configured_frame (f : raw_frame_t) : Prop :=
  raw_width f = FRAME_WIDTH /\ raw_height f = FRAME_HEIGHT
  /\ raw_channels f = FRAME_CHANNELS.

(** The entropy coder writes bytes. *)
Definition coder_emits_bytes (coder : EntropyCoder) : Prop :=
  forall src, bytes_ok src -> bytes_ok (@lz_encode coder src).

(** The reserved bytes of a [frame_t] hold values of their C type. *)
Definition reserved_typed (frame : frame_t) : Prop :=
  byte_ok (reserved0 (header frame)) /\ byte_ok (reserved1 (header frame))
  /\ byte_ok (reserved2 (header frame)).

(** ** Frame file names *)

(** A C string is the list of its characters before the terminating NUL.
    [snprintf], [strncmp], [strcmp] and [strtoul] are linked from the C
    library, outside the repository; they are modelled from ISO C, in the
    C locale. *)

(** The characters [printf] writes for [%u]: the decimal digits of [n],
    most significant first.  A [uint32_t] has at most ten. *)
Definition digit_char (d : Z) : ascii := ascii_of_N (Z.to_N (48 + d)).

Fixpoint decimal (fuel : nat) (n : Z) (acc : list ascii) : list ascii :=
  match fuel with
  | O => acc
  | S fuel' =>
      let acc' := digit_char (n mod 10) :: acc in
      if n / 10 =? 0 then acc' else decimal fuel' (n / 10) acc'
  end.

(** [%06u]: padded with zeros on the left to six characters. *)
Definition format_06u (n : Z) : list ascii :=
  let digits := decimal 10 n [] in
  repeat "0"%char (6 - length digits) ++ digits.

(** [snprintf(out, max_len, ...)] stores at most [max_len - 1] characters
    of the text and a NUL, and nothing at all when [max_len] is 0. *)
Definition snprintf (max_len : nat) (text : list ascii) : option (list ascii) :=
  match max_len with
  | O => None
  | S room => Some (take room text)
  end.

Definition frame_prefix : list ascii := ["f"; "r"; "a"; "m"; "e"; "_"]%char.
Definition rgb_suffix : list ascii := ["."; "r"; "g"; "b"]%char.

Definition generate_frame_filename (frame_number : Z) (max_len : nat)
    : option (list ascii) :=
  snprintf max_len (frame_prefix ++ format_06u frame_number ++ rgb_suffix).

Definition generate_frame_path (directory : list ascii) (frame_number : Z)
    (max_len : nat) : option (list ascii) :=
  snprintf max_len
    (directory ++ ["/"%char] ++ frame_prefix ++ format_06u frame_number
     ++ rgb_suffix).

(** [strtoul(nptr, &endptr, 10)] of the C library with a 64-bit
    [unsigned long]: white space is skipped, one sign is accepted, the
    digits are converted; a value that does not fit is [ULONG_MAX], a
    minus sign negates in [unsigned long]. *)
Definition ULONG_MAX : Z := 2 ^ 64 - 1.

Definition isspace (c : ascii) : bool :=
  let n := Z.of_N (N_of_ascii c) in (n =? 32) || ((9 <=? n) && (n <=? 13)).

Definition isdigit (c : ascii) : bool :=
  let n := Z.of_N (N_of_ascii c) in (48 <=? n) && (n <=? 57).

Definition digit_value (c : ascii) : Z := Z.of_N (N_of_ascii c) - 48.

Fixpoint skip_spaces (s : list ascii) : list ascii :=
  match s with
  | c :: s' => if isspace c then skip_spaces s' else s
  | [] => []
  end.

(** The digits at the head of [s]: their value on top of [acc], how many
    there are, and what follows them. *)
Fixpoint scan_digits (s : list ascii) (acc : Z) (count : nat)
    : Z * nat * list ascii :=
  match s with
  | c :: s' =>
      if isdigit c then scan_digits s' (acc * 10 + digit_value c) (S count)
      else (acc, count, s)
  | [] => (acc, count, [])
  end.

(** The value returned, and the offset of [endptr] from [nptr]; the offset
    is 0 when no digits are found. *)
Definition strtoul (nptr : list ascii) : Z * nat :=
  let s := skip_spaces nptr in
  let '(negative, s) :=
    match s with
    | c :: s' =>
        if Ascii.eqb c "-" then (true, s')
        else if Ascii.eqb c "+" then (false, s')
        else (false, s)
    | [] => (false, [])
    end in
  let '(value, count, rest) := scan_digits s 0 0 in
  if (count =? 0)%nat then (0, 0%nat)
  else
    let result :=
      if value >? ULONG_MAX then ULONG_MAX
      else if negative then (2 ^ 64 - value) mod 2 ^ 64
      else value in
    (result, (length nptr - length rest)%nat).

Fixpoint strcmp_eq (a b : list ascii) : bool :=
  match a, b with
  | [], [] => true
  | c :: a', d :: b' => Ascii.eqb c d && strcmp_eq a' b'
  | _, _ => false
  end.

Definition parse_frame_number_from_filename (filename : list ascii)
    : outcome Z :=
  if negb (strcmp_eq (take 6 filename) frame_prefix)
  then Failure GVC_ERROR_FORMAT
  else
    let '(frame_num, endptr) := strtoul (drop 6 filename) in
    if (endptr =? 0)%nat
       || negb (strcmp_eq (drop (6 + endptr) filename) rgb_suffix)
    then Failure GVC_ERROR_FORMAT
    else Success (u32 frame_num).

(** The number a string of decimal digits denotes. *)
Definition decimal_value (digits : list ascii) : Z :=
  fold_left (fun acc c => acc * 10 + digit_value c) digits 0.

(** ** The blob cache of the libgit2 reader *)

Definition PREFETCH_CACHE_SIZE : nat := 32.
Definition GIT_OID_HEXSZ : nat := 40.
Definition GVC_ERROR_GIT : Z := -3.

(** [blob] is the [git_blob*] handle, 0 for [NULL]. *)
Record blob_cache_entry_t := {
  oid_str : list ascii;
  blob : Z;
  valid : Z
}.

#[global] Instance blob_cache_entry_inhabited : Inhabited blob_cache_entry_t :=
  populate {| oid_str := []; blob := 0; valid := 0 |}.

(** The static variables of the cache.  [freed] is a ghost log of the
    handles passed to [git_blob_free], most recent first. *)
Record cache_state := {
  blob_cache : list blob_cache_entry_t;
  cache_write_pos : nat;
  freed : list Z
}.

(** The cache after the [memset] of [git_init_libgit2]. *)
Definition empty_cache : cache_state :=
  {| blob_cache := replicate PREFETCH_CACHE_SIZE
                     {| oid_str := []; blob := 0; valid := 0 |};
     cache_write_pos := 0;
     freed := [] |}.

(** The [for] loop of [find_blob_in_cache] from index [i] on;
    [remaining] is [PREFETCH_CACHE_SIZE - i]. *)
Fixpoint find_blob_scan (remaining : nat) (st : cache_state)
    (key : list ascii) (i : nat) : Z :=
  match remaining with
  | O => 0
  | S remaining' =>
      let entry := blob_cache st !!! i in
      if negb (valid entry =? 0) && strcmp_eq (oid_str entry) key
      then blob entry
      else find_blob_scan remaining' st key (S i)
  end.

Definition find_blob_in_cache (st : cache_state) (key : list ascii) : Z :=
  find_blob_scan PREFETCH_CACHE_SIZE st key 0.

(** [strncpy] of [GIT_OID_HEXSZ] characters followed by the NUL stored at
    index [GIT_OID_HEXSZ] leaves the first 40 characters of the key. *)
Definition add_blob_to_cache (st : cache_state) (key : list ascii)
    (new_blob : Z) : cache_state :=
  let slot := cache_write_pos st in
  let old := blob_cache st !!! slot in
  {| blob_cache :=
       <[slot := {| oid_str := take GIT_OID_HEXSZ key;
                    blob := new_blob; valid := 1 |}]> (blob_cache st);
     cache_write_pos := (slot + 1) mod PREFETCH_CACHE_SIZE;
     freed := if negb (valid old =? 0) && negb (blob old =? 0)
              then blob old :: freed st else freed st |}.

(** The cache loop of [git_cleanup_libgit2] from index [i] on. *)
Fixpoint cleanup_scan (remaining : nat) (st : cache_state) (i : nat)
    : cache_state :=
  match remaining with
  | O => st
  | S remaining' =>
      let entry := blob_cache st !!! i in
      let st' :=
        if negb (valid entry =? 0) && negb (blob entry =? 0)
        then {| blob_cache :=
                  <[i := {| oid_str := oid_str entry; blob := blob entry;
                            valid := 0 |}]> (blob_cache st);
                cache_write_pos := cache_write_pos st;
                freed := blob entry :: freed st |}
        else st in
      cleanup_scan remaining' st' (S i)
  end.

Definition git_cleanup_libgit2 (st : cache_state) : cache_state :=
  cleanup_scan PREFETCH_CACHE_SIZE st 0.

Section Repository.
(** The object database behind libgit2: the handle [git_blob_lookup]
    gives for the [frame.bin] of a commit, if every step of the lookup
    succeeds, and the bytes behind a handle. *)
Context (odb_lookup : list ascii -> option Z).
Context (blob_content : Z -> list Z).

(** [git_read_blob_libgit2] on an open repository. *)
Definition git_read_blob_libgit2 (st : cache_state) (commit_hash : list ascii)
    : cache_state * outcome (list Z) :=
  let cached_blob := find_blob_in_cache st commit_hash in
  if negb (cached_blob =? 0) then (st, Success (blob_content cached_blob))
  else
    match odb_lookup commit_hash with
    | None => (st, Failure GVC_ERROR_GIT)
    | Some new_blob =>
        (add_blob_to_cache st commit_hash new_blob,
         Success (blob_content new_blob))
    end.

(** Reading the commits of a list one after the other. *)
Fixpoint read_commits (st : cache_state) (commit_hashes : list (list ascii))
    : cache_state * list (outcome (list Z)) :=
  match commit_hashes with
  | [] => (st, [])
  | commit_hash :: rest =>
      let '(st1, result) := git_read_blob_libgit2 st commit_hash in
      let '(st2, results) := read_commits st1 rest in
      (st2, result :: results)
  end.

End Repository.

(** A handle is in the cache when a valid entry holds it. *)
Definition live_blobs (st : cache_state) : list Z :=
  omap (fun entry =>
          if negb (valid entry =? 0) && negb (blob entry =? 0)
          then Some (blob entry) else None)
       (blob_cache st).

(** The entry answers a search for [key]. *)
Definition entry_matches (key : list ascii) (entry : blob_cache_entry_t) : Prop :=
  valid entry <> 0 /\ oid_str entry = key.

(** Every valid entry holds the handle the repository gives for its key. *)
Definition cache_coherent (odb_lookup : list ascii -> option Z)
    (st : cache_state) : Prop :=
  forall j, valid (blob_cache st !!! j) <> 0 ->
            odb_lookup (oid_str (blob_cache st !!! j))
            = Some (blob (blob_cache st !!! j)).

(** What a read gives without the cache. *)
Definition uncached_read (odb_lookup : list ascii -> option Z)
    (blob_content : Z -> list Z) (commit_hash : list ascii)
    : outcome (list Z) :=
  match odb_lookup commit_hash with
  | Some handle => Success (blob_content handle)
  | None => Failure GVC_ERROR_GIT
  end.

(** Successive calls of [add_blob_to_cache]. *)
Definition add_blobs (st : cache_state) (additions : list (list ascii * Z))
    : cache_state :=
  foldl (fun st addition => add_blob_to_cache st addition.1 addition.2)
    st additions.

(** The shape every reachable cache has. *)
Definition cache_shape (st : cache_state) : Prop :=
  length (blob_cache st) = PREFETCH_CACHE_SIZE
  /\ (cache_write_pos st < PREFETCH_CACHE_SIZE)%nat.

(** The cache [m] additions of other keys after [key] went into slot [s]
    with [handle]. *)
Definition entry_aged (key : list ascii) (handle : Z) (s m : nat)
    (st : cache_state) : Prop :=
  length (blob_cache st) = PREFETCH_CACHE_SIZE
  /\ cache_write_pos st = ((s + 1 + m) mod PREFETCH_CACHE_SIZE)%nat
  /\ (forall j, j <> s -> ~ entry_matches key (blob_cache st !!! j))
  /\ ((m < PREFETCH_CACHE_SIZE)%nat ->
      blob_cache st !!! s = {| oid_str := key; blob := handle; valid := 1 |})
  /\ ((PREFETCH_CACHE_SIZE <= m)%nat ->
      ~ entry_matches key (blob_cache st !!! s)).

(** The handle a live entry holds. *)
Definition live_handle (entry : blob_cache_entry_t) : option Z :=
  if negb (valid entry =? 0) && negb (blob entry =? 0)
  then Some (blob entry) else None.

(** What the cleanup loop leaves of an entry. *)
Definition invalidated (entry : blob_cache_entry_t) : blob_cache_entry_t :=
  if negb (valid entry =? 0) && negb (blob entry =? 0)
  then {| oid_str := oid_str entry; blob := blob entry; valid := 0 |}
  else entry.

(** ** The frame buffer of the player *)

Definition FRAME_BUFFER_SIZE : nat := 16.
Definition GVC_ERROR_IO : Z := -2.

#[global] Instance raw_frame_inhabited : Inhabited raw_frame_t :=
  populate {| pixels := []; raw_width := 0; raw_height := 0;
              raw_channels := 0 |}.

(** The static variables of the ring buffer, and [should_exit]. *)
Record frame_buffer_state := {
  frame_buffer : list raw_frame_t;
  buffer_read_pos : nat;
  buffer_write_pos : nat;
  buffer_count : nat;
  should_exit : bool
}.

(** A call made under [buffer_mutex] either returns, or sits in
    [pthread_cond_wait] until another thread changes the buffer. *)
Inductive call (A : Type) : Type :=
  | Waits : call A
  | Returns : A -> call A.
Arguments Waits {A}.
Arguments Returns {A} _.

(** [buffer_put_frame]: the frame is copied into the slot at
    [buffer_write_pos]; nothing is stored once [should_exit] is set. *)
Definition buffer_put_frame (st : frame_buffer_state) (frame : raw_frame_t)
    : call (outcome frame_buffer_state) :=
  if (FRAME_BUFFER_SIZE <=? buffer_count st)%nat && negb (should_exit st)
  then Waits
  else if negb (should_exit st) then
    Returns (
      stored ← copy_raw_frame frame;
      Success {| frame_buffer :=
                   <[buffer_write_pos st := stored]> (frame_buffer st);
                 buffer_read_pos := buffer_read_pos st;
                 buffer_write_pos :=
                   (buffer_write_pos st + 1) mod FRAME_BUFFER_SIZE;
                 buffer_count := S (buffer_count st);
                 should_exit := should_exit st |})
  else Returns (Success st).

(** [buffer_get_frame]: the state it leaves and what it returns, the
    frame at [buffer_read_pos] or [GVC_ERROR_IO]. *)
Definition buffer_get_frame (st : frame_buffer_state)
    : call (frame_buffer_state * outcome raw_frame_t) :=
  if (buffer_count st =? 0)%nat && negb (should_exit st) then Waits
  else if should_exit st then Returns (st, Failure GVC_ERROR_IO)
  else
    Returns ({| frame_buffer := frame_buffer st;
                buffer_read_pos :=
                  (buffer_read_pos st + 1) mod FRAME_BUFFER_SIZE;
                buffer_write_pos := buffer_write_pos st;
                buffer_count := pred (buffer_count st);
                should_exit := should_exit st |},
             Success (frame_buffer st !!! buffer_read_pos st)).

(** The end of [play_from_stdin]: [should_exit] is set, and the buffer is
    emptied by calling [buffer_get_frame] until it fails; the frames whose
    pixels are freed on the way.  [None]: a call waits. *)
Fixpoint drain_buffer (fuel : nat) (st : frame_buffer_state)
    : option (frame_buffer_state * list raw_frame_t) :=
  match buffer_get_frame st with
  | Waits => None
  | Returns (st', Success frame) =>
      match fuel with
      | O => None
      | S fuel' =>
          match drain_buffer fuel' st' with
          | Some (st'', freed_frames) => Some (st'', frame :: freed_frames)
          | None => None
          end
      end
  | Returns (st', _) => Some (st', [])
  end.

Definition play_from_stdin_shutdown (st : frame_buffer_state)
    : option (frame_buffer_state * list raw_frame_t) :=
  drain_buffer (buffer_count st)
    {| frame_buffer := frame_buffer st;
       buffer_read_pos := buffer_read_pos st;
       buffer_write_pos := buffer_write_pos st;
       buffer_count := buffer_count st;
       should_exit := true |}.

(** The buffer holds the frames of [queue], oldest first. *)
Definition buffer_holds (st : frame_buffer_state) (queue : list raw_frame_t)
    : Prop :=
  length (frame_buffer st) = FRAME_BUFFER_SIZE
  /\ (buffer_read_pos st < FRAME_BUFFER_SIZE)%nat
  /\ buffer_count st = length queue
  /\ (length queue <= FRAME_BUFFER_SIZE)%nat
  /\ buffer_write_pos st
     = ((buffer_read_pos st + length queue) mod FRAME_BUFFER_SIZE)%nat
  /\ forall k, (k < length queue)%nat ->
       frame_buffer st !!! ((buffer_read_pos st + k) mod FRAME_BUFFER_SIZE)%nat
       = queue !!! k.

(** The buffer as the player starts with it. *)
Definition empty_buffer : frame_buffer_state :=
  {| frame_buffer :=
       replicate FRAME_BUFFER_SIZE
         {| pixels := []; raw_width := 0; raw_height := 0; raw_channels := 0 |};
     buffer_read_pos := 0; buffer_write_pos := 0; buffer_count := 0;
     should_exit := false |}.

(** ** The test pattern of the encoder *)

(** The three bytes the loop body computes for the pixel at column [x] of
    row [y]; the sums are taken in [uint32_t]. *)
Definition test_pixel (frame_number : Z) (y x : nat) : list Z :=
  [u8 (u32 (Z.of_nat x + frame_number) mod 256);
   u8 (u32 (Z.of_nat y + frame_number / 2) mod 256);
   u8 (u32 (Z.of_nat x + Z.of_nat y + frame_number) mod 256)].

(** The body of the inner loop: three stores at [pixel_idx]. *)
Definition store_test_pixel (frame_number : Z) (y : nat) (buf : list Z)
    (x : nat) : list Z :=
  let pixel_idx :=
    Z.to_nat (u32 ((Z.of_nat y * FRAME_WIDTH + Z.of_nat x) * FRAME_CHANNELS)) in
  let r := u8 (u32 (Z.of_nat x + frame_number) mod 256) in
  let g := u8 (u32 (Z.of_nat y + frame_number / 2) mod 256) in
  let b := u8 (u32 (Z.of_nat x + Z.of_nat y + frame_number) mod 256) in
  <[(pixel_idx + 2)%nat := b]>
    (<[(pixel_idx + 1)%nat := g]> (<[pixel_idx := r]> buf)).

(** The two nested loops of [generate_test_frame] over the rows and the
    columns; [heap] is the content of the block of [FRAME_SIZE] bytes that
    [malloc] returned. *)
Definition test_frame_loops (frame_number : Z) (heap : list Z) : list Z :=
  foldl (fun buf y =>
           foldl (store_test_pixel frame_number y) buf
             (seq 0 (Z.to_nat FRAME_WIDTH)))
    heap (seq 0 (Z.to_nat FRAME_HEIGHT)).

Definition generate_test_frame (frame_number : Z) (heap : list Z)
    : raw_frame_t :=
  {| pixels := test_frame_loops frame_number heap;
     raw_width := FRAME_WIDTH;
     raw_height := FRAME_HEIGHT;
     raw_channels := FRAME_CHANNELS |}.

(** The pattern row by row and pixel by pixel. *)
Definition test_pattern (frame_number : Z) : list Z :=
  flat_map (fun y => flat_map (test_pixel frame_number y)
                       (seq 0 (Z.to_nat FRAME_WIDTH)))
    (seq 0 (Z.to_nat FRAME_HEIGHT)).

(** ** The frame loops of the encoder and of the players *)




Section FrameLoops.
Context `{EntropyCoder}.



(** [decode_and_display_frame] of [player.c] as [play_from_repo] calls it,
    from the commit on: [frame_data] is what [git_read_frame_from_commit]
    returned for the commit; [display_frame] is taken to succeed. *)
Definition decode_and_display_commit (frame_data : outcome (list Z))
    (previous_frame : option raw_frame_t) : outcome raw_frame_t :=
  buffer ← frame_data;
  compressed_frame ← deserialize_frame buffer;
  decode_and_display_frame compressed_frame previous_frame.

(** The [for] loop of [play_from_repo] while no exit is requested: the
    frames shown, in order.  The loop is left at the first commit that
    fails to decode. *)
Fixpoint play_frames (commits : list (outcome (list Z)))
    (previous_frame : option raw_frame_t) : outcome (list raw_frame_t) :=
  match commits with
  | [] => Success []
  | frame_data :: rest =>
      match decode_and_display_commit frame_data previous_frame with
      | Success current_frame =>
          frames ← play_frames rest (Some current_frame);
          Success (current_frame :: frames)
      | Failure _ => Success []
      | OutOfBounds => OutOfBounds
      | OutOfFuel => OutOfFuel
      end
  end.


(** The predecessor [decoder_thread] holds after the commits of a list. *)
Fixpoint thread_previous (commits : list (outcome (list Z)))
    (previous_frame : option raw_frame_t) : option raw_frame_t :=
  match commits with
  | [] => previous_frame
  | frame_data :: rest =>
      match decode_and_display_frame_buffered frame_data previous_frame with
      | Success current_frame => thread_previous rest (Some current_frame)
      | _ => thread_previous rest previous_frame
      end
  end.

End FrameLoops.



(** The frame data of the commit that a call of [encode_frame_to_commit]
    makes: the blob it handed to [git_create_blob]. *)
Definition blob_of (commit : outcome (frame_t * list Z)) : outcome (list Z) :=
  c ← commit; Success c.2.

(** ** Sample data for the rest of the program *)

(** The header of a record without payload whose checksum field holds
    an arbitrary value. *)
Definition empty_payload_header : frame_header_t :=
  {| frame_number := 3; width := 1920; height := 1080; channels := 3;
     compressed_size := 0; checksum := 0xDEADBEEF; compression_type := 0;
     reserved0 := 0; reserved1 := 0; reserved2 := 0 |}.

(** A DELTA record of one pixel whose stream is a single identical run,
    as the reference coder stores it. *)
Definition run_record : frame_t :=
  {| header :=
       {| frame_number := 1; width := 1; height := 1; channels := 3;
          compressed_size := 3; checksum := 0; compression_type := 1;
          reserved0 := 0; reserved1 := 0; reserved2 := 0 |};
     data := stored_encode [0; 3] |}.

(** A frame of the configured size, all bytes 128. *)
Definition flat_frame : raw_frame_t :=
  uniform_frame FRAME_WIDTH FRAME_HEIGHT FRAME_CHANNELS 128.

(** A block of [FRAME_SIZE] zero bytes. *)
Definition zero_heap : list Z := repeat 0 (Z.to_nat 6220800).

(** A repository that holds one blob, under every 40-character name. *)
Definition sample_odb (commit_hash : list ascii) : option Z :=
  if (length commit_hash =? GIT_OID_HEXSZ)%nat then Some 5 else None.

Definition sample_content (handle : Z) : list Z := [handle; 2; 3].

Definition sample_hash : list ascii := replicate GIT_OID_HEXSZ "a"%char.

(** The commits of [flat_frame] as a key frame, and as the successor of
    itself. *)
Definition key_commit : outcome (list Z) :=
  blob_of (@encode_frame_to_commit stored_coder flat_frame None 0 zero_frame).
Definition delta_commit : outcome (list Z) :=
  blob_of (@encode_frame_to_commit stored_coder flat_frame (Some flat_frame) 1
             zero_frame).

(** The frame buffer holding one frame, in slot 0. *)
Definition one_frame_buffer : frame_buffer_state :=
  {| frame_buffer := <[0%nat := pixel_frame 1 2 3]> (frame_buffer empty_buffer);
     buffer_read_pos := 0; buffer_write_pos := 1; buffer_count := 1;
     should_exit := false |}.

(** * Properties *)

(** ** CRC-32 *)

Example crc32_check_value :
  calculate_checksum [49; 50; 51; 52; 53; 54; 55; 56; 57] = 0xCBF43926.
Proof. vm_compute. reflexivity. Qed.

Lemma lxor_range (n a b : Z) :
  0 <= n -> 0 <= a < 2 ^ n -> 0 <= b < 2 ^ n -> 0 <= Z.lxor a b < 2 ^ n.
Proof.
  intros Hn Ha Hb.
  destruct (Z.eq_dec a 0) as [->|Haz]; [rewrite Z.lxor_0_l; exact Hb|].
  destruct (Z.eq_dec b 0) as [->|Hbz]; [rewrite Z.lxor_0_r; exact Ha|].
  assert (Hnn : 0 <= Z.lxor a b) by (apply Z.lxor_nonneg; lia).
  split; [exact Hnn|].
  destruct (Z.eq_dec (Z.lxor a b) 0) as [->|Hz]; [lia|].
  apply Z.log2_lt_pow2; [lia|].
  pose proof (Z.log2_lxor a b ltac:(lia) ltac:(lia)) as Hl.
  assert (Z.log2 a < n) by (apply Z.log2_lt_pow2; lia).
  assert (Z.log2 b < n) by (apply Z.log2_lt_pow2; lia).
  lia.
Qed.

Lemma crc_shift_lxor (a b : Z) :
  crc_shift (Z.lxor a b) = Z.lxor (crc_shift a) (crc_shift b).
Proof.
  unfold crc_shift.
  rewrite Z.lxor_spec, Z.shiftr_lxor.
  destruct (Z.testbit a 0), (Z.testbit b 0); simpl.
  - rewrite !Z.lxor_assoc. f_equal.
    rewrite (Z.lxor_comm (Z.shiftr b 1)), <- Z.lxor_assoc.
    rewrite Z.lxor_nilpotent, Z.lxor_0_l. reflexivity.
  - rewrite !Z.lxor_assoc. f_equal. apply Z.lxor_comm.
  - rewrite !Z.lxor_assoc. reflexivity.
  - reflexivity.
Qed.

Lemma crc_shift_iter_lxor (n : nat) (a b : Z) :
  Nat.iter n crc_shift (Z.lxor a b)
  = Z.lxor (Nat.iter n crc_shift a) (Nat.iter n crc_shift b).
Proof.
  induction n as [|n IH]; simpl; [reflexivity|].
  rewrite IH. apply crc_shift_lxor.
Qed.

Lemma crc_shift_range (d : Z) :
  0 <= d < 2 ^ 32 -> 0 <= crc_shift d < 2 ^ 32.
Proof.
  intros Hd. unfold crc_shift.
  assert (Hs : 0 <= Z.shiftr d 1 < 2 ^ 32).
  { rewrite Z.shiftr_div_pow2 by lia. change (2 ^ 1) with 2.
    Z.div_mod_to_equations. lia. }
  destruct (Z.testbit d 0); [|exact Hs].
  apply lxor_range; [lia|exact Hs|]. unfold CRC_POLY. lia.
Qed.

Lemma crc_shift_nonzero (d : Z) :
  0 <= d < 2 ^ 32 -> d <> 0 -> crc_shift d <> 0.
Proof.
  intros Hd Hnz. unfold crc_shift.
  assert (Hdiv : Z.shiftr d 1 = d / 2).
  { rewrite Z.shiftr_div_pow2 by lia. reflexivity. }
  destruct (Z.testbit d 0) eqn:Hb.
  - intros Hx. apply Z.lxor_eq in Hx. rewrite Hdiv in Hx.
    unfold CRC_POLY in Hx. Z.div_mod_to_equations. lia.
  - rewrite Hdiv. rewrite Z.bit0_odd in Hb.
    rewrite <- Z.negb_even in Hb. apply negb_false_iff in Hb.
    apply Z.even_spec in Hb. destruct Hb as [k ->].
    Z.div_mod_to_equations. lia.
Qed.

Lemma crc_shift_iter_range (n : nat) (d : Z) :
  0 <= d < 2 ^ 32 -> 0 <= Nat.iter n crc_shift d < 2 ^ 32.
Proof.
  intros Hd. induction n as [|n IH]; simpl; [exact Hd|].
  apply crc_shift_range, IH.
Qed.

Lemma crc_shift_iter_nonzero (n : nat) (d : Z) :
  0 <= d < 2 ^ 32 -> d <> 0 -> Nat.iter n crc_shift d <> 0.
Proof.
  intros Hd Hnz. induction n as [|n IH]; simpl; [exact Hnz|].
  apply crc_shift_nonzero; [apply crc_shift_iter_range, Hd|exact IH].
Qed.

Lemma crc_byte_lxor_state (c d b : Z) :
  crc_byte (Z.lxor c d) b = Z.lxor (crc_byte c b) (Nat.iter 8 crc_shift d).
Proof.
  unfold crc_byte.
  rewrite <- crc_shift_iter_lxor. f_equal.
  rewrite !Z.lxor_assoc. f_equal. apply Z.lxor_comm.
Qed.

Lemma crc_byte_lxor_data (c b e : Z) :
  crc_byte c (Z.lxor b e) = Z.lxor (crc_byte c b) (Nat.iter 8 crc_shift e).
Proof.
  unfold crc_byte.
  rewrite <- crc_shift_iter_lxor. f_equal.
  rewrite Z.lxor_assoc. reflexivity.
Qed.

Lemma crc_update_lxor_state (buf : list Z) (c d : Z) :
  crc_update (Z.lxor c d) buf
  = Z.lxor (crc_update c buf) (Nat.iter (8 * length buf) crc_shift d).
Proof.
  unfold crc_update. revert c d.
  induction buf as [|b buf IH]; intros c d; simpl fold_left.
  - reflexivity.
  - rewrite crc_byte_lxor_state, IH. f_equal.
    replace (8 * length (b :: buf))%nat with (8 * length buf + 8)%nat
      by (simpl; lia).
    rewrite Nat.iter_add. reflexivity.
Qed.

Lemma crc_update_app (c : Z) (l1 l2 : list Z) :
  crc_update c (l1 ++ l2) = crc_update (crc_update c l1) l2.
Proof. unfold crc_update. apply fold_left_app. Qed.

Lemma crc_update_cons (c b : Z) (l : list Z) :
  crc_update c (b :: l) = crc_update (crc_byte c b) l.
Proof. reflexivity. Qed.

Lemma crc32_flip_middle (pre post : list Z) (b e : Z) :
  0 <= e < 2 ^ 32 -> e <> 0 ->
  calculate_checksum (pre ++ Z.lxor b e :: post)
  <> calculate_checksum (pre ++ b :: post).
Proof.
  intros He Hez.
  unfold calculate_checksum, crc32.
  rewrite !crc_update_app, !crc_update_cons.
  set (s := crc_update _ pre).
  rewrite crc_byte_lxor_data, crc_update_lxor_state.
  rewrite <- Nat.iter_add.
  set (D := Nat.iter _ crc_shift e).
  assert (HD : D <> 0) by (apply crc_shift_iter_nonzero; assumption).
  set (x := crc_update (crc_byte s b) post).
  intros Heq. apply HD.
  apply (f_equal (fun v => Z.lxor v 4294967295)) in Heq. cbv beta in Heq.
  rewrite !Z.lxor_assoc, !Z.lxor_nilpotent, !Z.lxor_0_r in Heq.
  apply (f_equal (Z.lxor x)) in Heq.
  rewrite <- Z.lxor_assoc, Z.lxor_nilpotent, Z.lxor_0_l in Heq.
  exact Heq.
Qed.

(** Inverting one bit of one byte changes the checksum. *)
Lemma crc32_flip_bit (buf : list Z) (k bit : nat) :
  (k < length buf)%nat -> (bit < 8)%nat ->
  calculate_checksum (flip_bit buf k bit) <> calculate_checksum buf.
Proof.
  intros Hk Hbit.
  destruct (lookup_lt_is_Some_2 buf k Hk) as [b Hb].
  pose proof (take_drop_middle buf k b Hb) as Hsplit.
  assert (Hflip : flip_bit buf k bit
                  = take k buf ++ Z.lxor b (2 ^ Z.of_nat bit) :: drop (S k) buf).
  { unfold flip_bit. rewrite (list_lookup_total_correct _ _ _ Hb).
    apply insert_take_drop. exact Hk. }
  assert (Hrhs : calculate_checksum buf
                 = calculate_checksum (take k buf ++ b :: drop (S k) buf))
    by (rewrite Hsplit; reflexivity).
  rewrite Hrhs, Hflip.
  apply crc32_flip_middle.
  - split; [apply Z.pow_nonneg; lia|]. apply Z.pow_lt_mono_r; lia.
  - apply Z.pow_nonzero; lia.
Qed.

(** ** Frame container *)

Lemma le32_recombine (x : Z) :
  0 <= x < 2 ^ 32 ->
  x mod 256 + 256 * ((x / 256) mod 256) + 65536 * ((x / 65536) mod 256)
  + 16777216 * ((x / 16777216) mod 256) = x.
Proof. intros Hx. Z.div_mod_to_equations. lia. Qed.

Lemma serialized_prefix_length (h : frame_header_t) :
  length (le32 FRAME_MAGIC ++ header_bytes h) = 32%nat.
Proof. reflexivity. Qed.

Lemma read_serialized_header (h : frame_header_t) (rest : list Z) :
  header_well_typed h ->
  read_header (le32 FRAME_MAGIC ++ header_bytes h ++ rest) 4 = h.
Proof.
  intros (? & ? & ? & ? & ? & ? & _).
  unfold read_header, read_le32, header_bytes, le32.
  cbn [app lookup_total list_lookup_total Nat.add].
  rewrite !le32_recombine by assumption. destruct h; reflexivity.
Qed.

(** What [deserialize_frame] does on a buffer laid out as magic, header,
    and then arbitrary bytes. *)
Lemma deserialize_frame_layout (h : frame_header_t) (rest : list Z) :
  header_well_typed h ->
  deserialize_frame (le32 FRAME_MAGIC ++ header_bytes h ++ rest)
  = if negb (width h =? FRAME_WIDTH) || negb (height h =? FRAME_HEIGHT)
       || negb (channels h =? FRAME_CHANNELS)
    then Failure GVC_ERROR_FORMAT
    else if 32 + compressed_size h >? 32 + Z.of_nat (length rest)
    then Failure GVC_ERROR_FORMAT
    else if (0 <? Z.to_nat (compressed_size h))%nat then
      let payload := take (Z.to_nat (compressed_size h)) rest in
      if negb (calculate_checksum payload =? checksum h)
      then Failure GVC_ERROR_FORMAT
      else Success {| header := h; data := payload |}
    else Success {| header := h; data := [] |}.
Proof.
  intros Hh. unfold deserialize_frame.
  rewrite (read_serialized_header h rest Hh).
  assert (Hlen : length (le32 FRAME_MAGIC ++ header_bytes h ++ rest)
                 = (32 + length rest)%nat).
  { rewrite !length_app. reflexivity. }
  rewrite Hlen.
  replace (32 + length rest <? 4 + 28)%nat with false
    by (symmetry; apply Nat.ltb_ge; lia).
  change (read_le32 (le32 FRAME_MAGIC ++ header_bytes h ++ rest) 0)
    with FRAME_MAGIC.
  rewrite Z.eqb_refl. cbn [negb].
  change (drop (4 + 28) (le32 FRAME_MAGIC ++ header_bytes h ++ rest))
    with rest.
  replace (Z.of_nat (4 + 28)) with 32 by reflexivity.
  replace (Z.of_nat (32 + length rest)) with (32 + Z.of_nat (length rest))
    by lia.
  reflexivity.
Qed.

Lemma deserialize_serialize_frame (r : frame_t) :
  frame_well_typed r ->
  width (header r) = FRAME_WIDTH -> height (header r) = FRAME_HEIGHT ->
  channels (header r) = FRAME_CHANNELS ->
  checksum (header r) = calculate_checksum (data r) ->
  Z.of_nat (length (data r)) = compressed_size (header r) ->
  deserialize_frame (serialize_frame r) = Success r.
Proof.
  intros [Hh _] Hw Hht Hc Hsum Hsize.
  unfold serialize_frame.
  rewrite (deserialize_frame_layout _ _ Hh).
  rewrite Hw, Hht, Hc, !Z.eqb_refl. cbn [negb orb].
  rewrite <- Hsize.
  replace (32 + Z.of_nat (length (data r)) >? 32 + Z.of_nat (length (data r)))
    with false by (symmetry; rewrite Z.gtb_ltb; apply Z.ltb_irrefl).
  rewrite Nat2Z.id, firstn_all.
  destruct r as [h d]; cbn [header data] in *.
  destruct d as [|b d]; [reflexivity|].
  cbn [length Nat.ltb Nat.leb].
  rewrite Hsum, Z.eqb_refl. reflexivity.
Qed.

Ltac closed_bounds :=
  repeat match goal with
         | |- _ /\ _ => split
         | |- Forall _ _ => constructor
         | |- byte_ok _ => unfold byte_ok
         end;
  try (vm_compute; first [reflexivity | discriminate]).

Lemma sample_record_well_typed : frame_well_typed sample_record.
Proof. unfold frame_well_typed, header_well_typed, bytes_ok. closed_bounds. Defined.

Lemma sample_record_valid : valid_record sample_record.
Proof. unfold valid_record. closed_bounds. Defined.

(** C5: container round trip: for every valid frame record (configured
    dimensions, checksum equal to the CRC-32 of the payload, zero reserved
    bytes, payload of [compressed_size] bytes), [deserialize_frame] applied
    to the output of [serialize_frame] succeeds and returns the record. *)
Theorem container_round_trip (r : frame_t) :
  frame_well_typed r -> valid_record r ->
  deserialize_frame (serialize_frame r) = Success r.
Proof.
  intros Ht (Hw & Hh & Hc & Hsum & _ & _ & _ & Hsize).
  apply deserialize_serialize_frame; assumption.
Qed.

Lemma container_round_trip_witness :
  frame_well_typed sample_record /\ valid_record sample_record
  /\ deserialize_frame (serialize_frame sample_record) = Success sample_record.
Proof.
  split; [exact sample_record_well_typed|].
  split; [exact sample_record_valid|].
  apply (container_round_trip sample_record).
  - exact sample_record_well_typed.
  - exact sample_record_valid.
Defined.

(** C6: reserved bytes and compression type: a buffer with correct magic,
    configured dimensions, sufficient length and correct CRC is accepted by
    [deserialize_frame] although a reserved byte is 1, and likewise although
    the compression type is 7; the header is returned as stored. *)
Theorem deserialize_ignores_reserved_and_type :
  deserialize_frame (serialize_frame reserved_set_record)
  = Success reserved_set_record
  /\ reserved0 (header reserved_set_record) <> 0
  /\ deserialize_frame (serialize_frame unknown_type_record)
     = Success unknown_type_record
  /\ compression_type (header unknown_type_record) <> 0
  /\ compression_type (header unknown_type_record) <> 1.
Proof.
  repeat split; try discriminate; vm_compute; reflexivity.
Qed.

Lemma flip_bit_serialized (r : frame_t) (k bit : nat) :
  flip_bit (serialize_frame r) (32 + k) bit
  = le32 FRAME_MAGIC ++ header_bytes (header r) ++ flip_bit (data r) k bit.
Proof.
  unfold flip_bit, serialize_frame.
  rewrite !(assoc_L (++)).
  pose proof (serialized_prefix_length (header r)) as Hlen.
  rewrite lookup_total_app_r by (rewrite Hlen; lia).
  rewrite insert_app_r_alt by (rewrite Hlen; lia).
  rewrite Hlen. replace (32 + k - 32)%nat with k by lia. reflexivity.
Qed.

(** C7: CRC verification: for every valid serialized record, inverting
    any single bit of any byte of the payload region (which is therefore
    not empty) makes [deserialize_frame] fail with [GVC_ERROR_FORMAT]. *)
Theorem crc_rejects_payload_bit_flip (r : frame_t) (k bit : nat) :
  frame_well_typed r -> valid_record r ->
  (k < length (data r))%nat -> (bit < 8)%nat ->
  deserialize_frame (flip_bit (serialize_frame r) (32 + k) bit)
  = Failure GVC_ERROR_FORMAT.
Proof.
  intros [Hh _] (Hw & Hht & Hc & Hsum & _ & _ & _ & Hsize) Hk Hbit.
  rewrite flip_bit_serialized.
  rewrite (deserialize_frame_layout _ _ Hh).
  rewrite Hw, Hht, Hc, !Z.eqb_refl. cbn [negb orb].
  assert (Hlen : length (flip_bit (data r) k bit) = length (data r))
    by apply length_insert.
  rewrite Hlen, <- Hsize.
  replace (32 + Z.of_nat (length (data r)) >? 32 + Z.of_nat (length (data r)))
    with false by (symmetry; rewrite Z.gtb_ltb; apply Z.ltb_irrefl).
  rewrite Nat2Z.id.
  replace (0 <? length (data r))%nat with true
    by (symmetry; apply Nat.ltb_lt; lia).
  cbv zeta. rewrite <- Hlen, firstn_all, Hsum.
  pose proof (crc32_flip_bit (data r) k bit Hk Hbit) as Hne.
  apply Z.eqb_neq in Hne. rewrite Hne. reflexivity.
Qed.

Lemma crc_rejects_payload_bit_flip_witness :
  frame_well_typed sample_record /\ valid_record sample_record
  /\ (2 < length (data sample_record))%nat /\ (5 < 8)%nat
  /\ deserialize_frame (flip_bit (serialize_frame sample_record) (32 + 2) 5)
     = Failure GVC_ERROR_FORMAT.
Proof.
  split; [exact sample_record_well_typed|].
  split; [exact sample_record_valid|].
  split; [simpl; lia|]. split; [lia|].
  apply (crc_rejects_payload_bit_flip sample_record 2 5).
  - exact sample_record_well_typed.
  - exact sample_record_valid.
  - simpl. lia.
  - lia.
Defined.

(** ** Byte arithmetic of the DELTA codec *)

Lemma land_255 (x : Z) : Z.land x 0xFF = x mod 256.
Proof. change 0xFF with (Z.ones 8). rewrite Z.land_ones by lia. reflexivity. Qed.

Lemma u8_byte (b : Z) : byte_ok b -> u8 b = b.
Proof. unfold byte_ok, u8. intros. apply Z.mod_small. lia. Qed.

Lemma delta_decoded_byte_same (p : Z) : byte_ok p -> delta_decoded_byte p p = p.
Proof.
  unfold byte_ok, delta_decoded_byte. intros Hp.
  rewrite Z.sub_diag. change (Z.land 0 255) with 0. change (int8 0) with 0.
  rewrite Z.add_0_r. unfold CLAMP, MAX, MIN, u8.
  destruct (p >? 0) eqn:E1; destruct (_ <? 255) eqn:E2;
    rewrite ?Z.gtb_ltb in *; try apply Z.ltb_lt in E1; try apply Z.ltb_ge in E1;
    try apply Z.ltb_lt in E2; try apply Z.ltb_ge in E2;
    try (rewrite Z.mod_small by lia); lia.
Qed.

Ltac split_ltb :=
  repeat match goal with
         | |- context [?a >? ?b] => rewrite (Z.gtb_ltb a b)
         | |- context [?a <=? ?b] => destruct (Z.leb_spec a b)
         | |- context [?a <? ?b] => destruct (Z.ltb_spec a b)
         end.

Ltac clamp_cases :=
  unfold int8; split_ltb; unfold CLAMP, MAX; split_ltb;
  unfold MIN; split_ltb; unfold u8.

Lemma delta_decoded_byte_in_range (p c : Z) :
  byte_ok p -> byte_ok c -> -128 <= c - p <= 127 ->
  delta_decoded_byte p c = c.
Proof.
  unfold byte_ok, delta_decoded_byte. intros Hp Hc Hd.
  rewrite land_255.
  assert (Hm : (c - p) mod 256 = c - p \/ (c - p) mod 256 = c - p + 256)
    by (Z.div_mod_to_equations; lia).
  pose proof (Z.mod_pos_bound (c - p) 256 ltac:(lia)) as Hb.
  clamp_cases; Z.div_mod_to_equations; lia.
Qed.

Lemma delta_decoded_byte_out_of_range (p c : Z) :
  byte_ok p -> byte_ok c -> ~ (-128 <= c - p <= 127) ->
  delta_decoded_byte p c <> c
  /\ (delta_decoded_byte p c = 0 \/ delta_decoded_byte p c = 255).
Proof.
  unfold byte_ok, delta_decoded_byte. intros Hp Hc Hd.
  rewrite land_255.
  assert (Hm : (c - p) mod 256 = c - p \/ (c - p) mod 256 = c - p + 256)
    by (Z.div_mod_to_equations; lia).
  pose proof (Z.mod_pos_bound (c - p) 256 ltac:(lia)) as Hb.
  clamp_cases; Z.div_mod_to_equations; lia.
Qed.

(** ** The run scanners of the encoder *)

Lemma identical_run_scan_spec (cur prev : list Z) (N i : nat) :
  forall budget run,
    let r := identical_run_scan budget cur prev N i run in
    (run <= r <= run + budget)%nat
    /\ ((i + run <= N)%nat -> (i + r <= N)%nat)
    /\ (forall k, (run <= k < r)%nat ->
                  cur !!! (i + k)%nat = prev !!! (i + k)%nat)
    /\ (r = run -> (0 < budget)%nat -> (i + run < N)%nat ->
        cur !!! (i + run)%nat <> prev !!! (i + run)%nat).
Proof.
  induction budget as [|budget IH]; intros run; cbn [identical_run_scan].
  - repeat split; intros; lia.
  - destruct (Nat.ltb_spec (i + run) N) as [Hlt|Hge]; cbn [andb].
    + destruct (Z.eqb_spec (cur !!! (i + run)%nat) (prev !!! (i + run)%nat))
        as [Heq|Hne].
      * specialize (IH (S run)). cbv zeta in IH.
        destruct IH as (Hb & Hn & Hk & _).
        repeat split; try lia.
        intros k Hkr. destruct (decide (k = run)) as [->|]; [exact Heq|].
        apply Hk. lia.
      * repeat split; intros; lia.
    + repeat split; intros; lia.
Qed.

Lemma diff_run_scan_spec (cur prev : list Z) (N i : nat) :
  forall budget run,
    let d := diff_run_scan budget cur prev N i run in
    (run <= d <= run + budget)%nat
    /\ ((i + run <= N)%nat -> (i + d <= N)%nat)
    /\ (d = run -> (0 < budget)%nat -> (i + run < N)%nat ->
        cur !!! (i + run)%nat = prev !!! (i + run)%nat).
Proof.
  induction budget as [|budget IH]; intros run; cbn [diff_run_scan].
  - repeat split; intros; lia.
  - destruct (Nat.ltb_spec (i + run) N) as [Hlt|Hge]; cbn [andb].
    + destruct (Z.eqb_spec (cur !!! (i + run)%nat) (prev !!! (i + run)%nat))
        as [Heq|Hne]; cbn [negb].
      * repeat split; intros; lia.
      * specialize (IH (S run)). cbv zeta in IH.
        destruct IH as (Hb & Hn & _).
        repeat split; lia.
    + repeat split; intros; lia.
Qed.

(** At an index inside the frame one of the two scanners makes progress. *)
Lemma scan_progress (cur prev : list Z) (N i : nat) :
  (i < N)%nat ->
  identical_run_scan 255 cur prev N i 0 = 0%nat ->
  (0 < diff_run_scan 255 cur prev N i 0)%nat.
Proof.
  intros Hi Hr.
  destruct (identical_run_scan_spec cur prev N i 255 0) as (_ & _ & _ & Hne).
  destruct (diff_run_scan_spec cur prev N i 255 0) as (_ & _ & Heq).
  cbv zeta in *. rewrite Nat.add_0_r in *.
  destruct (diff_run_scan 255 cur prev N i 0) as [|d]; [|lia].
  exfalso. apply Hne; [exact Hr|lia|exact Hi|]. apply Heq; [reflexivity|lia|exact Hi].
Qed.

(** A scanner stops where its test fails and advances where it holds. *)
Lemma identical_run_scan_stop (budget : nat) (cur prev : list Z)
    (N i run : nat) :
  (i + run <? N)%nat && (cur !!! (i + run)%nat =? prev !!! (i + run)%nat)
  = false ->
  identical_run_scan budget cur prev N i run = run.
Proof. intros Hg. destruct budget; cbn [identical_run_scan]; [|rewrite Hg]; reflexivity. Qed.

Lemma diff_run_scan_stop (budget : nat) (cur prev : list Z)
    (N i run : nat) :
  (i + run <? N)%nat
  && negb (cur !!! (i + run)%nat =? prev !!! (i + run)%nat) = false ->
  diff_run_scan budget cur prev N i run = run.
Proof. intros Hg. destruct budget; cbn [diff_run_scan]; [|rewrite Hg]; reflexivity. Qed.

Lemma identical_run_scan_step (budget : nat) (cur prev : list Z)
    (N i run : nat) :
  (i + run <? N)%nat && (cur !!! (i + run)%nat =? prev !!! (i + run)%nat)
  = true ->
  identical_run_scan (S budget) cur prev N i run
  = identical_run_scan budget cur prev N i (S run).
Proof. intros Hg. cbn [identical_run_scan]. rewrite Hg. reflexivity. Qed.

Lemma diff_run_scan_step (budget : nat) (cur prev : list Z)
    (N i run : nat) :
  (i + run <? N)%nat
  && negb (cur !!! (i + run)%nat =? prev !!! (i + run)%nat) = true ->
  diff_run_scan (S budget) cur prev N i run
  = diff_run_scan budget cur prev N i (S run).
Proof. intros Hg. cbn [diff_run_scan]. rewrite Hg. reflexivity. Qed.

(** ** The encoder loop *)

Lemma delta_loop_acc (cur prev : list Z) (N : nat) :
  forall fuel i acc,
    delta_loop fuel cur prev N i acc
    = (acc ++.) <$> delta_loop fuel cur prev N i [].
Proof.
  induction fuel as [|fuel IH]; intros i acc; cbn [delta_loop].
  - destruct (i <? N)%nat; cbn; [reflexivity|]. rewrite app_nil_r. reflexivity.
  - destruct (i <? N)%nat; cbn [fmap option_fmap option_map];
      [|rewrite app_nil_r; reflexivity].
    repeat match goal with
           | |- context [if ?b then _ else _] => destruct b
           end.
    + rewrite (IH _ (acc ++ _)), (IH _ ([] ++ _)).
      rewrite <- !option_fmap_compose. apply option_fmap_ext.
      intros s. cbn. rewrite <- ?app_assoc. reflexivity.
    + rewrite (IH _ (acc ++ _)), (IH _ ([] ++ _)).
      rewrite <- !option_fmap_compose. apply option_fmap_ext.
      intros s. cbn. rewrite <- ?app_assoc. reflexivity.
    + apply IH.
Qed.

(** The loop always runs to completion within its budget. *)
Lemma delta_loop_total (cur prev : list Z) (N : nat) :
  forall fuel i acc,
    (N - i <= fuel)%nat ->
    exists stream, delta_loop fuel cur prev N i acc = Some stream.
Proof.
  induction fuel as [|fuel IH]; intros i acc Hfuel; cbn [delta_loop].
  - replace (i <? N)%nat with false by (symmetry; apply Nat.ltb_ge; lia).
    eauto.
  - destruct (Nat.ltb_spec i N) as [Hi|Hi]; [|eauto].
    destruct (Nat.ltb_spec 0 (identical_run_scan 255 cur prev N i 0)).
    { apply IH. lia. }
    destruct (Nat.ltb_spec 0 (diff_run_scan 255 cur prev N i 0)).
    { apply IH. lia. }
    apply IH. lia.
Qed.

Lemma delta_transform_total (cur prev : list Z) (N : nat) :
  exists stream, delta_transform cur prev N = Some stream.
Proof. apply delta_loop_total. lia. Qed.

(** ** Replaying the encoder's stream *)

Lemma delta_values_S (cur prev : list Z) (i d : nat) :
  delta_values cur prev i (S d)
  = Z.land (cur !!! i - prev !!! i) 0xFF :: delta_values cur prev (S i) d.
Proof.
  unfold delta_values. cbn [seq map]. rewrite Nat.add_0_r. f_equal.
  rewrite <- seq_shift, map_map. apply map_ext. intros j.
  replace (i + S j)%nat with (S i + j)%nat by lia. reflexivity.
Qed.

Lemma delta_values_length (cur prev : list Z) (i d : nat) :
  length (delta_values cur prev i d) = d.
Proof. unfold delta_values. rewrite length_map, length_seq. reflexivity. Qed.

Section Replay.
Context (cur prev : list Z) (N : nat).
Context (Hcur : length cur = N) (Hprev : length prev = N).
Context (Hbytes : bytes_ok prev).

(** The frame the decoder is about to produce, and the buffer it holds when
    the cursor is at [j]: reconstructed below [j], predecessor from [j] on. *)
Local Abbreviation D := (zip_with delta_decoded_byte prev cur).
Local Abbreviation partial j := (take j D ++ drop j prev).

Lemma decoded_length : length D = N.
Proof. rewrite length_zip_with. lia. Qed.

Lemma decoded_lookup (k : nat) :
  (k < N)%nat -> D !! k = Some (delta_decoded_byte (prev !!! k) (cur !!! k)).
Proof.
  intros Hk. rewrite lookup_zip_with.
  rewrite (list_lookup_lookup_total_lt prev k) by lia.
  rewrite (list_lookup_lookup_total_lt cur k) by lia.
  reflexivity.
Qed.

Lemma partial_lookup (j : nat) : (j < N)%nat -> partial j !!! j = prev !!! j.
Proof.
  intros Hj. pose proof decoded_length.
  rewrite lookup_total_app_r by (rewrite length_take; lia).
  rewrite length_take. replace (j - j `min` length D)%nat with 0%nat by lia.
  rewrite lookup_total_drop. f_equal. lia.
Qed.

Lemma partial_store (j : nat) :
  (j < N)%nat ->
  <[j := delta_decoded_byte (prev !!! j) (cur !!! j)]> (partial j)
  = partial (S j).
Proof.
  intros Hj. pose proof decoded_length.
  rewrite insert_app_r_alt by (rewrite length_take; lia).
  rewrite length_take. replace (j - j `min` length D)%nat with 0%nat by lia.
  rewrite (drop_S prev (prev !!! j) j)
    by (apply list_lookup_lookup_total_lt; lia).
  cbn [insert list_insert].
  rewrite (take_S_r D j _ (decoded_lookup j Hj)).
  rewrite <- app_assoc. reflexivity.
Qed.

Lemma partial_skip (j : nat) :
  (j < N)%nat -> cur !!! j = prev !!! j -> partial j = partial (S j).
Proof.
  intros Hj Heq. rewrite <- (partial_store j Hj).
  rewrite Heq, delta_decoded_byte_same.
  - symmetry. apply list_insert_id'.
    intros _. rewrite <- (partial_lookup j Hj).
    apply list_lookup_lookup_total_lt.
    rewrite length_app, length_take, length_drop, decoded_length. lia.
  - eapply Forall_lookup_1; [exact Hbytes|].
    apply list_lookup_lookup_total_lt. lia.
Qed.

Lemma partial_skip_run (i r : nat) :
  (i + r <= N)%nat ->
  (forall k, (k < r)%nat -> cur !!! (i + k)%nat = prev !!! (i + k)%nat) ->
  partial i = partial (i + r).
Proof.
  induction r as [|r IH]; intros Hle Hrun.
  - rewrite Nat.add_0_r. reflexivity.
  - rewrite IH by (try lia; intros; apply Hrun; lia).
    replace (i + S r)%nat with (S (i + r)) by lia.
    apply partial_skip; [lia|]. apply Hrun. lia.
Qed.

Lemma partial_full : partial N = D.
Proof.
  rewrite take_ge by (rewrite decoded_length; lia).
  rewrite drop_ge by lia. apply app_nil_r.
Qed.

Lemma apply_deltas_run :
  forall d i pre rest log,
    (i + d <= N)%nat ->
    apply_deltas d (pre ++ delta_values cur prev i d ++ rest) N
      {| delta_pos := length pre; pixel_pos := i;
         out_pixels := partial i; stores := log |}
    = {| delta_pos := length pre + d; pixel_pos := i + d;
         out_pixels := partial (i + d); stores := rev (seq i d) ++ log |}.
Proof.
  induction d as [|d IH]; intros i pre rest log Hle.
  - cbn [apply_deltas seq rev app]. rewrite !Nat.add_0_r. reflexivity.
  - cbn [apply_deltas delta_pos pixel_pos out_pixels stores].
    replace (i <? N)%nat with true by (symmetry; apply Nat.ltb_lt; lia).
    rewrite delta_values_S.
    replace (length pre <? _)%nat with true
      by (symmetry; apply Nat.ltb_lt; rewrite length_app; cbn; lia).
    cbn [andb].
    rewrite (lookup_total_app_r pre) by lia.
    rewrite Nat.sub_diag. cbn [app lookup_total list_lookup_total].
    rewrite partial_lookup by lia.
    fold (delta_decoded_byte (prev !!! i) (cur !!! i)).
    rewrite partial_store by lia.
    rewrite (cons_middle _ pre), app_assoc.
    replace (S (length pre)) with (length (pre ++ [Z.land (cur !!! i - prev !!! i) 255]))
      by (rewrite length_app; cbn; lia).
    rewrite IH by lia.
    rewrite length_app. cbn [length seq rev].
    replace (i + S d)%nat with (S i + d)%nat by lia.
    replace (length pre + S d)%nat with (length pre + 1 + d)%nat by lia.
    rewrite <- app_assoc. reflexivity.
Qed.

(** One pass of the decoder over the stream produced from index [i] on
    completes the reconstruction. *)
Lemma replay_delta_loop :
  forall fuel i pre stream log fuel',
    (i <= N)%nat ->
    delta_loop fuel cur prev N i [] = Some stream ->
    (length stream <= fuel')%nat ->
    exists st,
      replay_loop fuel' (pre ++ stream) N
        {| delta_pos := length pre; pixel_pos := i;
           out_pixels := partial i; stores := log |} = Some st
      /\ out_pixels st = D.
Proof.
  induction fuel as [|fuel IH]; intros i pre stream log fuel' Hi Hloop Hfuel.
  - cbn [delta_loop] in Hloop.
    destruct (Nat.ltb_spec i N) as [Hlt|Hge]; [discriminate|].
    assert (i = N) by lia. subst i.
    exists {| delta_pos := length pre; pixel_pos := N;
              out_pixels := partial N; stores := log |}.
    split; [|apply partial_full].
    destruct fuel'; cbn [replay_loop pixel_pos];
      rewrite Nat.ltb_irrefl, andb_false_r; reflexivity.
  - cbn [delta_loop] in Hloop.
    destruct (Nat.ltb_spec i N) as [Hlt|Hge].
    2:{ assert (i = N) by lia. subst i.
        exists {| delta_pos := length pre; pixel_pos := N;
                  out_pixels := partial N; stores := log |}.
        split; [|apply partial_full].
        destruct fuel'; cbn [replay_loop pixel_pos];
          rewrite Nat.ltb_irrefl, andb_false_r; reflexivity. }
    destruct (identical_run_scan_spec cur prev N i 255 0)
      as (Hrb & Hrn & Hrk & _).
    destruct (diff_run_scan_spec cur prev N i 255 0) as (Hdb & Hdn & _).
    pose proof (scan_progress cur prev N i Hlt) as Hprog.
    cbv zeta in *.
    set (r := identical_run_scan 255 cur prev N i 0) in *.
    set (d := diff_run_scan 255 cur prev N i 0) in *.
    clearbody r d.
    destruct (Nat.ltb_spec 0 r) as [Hr|Hr].
    + (* identical run *)
      rewrite delta_loop_acc in Hloop.
      destruct (delta_loop fuel cur prev N (i + r) []) as [tail|] eqn:Htail;
        [|discriminate].
      cbn [fmap option_fmap option_map app] in Hloop. injection Hloop as <-.
      cbn [length] in Hfuel.
      destruct fuel' as [|fuel']; [lia|].
      cbn [replay_loop delta_pos pixel_pos out_pixels stores].
      replace (length pre <? _)%nat with true
        by (symmetry; apply Nat.ltb_lt; rewrite length_app; cbn; lia).
      replace (i <? N)%nat with true by (symmetry; apply Nat.ltb_lt; lia).
      cbn [andb].
      replace (_ <=? S (length pre))%nat with false
        by (symmetry; apply Nat.leb_gt; rewrite length_app; cbn; lia).
      rewrite (lookup_total_app_r pre) by lia.
      rewrite Nat.sub_diag. cbn [lookup_total list_lookup_total].
      rewrite (lookup_total_app_r pre) by lia.
      replace (S (length pre) - length pre)%nat with 1%nat by lia.
      cbn [lookup_total list_lookup_total].
      rewrite Z.eqb_refl.
      rewrite u8_byte by (unfold byte_ok; lia).
      rewrite Nat2Z.id.
      rewrite (partial_skip_run i r)
        by (try lia; intros; apply Hrk; lia).
      replace (pre ++ 0 :: Z.of_nat r :: tail)
        with ((pre ++ [0; Z.of_nat r]) ++ tail)
        by (rewrite <- app_assoc; reflexivity).
      replace (S (S (length pre))) with (length (pre ++ [0; Z.of_nat r]))
        by (rewrite length_app; cbn; lia).
      apply IH; [lia|exact Htail|lia].
    + (* differing run *)
      assert (r = 0%nat) by lia.
      specialize (Hprog ltac:(assumption)).
      destruct (Nat.ltb_spec 0 d) as [Hd|Hd]; [|lia].
      rewrite delta_loop_acc in Hloop.
      destruct (delta_loop fuel cur prev N (i + d) []) as [tail|] eqn:Htail;
        [|discriminate].
      cbn [fmap option_fmap option_map app] in Hloop. injection Hloop as <-.
      cbn [length] in Hfuel.
      destruct fuel' as [|fuel']; [lia|].
      cbn [replay_loop delta_pos pixel_pos out_pixels stores].
      replace (length pre <? _)%nat with true
        by (symmetry; apply Nat.ltb_lt; rewrite length_app; cbn; lia).
      replace (i <? N)%nat with true by (symmetry; apply Nat.ltb_lt; lia).
      cbn [andb].
      replace (_ <=? S (length pre))%nat with false
        by (symmetry; apply Nat.leb_gt; rewrite length_app; cbn; lia).
      rewrite (lookup_total_app_r pre) by lia.
      rewrite Nat.sub_diag. cbn [lookup_total list_lookup_total].
      rewrite (lookup_total_app_r pre) by lia.
      replace (S (length pre) - length pre)%nat with 1%nat by lia.
      cbn [lookup_total list_lookup_total].
      change (1 =? 0) with false. change (1 =? 1) with true. cbv iota.
      rewrite u8_byte by (unfold byte_ok; lia).
      rewrite Nat2Z.id.
      replace (pre ++ 1 :: Z.of_nat d :: delta_values cur prev i d ++ tail)
        with ((pre ++ [1; Z.of_nat d]) ++ delta_values cur prev i d ++ tail)
        by (rewrite <- app_assoc; reflexivity).
      replace (S (S (length pre))) with (length (pre ++ [1; Z.of_nat d]))
        by (rewrite length_app; cbn; lia).
      rewrite apply_deltas_run by lia.
      rewrite app_assoc.
      replace (Nat.add (length (pre ++ [1; Z.of_nat d])) d)
        with (length ((pre ++ [1; Z.of_nat d]) ++ delta_values cur prev i d))
        by (rewrite (length_app _ (delta_values _ _ _ _)), delta_values_length;
            reflexivity).
      apply IH; [lia|exact Htail|].
      rewrite length_app, delta_values_length in Hfuel. lia.
Qed.

End Replay.

(** ** In-range and out-of-range pairs *)

Lemma decoded_in_range (prev cur : list Z) :
  bytes_ok prev -> bytes_ok cur -> in_delta_range prev cur ->
  zip_with delta_decoded_byte prev cur = cur.
Proof.
  intros Hp Hc Hr. induction Hr as [|p c prev cur Hpc Hr IH]; [reflexivity|].
  apply Forall_cons in Hp as [Hp Hp']. apply Forall_cons in Hc as [Hc Hc'].
  cbn [zip_with]. rewrite delta_decoded_byte_in_range by assumption.
  rewrite IH by assumption. reflexivity.
Qed.

Lemma decoded_eq_in_range (prev : list Z) :
  forall cur,
    bytes_ok prev -> bytes_ok cur -> length prev = length cur ->
    zip_with delta_decoded_byte prev cur = cur ->
    in_delta_range prev cur.
Proof.
  induction prev as [|p prev IH]; intros [|c cur] Hp Hc Hlen Heq;
    try discriminate; [constructor|].
  apply Forall_cons in Hp as [Hp Hp']. apply Forall_cons in Hc as [Hc Hc'].
  cbn [zip_with] in Heq. injection Heq as Hhd Htl.
  constructor.
  - destruct (decide (-128 <= c - p <= 127)) as [Hin|Hout]; [exact Hin|].
    destruct (delta_decoded_byte_out_of_range p c Hp Hc Hout) as [Hne _].
    contradiction.
  - apply IH; [assumption..|cbn in Hlen; lia|exact Htl].
Qed.

(** ** The codecs on well-formed frames *)

Lemma raw_frame_pixel_count (f : raw_frame_t) :
  raw_frame_ok f ->
  pixel_count_of (raw_width f) (raw_height f) (raw_channels f)
  = length (pixels f)
  /\ Z.to_nat (u32 (raw_width f * raw_height f * raw_channels f * 2))
     = (2 * length (pixels f))%nat
  /\ (0 < length (pixels f))%nat.
Proof.
  intros (Hw & Hh & Hc & Hsz & Hlen & _).
  assert (0 < raw_width f * raw_height f) by nia.
  assert (0 < raw_width f * raw_height f * raw_channels f) by nia.
  unfold pixel_count_of, u32. rewrite !Z.mod_small by lia.
  rewrite Hlen. lia.
Qed.

Lemma delta_transform_nonempty (cur prev : list Z) (N : nat) (stream : list Z) :
  (0 < N)%nat -> delta_transform cur prev N = Some stream ->
  (2 <= length stream)%nat.
Proof.
  unfold delta_transform. destruct N as [|N]; [lia|]. intros _.
  cbn [delta_loop]. change (0 <? S N)%nat with true. cbv iota.
  pose proof (scan_progress cur prev (S N) 0 ltac:(lia)) as Hprog.
  destruct (Nat.ltb_spec 0 (identical_run_scan 255 cur prev (S N) 0 0)).
  - rewrite delta_loop_acc.
    destruct (delta_loop N cur prev (S N) _ []);
      cbn [fmap option_fmap option_map app]; [|discriminate].
    intros [= <-]. cbn. lia.
  - specialize (Hprog ltac:(lia)).
    destruct (Nat.ltb_spec 0 (diff_run_scan 255 cur prev (S N) 0 0)); [|lia].
    rewrite delta_loop_acc.
    destruct (delta_loop N cur prev (S N) _ []);
      cbn [fmap option_fmap option_map app]; [|discriminate].
    intros [= <-]. cbn. lia.
Qed.

Section Codec.
Context `{EntropyCoder}.

Lemma encode_buffer_bound (src : list Z) :
  compression_encode_buffer (compressBound (length src)) src = lz_encode src.
Proof.
  unfold compression_encode_buffer.
  pose proof (lz_encode_bound src) as Hb.
  apply Nat.leb_le in Hb. rewrite Hb. reflexivity.
Qed.

Lemma decode_buffer_encode (dst_size : nat) (src : list Z) :
  compression_decode_buffer dst_size (lz_encode src) = take dst_size src.
Proof.
  unfold compression_decode_buffer. rewrite lz_decode_encode. reflexivity.
Qed.

Lemma lz_encode_length_pos (src : list Z) :
  (length (lz_encode src) =? 0)%nat = false.
Proof.
  apply Nat.eqb_neq. intros Hz. apply (lz_encode_nonempty src).
  apply nil_length_inv. exact Hz.
Qed.

Lemma compress_frame_raw_ok (input : raw_frame_t) (output : frame_t) :
  raw_frame_ok input ->
  compress_frame_raw input output
  = Success (fill_output output (raw_width input) (raw_height input)
               (raw_channels input) 0 (lz_encode (pixels input))).
Proof.
  intros Hok. destruct (raw_frame_pixel_count input Hok) as (Hn & _ & _).
  unfold compress_frame_raw. rewrite Hn, Nat.ltb_irrefl, firstn_all.
  rewrite encode_buffer_bound, lz_encode_length_pos. reflexivity.
Qed.

Lemma decompress_frame_raw_ok (compressed : frame_t) (input : raw_frame_t) :
  raw_frame_ok input ->
  width (header compressed) = raw_width input ->
  height (header compressed) = raw_height input ->
  channels (header compressed) = raw_channels input ->
  data compressed = lz_encode (pixels input) ->
  decompress_frame_raw compressed = Success input.
Proof.
  intros Hok Hw Hh Hc Hdata.
  destruct (raw_frame_pixel_count input Hok) as (Hn & _ & Hpos).
  unfold decompress_frame_raw. rewrite Hw, Hh, Hc, Hdata, Hn.
  rewrite decode_buffer_encode, firstn_all, Nat.eqb_refl.
  replace (length (pixels input) =? 0)%nat with false
    by (symmetry; apply Nat.eqb_neq; lia).
  destruct input; reflexivity.
Qed.

Lemma compress_frame_delta_ok (current previous : raw_frame_t)
    (output : frame_t) (stream : list Z) :
  raw_frame_ok current -> raw_frame_ok previous ->
  same_dims current previous ->
  delta_transform (pixels current) (pixels previous)
    (length (pixels current)) = Some stream ->
  (length stream <= 2 * length (pixels current))%nat ->
  compress_frame_delta current previous output
  = Success (fill_output output (raw_width current) (raw_height current)
               (raw_channels current) 1 (lz_encode stream)).
Proof.
  intros Hcur Hprev (Hw & Hh & Hc) Hstream Hfit.
  destruct (raw_frame_pixel_count current Hcur) as (Hn & _ & _).
  destruct (raw_frame_pixel_count previous Hprev) as (Hn' & _ & _).
  unfold compress_frame_delta.
  rewrite <- Hw, <- Hh, <- Hc, Hn in Hn'. rewrite <- Hw, <- Hh, <- Hc.
  rewrite !Z.eqb_refl. cbn [negb orb].
  rewrite Hn, <- Hn', !Nat.ltb_irrefl. cbn [orb].
  rewrite Hstream.
  replace (length (pixels current) * 2 <? length stream)%nat with false
    by (symmetry; apply Nat.ltb_ge; lia).
  rewrite encode_buffer_bound, lz_encode_length_pos. reflexivity.
Qed.

Lemma decompress_frame_delta_ok (compressed : frame_t)
    (current previous : raw_frame_t) (stream : list Z) :
  raw_frame_ok current -> raw_frame_ok previous ->
  same_dims current previous ->
  width (header compressed) = raw_width current ->
  height (header compressed) = raw_height current ->
  channels (header compressed) = raw_channels current ->
  data compressed = lz_encode stream ->
  delta_transform (pixels current) (pixels previous)
    (length (pixels current)) = Some stream ->
  (length stream <= 2 * length (pixels current))%nat ->
  decompress_frame_delta compressed previous
  = Success {| pixels := zip_with delta_decoded_byte (pixels previous)
                           (pixels current);
               raw_width := raw_width current;
               raw_height := raw_height current;
               raw_channels := raw_channels current |}.
Proof.
  intros Hcur Hprev (Hw & Hh & Hc) Hhw Hhh Hhc Hdata Hstream Hfit.
  destruct (raw_frame_pixel_count current Hcur) as (Hn & Hn2 & Hpos).
  destruct (raw_frame_pixel_count previous Hprev) as (Hn' & _ & _).
  rewrite <- Hw, <- Hh, <- Hc, Hn in Hn'.
  pose proof (delta_transform_nonempty _ _ _ _ Hpos Hstream) as Hne.
  unfold decompress_frame_delta.
  rewrite Hhw, Hhh, Hhc, Hdata, Hn, Hn2.
  rewrite decode_buffer_encode, take_ge by lia.
  replace (length stream =? 0)%nat with false
    by (symmetry; apply Nat.eqb_neq; lia).
  replace (length (pixels previous) <? length (pixels current))%nat
    with false by (symmetry; apply Nat.ltb_ge; lia).
  rewrite (take_ge (pixels previous)) by lia.
  destruct Hprev as (_ & _ & _ & _ & _ & Hbytes).
  destruct (replay_delta_loop (pixels current) (pixels previous)
              (length (pixels current)) eq_refl (eq_sym Hn') Hbytes
              (length (pixels current)) 0 [] stream [] (length stream)
              ltac:(lia) Hstream ltac:(lia)) as (st & Hst & Hout).
  unfold replay. rewrite take_0, drop_0 in Hst. cbn [app length] in Hst.
  rewrite Hst, Hout. reflexivity.
Qed.

End Codec.
(** ** The frame loops *)

Section Chain.
Context `{EntropyCoder}.

Lemma encode_frame_key_ok (current_frame : raw_frame_t) (n : Z)
    (stack : frame_t) :
  raw_frame_ok current_frame ->
  let r := set_frame_number
             (fill_output stack (raw_width current_frame)
                (raw_height current_frame) (raw_channels current_frame) 0
                (lz_encode (pixels current_frame))) (u32 n) in
  encode_frame_to_commit current_frame None n stack
  = Success (r, serialize_frame r).
Proof.
  intros Hok. unfold encode_frame_to_commit.
  rewrite compress_frame_raw_ok by exact Hok. reflexivity.
Qed.

Lemma encode_frame_delta_ok (current_frame previous : raw_frame_t) (n : Z)
    (stack : frame_t) (stream : list Z) :
  raw_frame_ok current_frame -> raw_frame_ok previous ->
  same_dims current_frame previous ->
  delta_transform (pixels current_frame) (pixels previous)
    (length (pixels current_frame)) = Some stream ->
  (length stream <= 2 * length (pixels current_frame))%nat ->
  let r := set_frame_number
             (fill_output stack (raw_width current_frame)
                (raw_height current_frame) (raw_channels current_frame) 1
                (lz_encode stream)) (u32 n) in
  encode_frame_to_commit current_frame (Some previous) n stack
  = Success (r, serialize_frame r).
Proof.
  intros Hcur Hprev Hdims Hstream Hfit. unfold encode_frame_to_commit.
  rewrite (compress_frame_delta_ok _ _ _ stream) by assumption. reflexivity.
Qed.

(** What the player reconstructs from the record of a DELTA frame. *)
Lemma decode_delta_record (current_frame previous : raw_frame_t) (n : Z)
    (stack : frame_t) (stream : list Z) :
  raw_frame_ok current_frame -> raw_frame_ok previous ->
  same_dims current_frame previous ->
  delta_transform (pixels current_frame) (pixels previous)
    (length (pixels current_frame)) = Some stream ->
  (length stream <= 2 * length (pixels current_frame))%nat ->
  decode_and_display_frame
    (set_frame_number
       (fill_output stack (raw_width current_frame)
          (raw_height current_frame) (raw_channels current_frame) 1
          (lz_encode stream)) (u32 n))
    (Some previous)
  = Success {| pixels := zip_with delta_decoded_byte (pixels previous)
                           (pixels current_frame);
               raw_width := raw_width current_frame;
               raw_height := raw_height current_frame;
               raw_channels := raw_channels current_frame |}.
Proof.
  intros Hcur Hprev Hdims Hstream Hfit. unfold decode_and_display_frame.
  cbn [set_frame_number fill_output header compression_type].
  change (1 =? 0) with false. change (1 =? 1) with true. cbv iota.
  apply (decompress_frame_delta_ok _ current_frame previous stream);
    try assumption; reflexivity.
Qed.

Lemma decode_key_record (input : raw_frame_t)
    (n : Z) (stack : frame_t) (previous : option raw_frame_t) :
  raw_frame_ok input ->
  decode_and_display_frame
    (set_frame_number
       (fill_output stack (raw_width input) (raw_height input)
          (raw_channels input) 0 (lz_encode (pixels input))) n)
    previous
  = Success input.
Proof.
  intros Hok. unfold decode_and_display_frame.
  cbn [set_frame_number fill_output header compression_type].
  change (0 =? 0) with true. cbv iota.
  apply decompress_frame_raw_ok; try assumption; reflexivity.
Qed.

(** The record of a frame that jumps out of the signed range: a DELTA
    record, from which the decoder reconstructs another frame. *)
Lemma delta_frame_out_of_range (current previous : raw_frame_t)
    (n : Z) (stack : frame_t) :
  raw_frame_ok current -> raw_frame_ok previous ->
  same_dims current previous -> delta_fits previous current ->
  ~ in_delta_range (pixels previous) (pixels current) ->
  exists r decoded,
    encode_frame_to_commit current (Some previous) n stack
    = Success (r, serialize_frame r)
    /\ compression_type (header r) = 1
    /\ decode_and_display_frame r (Some previous) = Success decoded
    /\ pixels decoded <> pixels current.
Proof.
  intros Hcur Hprev Hdims (stream & Hstream & Hfit) Hout.
  do 2 eexists.
  split; [apply (encode_frame_delta_ok _ _ _ _ stream); assumption|].
  split; [reflexivity|].
  split; [apply (decode_delta_record _ _ _ _ stream); assumption|].
  cbn [pixels]. intros Heq. apply Hout.
  pose proof Hcur as (_ & _ & _ & _ & Hlc & Hcb).
  pose proof Hprev as (_ & _ & _ & _ & Hlp & Hpb).
  destruct Hdims as (Hw & Hh & Hc).
  apply decoded_eq_in_range; try assumption.
  rewrite Hlc, Hlp, Hw, Hh, Hc. reflexivity.
Qed.

(** C2: no RAW fallback: for every well-formed frame with a well-formed
    predecessor of the same dimensions whose run-length stream fits the delta
    buffer, if some byte-wise difference falls outside [-128, 127] the
    encoder still emits the frame in DELTA mode ([compression_type] 1), not
    in RAW mode. *)
Theorem encoder_emits_delta_out_of_range (current previous : raw_frame_t)
    (n : Z) (stack : frame_t) :
  raw_frame_ok current -> raw_frame_ok previous ->
  same_dims current previous -> delta_fits previous current ->
  ~ in_delta_range (pixels previous) (pixels current) ->
  exists r,
    encode_frame_to_commit current (Some previous) n stack
    = Success (r, serialize_frame r)
    /\ compression_type (header r) = 1.
Proof.
  intros Hcur Hprev Hdims (stream & Hstream & Hfit) _.
  eexists.
  split; [apply (encode_frame_delta_ok _ _ _ _ stream); assumption|].
  reflexivity.
Qed.

End Chain.
(** ** Totality and memory safety of the replay loop *)

Lemma apply_deltas_invariant (delta_buffer : list Z) (N : nat) :
  forall remaining st,
    let st' := apply_deltas remaining delta_buffer N st in
    (delta_pos st <= delta_pos st')%nat
    /\ (Forall (fun idx => (idx < N)%nat) (stores st) ->
        Forall (fun idx => (idx < N)%nat) (stores st'))
    /\ length (out_pixels st') = length (out_pixels st).
Proof.
  induction remaining as [|remaining IH]; intros st; cbn [apply_deltas].
  - repeat split; auto.
  - destruct (Nat.ltb_spec (pixel_pos st) N) as [Hp|Hp]; cbn [andb];
      [|repeat split; auto].
    destruct (Nat.ltb_spec (delta_pos st) (length delta_buffer)) as [Hd|Hd];
      [|repeat split; auto].
    match goal with |- context [apply_deltas remaining _ _ ?s] =>
      specialize (IH s); cbv zeta in IH; cbn [delta_pos stores out_pixels] in IH;
      destruct IH as (Hpos & Hst & Hlen)
    end.
    repeat split.
    + lia.
    + intros Hall. apply Hst. constructor; assumption.
    + rewrite Hlen. apply length_insert.
Qed.

Lemma replay_loop_total (delta_buffer : list Z) (N : nat) :
  forall fuel st,
    (length delta_buffer - delta_pos st <= fuel)%nat ->
    Forall (fun idx => (idx < N)%nat) (stores st) ->
    exists st',
      replay_loop fuel delta_buffer N st = Some st'
      /\ Forall (fun idx => (idx < N)%nat) (stores st')
      /\ length (out_pixels st') = length (out_pixels st).
Proof.
  induction fuel as [|fuel IH]; intros st Hfuel Hstores; cbn [replay_loop].
  - replace (delta_pos st <? length delta_buffer)%nat with false
      by (symmetry; apply Nat.ltb_ge; lia).
    cbn [andb]. eauto.
  - destruct (Nat.ltb_spec (delta_pos st) (length delta_buffer)) as [Hd|Hd];
      cbn [andb]; [|eauto].
    destruct (pixel_pos st <? N)%nat; [|eauto].
    destruct (Nat.leb_spec (length delta_buffer) (S (delta_pos st))) as [He|He].
    { eexists. split; [reflexivity|]. cbn [stores out_pixels]. auto. }
    destruct (delta_buffer !!! delta_pos st =? 0).
    { match goal with |- context [replay_loop fuel _ _ ?s] =>
        destruct (IH s) as (st' & Hrun & Hall & Hlen')
      end; [cbn [delta_pos]; lia|assumption|].
      exists st'. auto. }
    destruct (delta_buffer !!! delta_pos st =? 1).
    2:{ match goal with |- context [replay_loop fuel _ _ ?s] =>
          destruct (IH s) as (st' & Hrun & Hall & Hlen')
        end; [cbn [delta_pos]; lia|assumption|].
        exists st'. auto. }
    match goal with |- context [apply_deltas ?n _ _ ?s] =>
      destruct (apply_deltas_invariant delta_buffer N n s) as (Hpos & Hst & Hlen)
    end.
    cbn [delta_pos stores out_pixels] in Hpos, Hst, Hlen.
    match goal with |- context [replay_loop fuel _ _ ?s] =>
      destruct (IH s) as (st' & Hrun & Hall & Hlen')
    end; [lia|auto|].
    exists st'. split; [exact Hrun|]. split; [exact Hall|].
    rewrite Hlen'. exact Hlen.
Qed.

Lemma pixel_count_le (w h c : Z) :
  0 <= w -> 0 <= h -> 0 <= c -> Z.of_nat (pixel_count_of w h c) <= w * h * c.
Proof.
  intros Hw Hh Hc. unfold pixel_count_of, u32.
  assert (0 <= w * h * c) by nia.
  pose proof (Z.mod_pos_bound (w * h * c) (2 ^ 32) ltac:(lia)).
  rewrite Z2Nat.id by lia. apply Z.mod_le; lia.
Qed.

(** C10: totality and in-bounds stores of the delta decoder: for every
    command buffer of arbitrary contents and length and every predecessor
    buffer of at least [width * height * channels] bytes (as the header
    states them), the replay loop of [decompress_frame_delta] finishes
    within [delta_size] iterations, and every store into the output pixel
    buffer is at an index below [width * height * channels] and inside the
    buffer. *)
Theorem replay_total_in_bounds (delta_buffer previous : list Z) (w h c : Z) :
  0 <= w -> 0 <= h -> 0 <= c ->
  w * h * c <= Z.of_nat (length previous) ->
  exists st,
    replay delta_buffer (pixel_count_of w h c)
      (take (pixel_count_of w h c) previous) = Some st
    /\ Forall (fun idx => Z.of_nat idx < w * h * c
                          /\ (idx < length (out_pixels st))%nat) (stores st).
Proof.
  intros Hw Hh Hc Hprev. unfold replay.
  pose proof (pixel_count_le w h c Hw Hh Hc).
  destruct (replay_loop_total delta_buffer (pixel_count_of w h c)
              (length delta_buffer)
              {| delta_pos := 0; pixel_pos := 0;
                 out_pixels := take (pixel_count_of w h c) previous;
                 stores := [] |})
    as (st & Hrun & Hall & Hlen); cbn [delta_pos stores]; [lia|constructor|].
  exists st. split; [exact Hrun|].
  cbn [out_pixels] in Hlen. rewrite length_take in Hlen.
  eapply Forall_impl; [exact Hall|]. cbv beta. intros idx Hidx. lia.
Qed.

Lemma replay_total_in_bounds_witness :
  0 <= 1 /\ 0 <= 1 /\ 0 <= 3
  /\ 1 * 1 * 3 <= Z.of_nat (length [10; 20; 30; 40])
  /\ exists st,
       replay [1; 200; 7; 9; 0] (pixel_count_of 1 1 3)
         (take (pixel_count_of 1 1 3) [10; 20; 30; 40]) = Some st
       /\ Forall (fun idx => Z.of_nat idx < 1 * 1 * 3
                             /\ (idx < length (out_pixels st))%nat) (stores st).
Proof.
  split; [lia|]. split; [lia|]. split; [lia|].
  split; [simpl; lia|].
  apply (replay_total_in_bounds [1; 200; 7; 9; 0] [10; 20; 30; 40] 1 1 3);
    try lia.
  simpl. lia.
Defined.

(** Neither codec runs out of iterations. *)
Lemma compress_frame_delta_finishes (coder : EntropyCoder)
    (current previous : raw_frame_t) (output : frame_t) :
  @compress_frame_delta coder current previous output <> OutOfFuel.
Proof.
  unfold compress_frame_delta.
  destruct (_ || _ || _); [discriminate|].
  destruct (_ || _); [discriminate|].
  match goal with |- context [delta_transform ?cur ?prev ?n] =>
    destruct (delta_transform_total cur prev n) as [stream ->]
  end.
  destruct (_ <? _)%nat; [discriminate|].
  destruct (_ =? _)%nat; discriminate.
Qed.

Lemma decompress_frame_delta_finishes (coder : EntropyCoder)
    (compressed : frame_t) (previous : raw_frame_t) :
  @decompress_frame_delta coder compressed previous <> OutOfFuel.
Proof.
  unfold decompress_frame_delta, replay.
  destruct (_ =? _)%nat; [discriminate|].
  destruct (_ <? _)%nat; [discriminate|].
  match goal with |- context [replay_loop ?fuel ?buf ?n ?st] =>
    destruct (replay_loop_total buf n fuel st) as (st' & -> & _)
  end; [cbn [delta_pos]; lia|constructor|discriminate].
Qed.

(** ** Well-formed sample frames *)

Lemma pixel_frame_ok (r g b : Z) :
  byte_ok r -> byte_ok g -> byte_ok b -> raw_frame_ok (pixel_frame r g b).
Proof.
  intros Hr Hg Hb. unfold raw_frame_ok, pixel_frame; cbn.
  repeat (split; [lia|]).
  unfold bytes_ok. repeat (constructor; [assumption|]). constructor.
Defined.

Lemma byte_ok_literal (b : Z) : (0 <=? b) && (b <? 256) = true -> byte_ok b.
Proof. unfold byte_ok. intros Hb. apply andb_true_iff in Hb. lia. Defined.

Lemma repeat_bytes_ok (value : Z) (n : nat) :
  byte_ok value -> bytes_ok (repeat value n).
Proof.
  intros Hv. apply Forall_forall. intros x Hx. apply list_elem_of_In in Hx.
  apply repeat_spec in Hx. subst x. exact Hv.
Qed.

Lemma uniform_frame_ok (w h c value : Z) :
  0 < w -> 0 < h -> 0 < c -> w * h * c * 2 < 2 ^ 32 -> byte_ok value ->
  raw_frame_ok (uniform_frame w h c value).
Proof.
  intros Hw Hh Hc Hsz Hv. unfold raw_frame_ok, uniform_frame.
  cbn [pixels raw_width raw_height raw_channels].
  repeat (split; [lia|]). split; [apply repeat_length|].
  apply repeat_bytes_ok. exact Hv.
Qed.

Lemma in_delta_range_same (l : list Z) : in_delta_range l l.
Proof. induction l; constructor; [lia|assumption]. Qed.

(** ** Frames that differ in every byte *)

Lemma repeat_lookup_total (value : Z) (n i : nat) :
  (i < n)%nat -> repeat value n !!! i = value.
Proof.
  revert i. induction n as [|n IH]; intros i Hi; [lia|]. cbn [repeat].
  destruct i; [reflexivity|]. cbn [lookup_total list_lookup_total].
  apply IH. lia.
Qed.

Section AllDiffer.
Context (cur prev : list Z) (N : nat).
Context (Hdiffer : forall j, (j < N)%nat -> cur !!! j <> prev !!! j).

Lemma diff_run_scan_all_differ :
  forall budget i run,
    (i + run <= N)%nat ->
    diff_run_scan budget cur prev N i run
    = (run + budget `min` (N - (i + run)))%nat.
Proof.
  induction budget as [|budget IH]; intros i run Hle; cbn [diff_run_scan].
  - lia.
  - destruct (Nat.ltb_spec (i + run) N) as [Hlt|Hge]; cbn [andb]; [|lia].
    pose proof (Hdiffer (i + run)%nat Hlt) as Hne.
    apply Z.eqb_neq in Hne. rewrite Hne. cbn [negb].
    rewrite IH by lia. lia.
Qed.

(** Each command carries up to 255 bytes and costs two more. *)
Lemma all_differ_stream_length :
  forall fuel i acc stream,
    (i <= N)%nat ->
    delta_loop fuel cur prev N i acc = Some stream ->
    (length stream
     <= length acc + (N - i) + 2 * ((N - i + 254) / 255))%nat.
Proof.
  induction fuel as [|fuel IH]; intros i acc stream Hi; cbn [delta_loop].
  - destruct (i <? N)%nat; [discriminate|]. intros [= <-]. lia.
  - destruct (Nat.ltb_spec i N) as [Hlt|Hge]; [|intros [= <-]; lia].
    rewrite identical_run_scan_stop.
    2:{ rewrite Nat.add_0_r. pose proof (Hdiffer i Hlt) as Hne.
        apply Z.eqb_neq in Hne. rewrite Hne. apply andb_false_r. }
    change (0 <? 0)%nat with false. cbv iota.
    rewrite diff_run_scan_all_differ by lia.
    rewrite Nat.add_0_r, Nat.add_0_l.
    set (d := (255 `min` (N - i))%nat).
    assert (Hd : (1 <= d <= 255)%nat /\ (d <= N - i)%nat) by (subst d; lia).
    replace (0 <? d)%nat with true by (symmetry; apply Nat.ltb_lt; lia).
    intros Hloop. apply IH in Hloop; [|lia].
    rewrite !length_app, delta_values_length in Hloop. cbn [length] in Hloop.
    pose proof (Nat.div_mod_eq (N - i + 254) 255) as Hq.
    pose proof (Nat.mod_upper_bound (N - i + 254) 255 ltac:(lia)) as Hr.
    pose proof (Nat.div_mod_eq (N - (i + d) + 254) 255) as Hq'.
    pose proof (Nat.mod_upper_bound (N - (i + d) + 254) 255 ltac:(lia)) as Hr'.
    assert (((N - (i + d) + 254) / 255 + 1 <= (N - i + 254) / 255)%nat).
    { destruct (decide (d = 255%nat)) as [->|Hsmall]; [lia|].
      assert (d = (N - i)%nat) by (subst d; lia). lia. }
    lia.
Qed.

End AllDiffer.

Lemma uniform_pair_fits (w h c a b : Z) :
  a <> b -> 2 <= w * h * c ->
  delta_fits (uniform_frame w h c b) (uniform_frame w h c a).
Proof.
  intros Hab Hn. unfold delta_fits, uniform_frame. cbn [pixels].
  rewrite repeat_length.
  set (n := Z.to_nat (w * h * c)).
  assert (2 <= n)%nat by lia. clearbody n.
  destruct (delta_transform_total (repeat a n) (repeat b n) n) as [stream Hs].
  exists stream. split; [exact Hs|].
  apply all_differ_stream_length in Hs; [|intros j Hj|lia].
  2:{ rewrite !repeat_lookup_total by lia. exact Hab. }
  cbn [length] in Hs. rewrite Nat.sub_0_r in Hs.
  pose proof (Nat.div_mod_eq (n + 254) 255) as Hq.
  pose proof (Nat.mod_upper_bound (n + 254) 255 ltac:(lia)) as Hr.
  lia.
Qed.

Lemma uniform_pair_out_of_range (w h c a b : Z) :
  1 <= w * h * c -> ~ (-128 <= a - b <= 127) ->
  ~ in_delta_range (pixels (uniform_frame w h c b))
      (pixels (uniform_frame w h c a)).
Proof.
  intros Hn Hout. unfold uniform_frame. cbn [pixels].
  destruct (Z.to_nat (w * h * c)) as [|n] eqn:En; [lia|].
  cbn [repeat]. intros Hr. inversion Hr; subst. contradiction.
Qed.

Lemma zip_with_repeat {A B C : Type} (f : A -> B -> C) (a : A) (b : B)
    (n : nat) :
  zip_with f (repeat a n) (repeat b n) = repeat (f a b) n.
Proof. induction n as [|n IH]; [reflexivity|]. cbn. rewrite IH. reflexivity. Qed.

(** The chain of a frame of value [b] followed by a frame of value [a], at
    any frame size: the records of the two commits and what the player
    decodes from them. *)
Lemma uniform_jump_decodes (coder : EntropyCoder) (w h c a b : Z)
    (stack : frame_t) :
  0 < w -> 0 < h -> 0 < c -> 2 <= w * h * c -> w * h * c * 2 < 2 ^ 32 ->
  byte_ok a -> byte_ok b -> a <> b ->
  exists r0 r1,
    @encode_frame_to_commit coder (uniform_frame w h c b) None 0 stack
    = Success (r0, serialize_frame r0)
    /\ @encode_frame_to_commit coder (uniform_frame w h c a)
         (Some (uniform_frame w h c b)) 1 stack
       = Success (r1, serialize_frame r1)
    /\ compression_type (header r0) = 0
    /\ compression_type (header r1) = 1
    /\ @decode_and_display_frame coder r0 None
       = Success (uniform_frame w h c b)
    /\ @decode_and_display_frame coder r1 (Some (uniform_frame w h c b))
       = Success (uniform_frame w h c (delta_decoded_byte b a)).
Proof.
  intros Hw Hh Hc Hn Hsz Ha Hb Hab.
  pose proof (uniform_frame_ok w h c a Hw Hh Hc Hsz Ha) as Hcur.
  pose proof (uniform_frame_ok w h c b Hw Hh Hc Hsz Hb) as Hprev.
  assert (Hdims : same_dims (uniform_frame w h c a) (uniform_frame w h c b))
    by (repeat split).
  destruct (uniform_pair_fits w h c a b Hab Hn) as (stream & Hstream & Hfit).
  do 2 eexists.
  split; [apply (@encode_frame_key_ok coder); exact Hprev|].
  split; [apply (@encode_frame_delta_ok coder _ _ _ _ stream); assumption|].
  split; [reflexivity|]. split; [reflexivity|].
  split; [apply (@decode_key_record coder); exact Hprev|].
  rewrite (@decode_delta_record coder _ _ _ _ stream) by assumption.
  unfold uniform_frame. cbn [pixels raw_width raw_height raw_channels].
  rewrite zip_with_repeat. reflexivity.
Qed.

Lemma black_is_not_bright : black_frame <> bright_frame.
Proof.
  intros Heq. apply (f_equal pixels) in Heq.
  unfold black_frame, bright_frame, uniform_frame in Heq.
  cbn [pixels] in Heq.
  destruct (Z.to_nat (FRAME_WIDTH * FRAME_HEIGHT * FRAME_CHANNELS))
    as [|n] eqn:En.
  - unfold FRAME_WIDTH, FRAME_HEIGHT, FRAME_CHANNELS in En. lia.
  - cbn [repeat] in Heq. discriminate Heq.
Qed.

(** C1: drift-free chain: the chain of a black frame followed by a frame
    of value 200, both of the configured dimensions, is encoded as a RAW
    record and a DELTA record, whatever the entropy coder; decoding the
    records in order, frame 1 against the decoded frame 0, gives the black
    frame twice, so the frame at index 1 is not the input frame. *)
Theorem jump_drifts_at_configured_size (coder : EntropyCoder)
    (stack : frame_t) :
  exists r0 r1,
    @encode_frame_to_commit coder black_frame None 0 stack
    = Success (r0, serialize_frame r0)
    /\ @encode_frame_to_commit coder bright_frame (Some black_frame) 1 stack
       = Success (r1, serialize_frame r1)
    /\ compression_type (header r0) = 0
    /\ compression_type (header r1) = 1
    /\ @decode_and_display_frame coder r0 None = Success black_frame
    /\ @decode_and_display_frame coder r1 (Some black_frame)
       = Success black_frame
    /\ black_frame <> bright_frame.
Proof.
  assert (Ha : byte_ok 200) by (apply byte_ok_literal; reflexivity).
  assert (Hb : byte_ok 0) by (apply byte_ok_literal; reflexivity).
  destruct (uniform_jump_decodes coder FRAME_WIDTH FRAME_HEIGHT FRAME_CHANNELS
              200 0 stack eq_refl eq_refl eq_refl ltac:(discriminate) eq_refl
              Ha Hb ltac:(discriminate))
    as (r0 & r1 & H0 & H1 & Ht0 & Ht1 & Hd0 & Hd1).
  change (delta_decoded_byte 0 200) with 0 in Hd1.
  exists r0, r1. unfold black_frame, bright_frame.
  split; [exact H0|]. split; [exact H1|]. split; [exact Ht0|].
  split; [exact Ht1|]. split; [exact Hd0|]. split; [exact Hd1|].
  exact black_is_not_bright.
Qed.

(** ** Frames with isolated changes *)

Lemma stripes_length (k : nat) : length (stripes k) = (2 * k)%nat.
Proof. induction k as [|k IH]; cbn [stripes length]; lia. Qed.

Lemma stripes_even (k j : nat) : (j < k)%nat -> stripes k !!! (2 * j)%nat = 1.
Proof.
  revert j. induction k as [|k IH]; intros j Hj; [lia|].
  destruct j as [|j]; [reflexivity|].
  replace (2 * S j)%nat with (S (S (2 * j))) by lia.
  cbn [stripes lookup_total list_lookup_total]. apply IH. lia.
Qed.

Lemma stripes_odd (k j : nat) :
  (j < k)%nat -> stripes k !!! (2 * j + 1)%nat = 0.
Proof.
  revert j. induction k as [|k IH]; intros j Hj; [lia|].
  destruct j as [|j]; [reflexivity|].
  replace (2 * S j + 1)%nat with (S (S (2 * j + 1))) by lia.
  cbn [stripes lookup_total list_lookup_total]. apply IH. lia.
Qed.

Lemma striped_stream_length (k : nat) : length (striped_stream k) = (5 * k)%nat.
Proof. induction k as [|k IH]; cbn [striped_stream length app]; lia. Qed.

(** From an even index on, every pair of bytes costs five bytes of
    stream. *)
Lemma striped_delta_loop (k : nat) :
  forall m j fuel acc,
    (j + m = k)%nat -> (2 * m <= fuel)%nat ->
    delta_loop fuel (stripes k) (repeat 0 (2 * k)) (2 * k) (2 * j) acc
    = Some (acc ++ striped_stream m).
Proof.
  induction m as [|m IH]; intros j fuel acc Hj Hfuel.
  - assert (j = k) by lia. subst j.
    destruct fuel; cbn [delta_loop]; rewrite Nat.ltb_irrefl, app_nil_r;
      reflexivity.
  - destruct fuel as [|[|fuel]]; [lia..|].
    assert (Hlt : (2 * j <? 2 * k)%nat = true) by (apply Nat.ltb_lt; lia).
    assert (Hlt1 : (2 * j + 1 <? 2 * k)%nat = true) by (apply Nat.ltb_lt; lia).
    (* first iteration: a differing run of one byte *)
    cbn [delta_loop]. rewrite Hlt.
    rewrite identical_run_scan_stop.
    2:{ rewrite Nat.add_0_r, stripes_even, repeat_lookup_total by lia.
        apply andb_false_r. }
    change (0 <? 0)%nat with false. cbv iota.
    replace (diff_run_scan 255 (stripes k) (repeat 0 (2 * k)) (2 * k) (2 * j) 0)
      with 1%nat.
    2:{ rewrite (diff_run_scan_step 254).
        2:{ rewrite Nat.add_0_r, Hlt, stripes_even, repeat_lookup_total by lia.
            reflexivity. }
        rewrite diff_run_scan_stop; [reflexivity|].
        rewrite stripes_odd, repeat_lookup_total by lia. apply andb_false_r. }
    change (0 <? 1)%nat with true. cbv iota.
    unfold delta_values. cbn [seq map].
    rewrite Nat.add_0_r, stripes_even, repeat_lookup_total by lia.
    change (Z.land (1 - 0) 255) with 1. change (u8 (Z.of_nat 1)) with 1.
    (* second iteration: an identical run of one byte *)
    cbn [delta_loop]. rewrite Hlt1.
    replace (identical_run_scan 255 (stripes k) (repeat 0 (2 * k)) (2 * k)
               (2 * j + 1) 0) with 1%nat.
    2:{ rewrite (identical_run_scan_step 254).
        2:{ rewrite Nat.add_0_r, Hlt1, stripes_odd, repeat_lookup_total by lia.
            reflexivity. }
        rewrite identical_run_scan_stop; [reflexivity|].
        replace (2 * j + 1 + 1)%nat with (2 * S j)%nat by lia.
        destruct (decide (S j < k)%nat) as [Hin|Hout].
        - rewrite stripes_even, repeat_lookup_total by lia. apply andb_false_r.
        - replace (2 * S j <? 2 * k)%nat with false
            by (symmetry; apply Nat.ltb_ge; lia).
          reflexivity. }
    change (0 <? 1)%nat with true. cbv iota.
    change (u8 (Z.of_nat 1)) with 1.
    replace (2 * j + 1 + 1)%nat with (2 * S j)%nat by lia.
    rewrite (IH (S j) fuel) by lia.
    f_equal. cbn [striped_stream]. rewrite <- !app_assoc. reflexivity.
Qed.

Lemma striped_delta_transform (k : nat) :
  delta_transform (stripes k) (repeat 0 (2 * k)) (2 * k)
  = Some (striped_stream k).
Proof.
  unfold delta_transform.
  change 0%nat with (2 * 0)%nat at 3.
  rewrite (striped_delta_loop k k 0) by lia. reflexivity.
Qed.

Lemma stripes_bytes_ok (k : nat) : bytes_ok (stripes k).
Proof.
  induction k as [|k IH]; cbn [stripes]; [constructor|].
  constructor; [unfold byte_ok; lia|]. constructor; [unfold byte_ok; lia|].
  exact IH.
Qed.

Lemma stripes_in_range (k : nat) :
  in_delta_range (repeat 0 (2 * k)) (stripes k).
Proof.
  induction k as [|k IH]; [constructor|].
  replace (2 * S k)%nat with (S (S (2 * k))) by lia.
  cbn [repeat stripes]. constructor; [lia|]. constructor; [lia|]. exact IH.
Qed.


Lemma striped_frame_ok (w h c : Z) :
  0 < w -> 0 < h -> 0 < c -> (w * h * c) mod 2 = 0 ->
  w * h * c * 2 < 2 ^ 32 ->
  raw_frame_ok (striped_frame w h c).
Proof.
  intros Hw Hh Hc Heven Hsz. unfold raw_frame_ok, striped_frame.
  cbn [pixels raw_width raw_height raw_channels].
  repeat (split; [lia|]). split; [|apply stripes_bytes_ok].
  rewrite stripes_length.
  pose proof (Z.div_mod (w * h * c) 2 ltac:(lia)). nia.
Qed.

Lemma striped_pair_in_range (w h c : Z) :
  0 <= w * h * c -> (w * h * c) mod 2 = 0 ->
  in_delta_range (pixels (uniform_frame w h c 0))
    (pixels (striped_frame w h c)).
Proof.
  intros Hn Heven. unfold uniform_frame, striped_frame. cbn [pixels].
  replace (Z.to_nat (w * h * c))
    with (2 * Z.to_nat (w * h * c / 2))%nat
    by (pose proof (Z.div_mod (w * h * c) 2 ltac:(lia)); lia).
  apply stripes_in_range.
Qed.

(** A frame alternating 1 and 0 against the all-zero frame, at any even
    size: the stream overruns the delta buffer. *)
Lemma striped_pair_overflows (coder : EntropyCoder) (w h c : Z)
    (stack : frame_t) :
  0 < w * h * c -> (w * h * c) mod 2 = 0 -> w * h * c < 2 ^ 32 ->
  @compress_frame_delta coder (striped_frame w h c) (uniform_frame w h c 0)
    stack
  = OutOfBounds.
Proof.
  intros Hn Heven Hsz. unfold compress_frame_delta, striped_frame, uniform_frame.
  cbn [raw_width raw_height raw_channels pixels].
  rewrite !Z.eqb_refl. cbn [negb orb].
  set (k := Z.to_nat (w * h * c / 2)).
  assert (Hk : (0 < k)%nat /\ Z.to_nat (w * h * c) = (2 * k)%nat).
  { subst k. pose proof (Z.div_mod (w * h * c) 2 ltac:(lia)). lia. }
  destruct Hk as [Hk Hnk].
  assert (Hpc : pixel_count_of w h c = (2 * k)%nat).
  { unfold pixel_count_of, u32. rewrite Z.mod_small by lia. exact Hnk. }
  rewrite Hpc, Hnk. clearbody k.
  rewrite stripes_length, repeat_length, Nat.ltb_irrefl. cbn [orb].
  rewrite striped_delta_transform, striped_stream_length.
  replace (2 * k * 2 <? 5 * k)%nat with true
    by (symmetry; apply Nat.ltb_lt; lia).
  reflexivity.
Qed.

(** ** The properties on sample frames *)

Lemma steady_frames_ok : Forall raw_frame_ok steady_frames.
Proof.
  repeat (constructor;
          [apply pixel_frame_ok; apply byte_ok_literal; reflexivity|]).
  constructor.
Defined.

Lemma steady_frames_exact : consecutive delta_exact steady_frames.
Proof.
  cbn. split; [|exact I]. split; [repeat split|].
  split; [repeat constructor; lia|].
  exists [1; 3; 2; 1; 255]. split; [vm_compute; reflexivity|cbn; lia].
Defined.

Lemma jump_out_of_range :
  ~ in_delta_range (pixels (pixel_frame 0 0 0)) (pixels (pixel_frame 200 200 200)).
Proof. intros Hr. inversion Hr; subst. lia. Defined.

Lemma jump_fits : delta_fits (pixel_frame 0 0 0) (pixel_frame 200 200 200).
Proof.
  exists [1; 3; 200; 200; 200]. split; [vm_compute; reflexivity|cbn; lia].
Defined.

(** Counterexample to C2 as stated, a black pixel followed by a bright
    one: a difference of 200 is
    outside the signed range, and the record is not a RAW record of the
    frame. *)
Lemma raw_fallback_counterexample :
  ~ in_delta_range (pixels (pixel_frame 0 0 0))
      (pixels (pixel_frame 200 200 200))
  /\ ~ exists r blob,
         @encode_frame_to_commit stored_coder (pixel_frame 200 200 200)
           (Some (pixel_frame 0 0 0)) 1 zero_frame = Success (r, blob)
         /\ compression_type (header r) = 0
         /\ @decompress_frame_raw stored_coder r
            = Success (pixel_frame 200 200 200).
Proof.
  split; [exact jump_out_of_range|].
  intros (r & blob & Henc & Htype & _).
  vm_compute in Henc. injection Henc as <- _.
  discriminate Htype.
Qed.

Lemma encoder_emits_delta_out_of_range_witness :
  raw_frame_ok (pixel_frame 200 200 200) /\ raw_frame_ok (pixel_frame 0 0 0)
  /\ same_dims (pixel_frame 200 200 200) (pixel_frame 0 0 0)
  /\ delta_fits (pixel_frame 0 0 0) (pixel_frame 200 200 200)
  /\ ~ in_delta_range (pixels (pixel_frame 0 0 0))
         (pixels (pixel_frame 200 200 200))
  /\ exists r,
       @encode_frame_to_commit stored_coder (pixel_frame 200 200 200)
         (Some (pixel_frame 0 0 0)) 1 zero_frame
       = Success (r, serialize_frame r)
       /\ compression_type (header r) = 1.
Proof.
  assert (Hcur : raw_frame_ok (pixel_frame 200 200 200))
    by (apply pixel_frame_ok; apply byte_ok_literal; reflexivity).
  assert (Hprev : raw_frame_ok (pixel_frame 0 0 0))
    by (apply pixel_frame_ok; apply byte_ok_literal; reflexivity).
  assert (Hdims : same_dims (pixel_frame 200 200 200) (pixel_frame 0 0 0))
    by (repeat split).
  split; [exact Hcur|]. split; [exact Hprev|]. split; [exact Hdims|].
  split; [exact jump_fits|]. split; [exact jump_out_of_range|].
  apply (@encoder_emits_delta_out_of_range stored_coder
           (pixel_frame 200 200 200) (pixel_frame 0 0 0) 1 zero_frame
           Hcur Hprev Hdims jump_fits jump_out_of_range).
Defined.

(** C3: delta buffer bound: on the one-pixel frames [1; 0; 1] against
    [0; 0; 0] the run-length transform emits 8 bytes, more than the
    [2 * 3] the delta buffer holds, so [compress_frame_delta] stores past
    the end of the buffer, whatever the entropy coder; and so it does on the
    frame of the configured size whose bytes alternate 1 and 0, against the
    black frame. *)
Theorem delta_stream_exceeds_buffer :
  delta_transform [1; 0; 1] [0; 0; 0] 3 = Some [1; 1; 1; 0; 1; 1; 1; 1]
  /\ (2 * 3 < length [1; 1; 1; 0; 1; 1; 1; 1])%nat
  /\ forall (coder : EntropyCoder) (stack : frame_t),
       @compress_frame_delta coder (pixel_frame 1 0 1) (pixel_frame 0 0 0) stack
       = OutOfBounds
       /\ @compress_frame_delta coder
            (striped_frame FRAME_WIDTH FRAME_HEIGHT FRAME_CHANNELS)
            (uniform_frame FRAME_WIDTH FRAME_HEIGHT FRAME_CHANNELS 0) stack
          = OutOfBounds.
Proof.
  split; [vm_compute; reflexivity|]. split; [cbn; lia|].
  intros coder stack. split; [reflexivity|].
  apply striped_pair_overflows; reflexivity.
Qed.

(** The smallest instance: one differing byte costs three bytes. *)
Example delta_stream_single_byte :
  delta_transform [1] [0] 1 = Some [1; 1; 1].
Proof. vm_compute. reflexivity. Qed.

(** C4: DELTA identity: the pair [0; 0; 0], [1; 0; 1] has all its
    differences in the signed range, yet no DELTA record is produced for it
    because the stream overruns the delta buffer; and a record that carries
    the whole 8-byte stream is decoded to [1; 0; 0], not to the current
    frame, because the decoder's buffer receives only the first 6 bytes.
    The same overrun occurs at the configured size. *)
Theorem delta_identity_lost_on_overflow :
  raw_frame_ok (pixel_frame 1 0 1) /\ raw_frame_ok (pixel_frame 0 0 0)
  /\ same_dims (pixel_frame 1 0 1) (pixel_frame 0 0 0)
  /\ in_delta_range (pixels (pixel_frame 0 0 0)) (pixels (pixel_frame 1 0 1))
  /\ (forall (coder : EntropyCoder) (stack : frame_t),
        @compress_frame_delta coder (pixel_frame 1 0 1) (pixel_frame 0 0 0)
          stack = OutOfBounds)
  /\ @decompress_frame_delta stored_coder
       (fill_output zero_frame 1 1 3 1
          (stored_encode [1; 1; 1; 0; 1; 1; 1; 1]))
       (pixel_frame 0 0 0)
     = Success (pixel_frame 1 0 0)
  /\ raw_frame_ok (striped_frame FRAME_WIDTH FRAME_HEIGHT FRAME_CHANNELS)
  /\ raw_frame_ok (uniform_frame FRAME_WIDTH FRAME_HEIGHT FRAME_CHANNELS 0)
  /\ in_delta_range
       (pixels (uniform_frame FRAME_WIDTH FRAME_HEIGHT FRAME_CHANNELS 0))
       (pixels (striped_frame FRAME_WIDTH FRAME_HEIGHT FRAME_CHANNELS))
  /\ (forall (coder : EntropyCoder) (stack : frame_t),
        @compress_frame_delta coder
          (striped_frame FRAME_WIDTH FRAME_HEIGHT FRAME_CHANNELS)
          (uniform_frame FRAME_WIDTH FRAME_HEIGHT FRAME_CHANNELS 0) stack
        = OutOfBounds).
Proof.
  split; [apply pixel_frame_ok; apply byte_ok_literal; reflexivity|].
  split; [apply pixel_frame_ok; apply byte_ok_literal; reflexivity|].
  split; [repeat split|].
  split; [repeat constructor; lia|].
  split; [intros coder stack; reflexivity|].
  split; [vm_compute; reflexivity|].
  split; [apply striped_frame_ok; reflexivity|].
  split; [apply uniform_frame_ok;
          first [reflexivity | apply byte_ok_literal; reflexivity]|].
  split; [apply striped_pair_in_range; [discriminate|reflexivity]|].
  intros coder stack. apply striped_pair_overflows; reflexivity.
Qed.

(** ** Predecessor dimensions *)

Section Predecessor.
Context `{EntropyCoder}.

Lemma compress_frame_delta_rejects_dims (current previous : raw_frame_t)
    (output : frame_t) :
  ~ same_dims current previous ->
  compress_frame_delta current previous output = Failure GVC_ERROR_FORMAT.
Proof.
  intros Hne. unfold compress_frame_delta.
  destruct (Z.eqb_spec (raw_width current) (raw_width previous)) as [Hw|];
    [|reflexivity].
  destruct (Z.eqb_spec (raw_height current) (raw_height previous)) as [Hh|];
    [|reflexivity].
  destruct (Z.eqb_spec (raw_channels current) (raw_channels previous)) as [Hc|];
    [|reflexivity].
  contradiction Hne. repeat split; assumption.
Qed.

(** The decoder reads the predecessor's bytes and nothing else of it. *)
Lemma decompress_frame_delta_dims_unread (compressed : frame_t)
    (previous : raw_frame_t) (w' h' c' : Z) :
  decompress_frame_delta compressed
    {| pixels := pixels previous;
       raw_width := w'; raw_height := h'; raw_channels := c' |}
  = decompress_frame_delta compressed previous.
Proof. reflexivity. Qed.

Lemma replay_total (delta_buffer : list Z) (N : nat) (copied : list Z) :
  exists st,
    replay delta_buffer N copied = Some st
    /\ length (out_pixels st) = length copied.
Proof.
  unfold replay.
  destruct (replay_loop_total delta_buffer N (length delta_buffer)
              {| delta_pos := 0; pixel_pos := 0; out_pixels := copied;
                 stores := [] |})
    as (st & Hrun & _ & Hlen).
  - cbn [delta_pos]. lia.
  - constructor.
  - exists st. split; assumption.
Qed.

(** C8: predecessor dimensions: [decompress_frame_delta] makes no check of
    them.  For every record and every predecessor whose (width, height,
    channels) differ from those of the record's header, the decoder does not
    reject the predecessor for its dimensions.  A payload that does not
    entropy-decode gives [GVC_ERROR_COMPRESSION].  Otherwise a predecessor
    that holds at least width * height * channels bytes (of the header)
    gives an output frame, of the header's dimensions and of that many
    bytes: the frame that the first width * height * channels bytes give
    under the header's dimensions; and a predecessor that holds fewer bytes
    is read past its end. *)
Theorem delta_decoder_accepts_mismatched_predecessor (compressed : frame_t)
    (previous : raw_frame_t) :
  (raw_width previous, raw_height previous, raw_channels previous)
  <> (width (header compressed), height (header compressed),
      channels (header compressed)) ->
  let hdr := header compressed in
  let pixel_count := pixel_count_of (width hdr) (height hdr) (channels hdr) in
  let delta_buffer :=
    compression_decode_buffer
      (Z.to_nat (u32 (width hdr * height hdr * channels hdr * 2)))
      (data compressed) in
  let matching :=
    {| pixels := take pixel_count (pixels previous);
       raw_width := width hdr; raw_height := height hdr;
       raw_channels := channels hdr |} in
  (delta_buffer = [] ->
   decompress_frame_delta compressed previous = Failure GVC_ERROR_COMPRESSION)
  /\ (delta_buffer <> [] ->
      (pixel_count <= length (pixels previous))%nat ->
      exists output,
        decompress_frame_delta compressed previous = Success output
        /\ decompress_frame_delta compressed matching = Success output
        /\ raw_width output = width hdr /\ raw_height output = height hdr
        /\ raw_channels output = channels hdr
        /\ length (pixels output) = pixel_count)
  /\ (delta_buffer <> [] ->
      (length (pixels previous) < pixel_count)%nat ->
      decompress_frame_delta compressed previous = OutOfBounds).
Proof.
  intros _ hdr pixel_count delta_buffer matching.
  unfold decompress_frame_delta. fold hdr. cbv zeta.
  fold delta_buffer. fold pixel_count.
  split; [|split].
  - intros ->. reflexivity.
  - intros Hne Hlen.
    destruct delta_buffer as [|d delta_buffer'] eqn:Hbuf; [contradiction|].
    cbn [length Nat.eqb].
    destruct (Nat.ltb_spec (length (pixels previous)) pixel_count) as [|_];
      [lia|].
    subst matching. cbn [pixels].
    rewrite length_take, Nat.min_l by lia. rewrite Nat.ltb_irrefl.
    rewrite take_take, Nat.min_id.
    destruct (replay_total (d :: delta_buffer') pixel_count
                (take pixel_count (pixels previous))) as (st & -> & Hst).
    eexists. split; [reflexivity|]. split; [reflexivity|].
    cbn [raw_width raw_height raw_channels pixels].
    repeat (split; [reflexivity|]).
    rewrite Hst, length_take. lia.
  - intros Hne Hlen.
    destruct delta_buffer as [|d delta_buffer'] eqn:Hbuf; [contradiction|].
    cbn [length Nat.eqb].
    destruct (Nat.ltb_spec (length (pixels previous)) pixel_count) as [_|];
      [reflexivity|lia].
Qed.

End Predecessor.

Lemma steady_pair_ok :
  raw_frame_ok (pixel_frame 12 21 29) /\ raw_frame_ok (pixel_frame 10 20 30)
  /\ delta_exact (pixel_frame 10 20 30) (pixel_frame 12 21 29).
Proof.
  split; [apply pixel_frame_ok; apply byte_ok_literal; reflexivity|].
  split; [apply pixel_frame_ok; apply byte_ok_literal; reflexivity|].
  exact (proj1 steady_frames_exact).
Defined.

Lemma delta_decoder_accepts_mismatched_predecessor_witness :
  (raw_width wide_frame, raw_height wide_frame, raw_channels wide_frame)
  <> (width (header run_record), height (header run_record),
      channels (header run_record))
  /\ @decompress_frame_delta stored_coder run_record wide_frame
     = Success (pixel_frame 10 20 30)
  /\ @decompress_frame_delta stored_coder run_record (pixel_frame 10 20 30)
     = Success (pixel_frame 10 20 30).
Proof.
  assert (Hne : (raw_width wide_frame, raw_height wide_frame,
                 raw_channels wide_frame)
                <> (width (header run_record), height (header run_record),
                    channels (header run_record))) by discriminate.
  split; [exact Hne|].
  destruct (@delta_decoder_accepts_mismatched_predecessor stored_coder
              run_record wide_frame Hne) as (_ & Hdecodes & _).
  specialize (Hdecodes ltac:(discriminate) ltac:(vm_compute; lia)).
  destruct Hdecodes as (output & Hwide & Hmatching & _).
  rewrite Hwide, <- Hmatching. split; reflexivity.
Defined.

(** Counterexample to C8 as stated: a DELTA record decoded against a
    predecessor of other dimensions is not rejected. *)
Lemma predecessor_check_counterexample :
  exists r,
    @compress_frame_delta stored_coder (pixel_frame 12 21 29)
      (pixel_frame 10 20 30) zero_frame = Success r
    /\ compression_type (header r) = 1
    /\ (raw_width (row_frame 10 20 30), raw_height (row_frame 10 20 30),
        raw_channels (row_frame 10 20 30))
       <> (width (header r), height (header r), channels (header r))
    /\ ~ exists code,
           @decompress_frame_delta stored_coder r (row_frame 10 20 30)
           = Failure code.
Proof.
  eexists. split; [vm_compute; reflexivity|].
  split; [reflexivity|]. split; [discriminate|].
  intros (code & Hcode). vm_compute in Hcode. discriminate Hcode.
Qed.

(** ** Identical frames *)

Lemma gray_frame_ok : raw_frame_ok gray_frame.
Proof.
  apply uniform_frame_ok; try lia. apply byte_ok_literal. reflexivity.
Qed.

Lemma gray_stream :
  delta_transform (pixels gray_frame) (pixels gray_frame)
    (length (pixels gray_frame)) = Some [0; 192].
Proof. vm_compute. reflexivity. Qed.

(** C9: identical frames: encoding two identical 8 x 8 x 3 frames of
    value 0x80, frame 0 without predecessor and frame 1 against frame 0,
    produces a RAW record and then a DELTA record whose payload
    entropy-decodes to the single command (0x00, 192), one identical run over
    all 192 bytes; decoding that record against frame 0 gives frame 0. *)
Theorem identical_frames_single_run (coder : EntropyCoder) (stack : frame_t) :
  exists r0 r1,
    @encode_frame_to_commit coder gray_frame None 0 stack
    = Success (r0, serialize_frame r0)
    /\ @encode_frame_to_commit coder gray_frame (Some gray_frame) 1 stack
       = Success (r1, serialize_frame r1)
    /\ compression_type (header r0) = 0
    /\ compression_type (header r1) = 1
    /\ lz_decode (data r1) = Some [0x00; 192]
    /\ @decompress_frame_delta coder r1 gray_frame = Success gray_frame.
Proof.
  pose proof gray_frame_ok as Hok. pose proof gray_stream as Hstream.
  assert (Hfit : (length [0; 192] <= 2 * length (pixels gray_frame))%nat)
    by (vm_compute; lia).
  assert (Hdims : same_dims gray_frame gray_frame) by (repeat split).
  do 2 eexists.
  split; [apply (@encode_frame_key_ok coder); exact Hok|].
  split; [apply (@encode_frame_delta_ok coder _ _ _ _ [0; 192]); assumption|].
  split; [reflexivity|]. split; [reflexivity|].
  split; [apply lz_decode_encode|].
  cbn [set_frame_number].
  rewrite (@decompress_frame_delta_ok coder _ gray_frame gray_frame [0; 192])
    by (try assumption; reflexivity).
  destruct Hok as (_ & _ & _ & _ & _ & Hb).
  rewrite decoded_in_range by (try assumption; apply in_delta_range_same).
  reflexivity.
Qed.

(** Counterexample to C9 as stated: the command stream of the second
    frame is not three 64-byte runs. *)
Lemma identical_frames_counterexample :
  ~ exists r0 r1 blob0 blob1,
      @encode_frame_to_commit stored_coder gray_frame None 0 zero_frame
      = Success (r0, blob0)
      /\ @encode_frame_to_commit stored_coder gray_frame (Some gray_frame) 1
           zero_frame = Success (r1, blob1)
      /\ compression_type (header r1) = 1
      /\ stored_decode (data r1) = Some [0x00; 64; 0x00; 64; 0x00; 64]
      /\ @decompress_frame_delta stored_coder r1 gray_frame
         = Success gray_frame.
Proof.
  intros (r0 & r1 & blob0 & blob1 & _ & Henc & _ & Hstream & _).
  vm_compute in Henc. injection Henc as <- _.
  vm_compute in Hstream. discriminate Hstream.
Qed.

(** ** More on the frame container *)

Lemma take4_drop (buffer : list Z) (i : nat) :
  (i + 4 <= length buffer)%nat ->
  take 4 (drop i buffer)
  = [buffer !!! i; buffer !!! (i + 1)%nat; buffer !!! (i + 2)%nat;
     buffer !!! (i + 3)%nat].
Proof.
  intros Hlen.
  assert (Hd : length (drop i buffer) = (length buffer - i)%nat)
    by apply length_drop.
  rewrite <- !(lookup_total_drop buffer i).
  replace (buffer !!! i) with (drop i buffer !!! 0%nat)
    by (rewrite lookup_total_drop; f_equal; lia).
  destruct (drop i buffer) as [|a [|b [|c [|d rest]]]]; cbn in Hd; try lia.
  reflexivity.
Qed.

Lemma le32_read_le32 (buffer : list Z) (i : nat) :
  bytes_ok buffer -> (i + 4 <= length buffer)%nat ->
  le32 (read_le32 buffer i) = take 4 (drop i buffer).
Proof.
  intros Hb Hlen. rewrite take4_drop by exact Hlen.
  assert (Hk : forall k, (k < 4)%nat -> byte_ok (buffer !!! (i + k)%nat)).
  { intros k Hk. eapply Forall_lookup_1; [exact Hb|].
    apply list_lookup_lookup_total_lt. lia. }
  pose proof (Hk 0%nat ltac:(lia)) as H0. rewrite Nat.add_0_r in H0.
  pose proof (Hk 1%nat ltac:(lia)) as H1.
  pose proof (Hk 2%nat ltac:(lia)) as H2.
  pose proof (Hk 3%nat ltac:(lia)) as H3.
  unfold byte_ok in *. unfold le32, read_le32.
  set (a := buffer !!! i) in *. set (b := buffer !!! (i + 1)%nat) in *.
  set (c := buffer !!! (i + 2)%nat) in *. set (d := buffer !!! (i + 3)%nat) in *.
  clearbody a b c d.
  repeat f_equal; Z.div_mod_to_equations; lia.
Qed.

Lemma read_le32_range (buffer : list Z) (i : nat) :
  bytes_ok buffer -> (i + 4 <= length buffer)%nat ->
  0 <= read_le32 buffer i < 2 ^ 32.
Proof.
  intros Hb Hlen.
  assert (Hk : forall k, (k < 4)%nat -> byte_ok (buffer !!! (i + k)%nat)).
  { intros k Hk. eapply Forall_lookup_1; [exact Hb|].
    apply list_lookup_lookup_total_lt. lia. }
  pose proof (Hk 0%nat ltac:(lia)) as H0. rewrite Nat.add_0_r in H0.
  pose proof (Hk 1%nat ltac:(lia)) as H1.
  pose proof (Hk 2%nat ltac:(lia)) as H2.
  pose proof (Hk 3%nat ltac:(lia)) as H3.
  unfold byte_ok, read_le32 in *. lia.
Qed.

Lemma deserialize_frame_inv (buffer : list Z) (r : frame_t) :
  bytes_ok buffer ->
  deserialize_frame buffer = Success r ->
  take 4 buffer = le32 FRAME_MAGIC
  /\ header r = read_header buffer 4
  /\ width (header r) = FRAME_WIDTH /\ height (header r) = FRAME_HEIGHT
  /\ channels (header r) = FRAME_CHANNELS
  /\ Z.of_nat (length (data r)) = compressed_size (header r)
  /\ (32 + length (data r) <= length buffer)%nat
  /\ data r = take (length (data r)) (drop 32 buffer)
  /\ (data r <> [] -> checksum (header r) = calculate_checksum (data r)).
Proof.
  intros Hb. unfold deserialize_frame. cbv zeta.
  change (4 + 28)%nat with 32%nat.
  destruct (Nat.ltb_spec (length buffer) 32) as [|Hlen]; [discriminate|].
  destruct (Z.eqb_spec (read_le32 buffer 0) FRAME_MAGIC) as [Hmagic|];
    [|discriminate].
  cbn [negb].
  destruct (Z.eqb_spec (width (read_header buffer 4)) FRAME_WIDTH) as [Hw|];
    [|discriminate].
  destruct (Z.eqb_spec (height (read_header buffer 4)) FRAME_HEIGHT) as [Hh|];
    [|discriminate].
  destruct (Z.eqb_spec (channels (read_header buffer 4)) FRAME_CHANNELS) as [Hc|];
    [|discriminate].
  cbn [negb orb].
  destruct (Z.gtb_spec (Z.of_nat 32 + compressed_size (read_header buffer 4))
              (Z.of_nat (length buffer))) as [|Hsize]; [discriminate|].
  pose proof (read_le32_range buffer (4 + 16) Hb ltac:(lia)) as Hcs.
  change (read_le32 buffer (4 + 16)) with (compressed_size (read_header buffer 4))
    in Hcs.
  remember (read_header buffer 4) as hdr eqn:Ehdr.
  assert (Hmag : take 4 buffer = le32 FRAME_MAGIC).
  { rewrite <- Hmagic, le32_read_le32 by (try assumption; lia).
    rewrite drop_0. reflexivity. }
  assert (Hpl : length (take (Z.to_nat (compressed_size hdr)) (drop 32 buffer))
                = Z.to_nat (compressed_size hdr)).
  { rewrite length_take, length_drop. lia. }
  destruct (Nat.ltb_spec 0 (Z.to_nat (compressed_size hdr))) as [Hpos|Hzero].
  - destruct (Z.eqb_spec
                (calculate_checksum
                   (take (Z.to_nat (compressed_size hdr)) (drop 32 buffer)))
                (checksum hdr)) as [Hsum|]; [|discriminate].
    cbn [negb]. intros [= <-]. cbn [header data].
    rewrite Hpl. repeat split; try assumption; try lia.
  - intros [= <-]. cbn [header data length].
    repeat split; try assumption; try lia; try contradiction.
Qed.

(** X1: what a successful parse guarantees: whenever [deserialize_frame]
    accepts a buffer of bytes, the buffer starts with the magic word, the
    header returned is the 28 bytes that follow it and states the configured
    dimensions, the payload returned is the [compressed_size] bytes after the
    header, which lie inside the buffer, and a payload that is not empty has
    the CRC-32 the header states. *)
Theorem deserialize_frame_sound (buffer : list Z) (r : frame_t) :
  bytes_ok buffer ->
  deserialize_frame buffer = Success r ->
  take 4 buffer = le32 FRAME_MAGIC
  /\ header r = read_header buffer 4
  /\ width (header r) = FRAME_WIDTH /\ height (header r) = FRAME_HEIGHT
  /\ channels (header r) = FRAME_CHANNELS
  /\ Z.of_nat (length (data r)) = compressed_size (header r)
  /\ (32 + length (data r) <= length buffer)%nat
  /\ data r = take (length (data r)) (drop 32 buffer)
  /\ (data r <> [] -> checksum (header r) = calculate_checksum (data r)).
Proof. exact (deserialize_frame_inv buffer r). Qed.

Lemma header_bytes_read_header (buffer : list Z) :
  bytes_ok buffer -> (32 <= length buffer)%nat ->
  header_bytes (read_header buffer 4) = take 28 (drop 4 buffer).
Proof.
  intros Hb Hlen. unfold header_bytes, read_header.
  cbn [frame_number width height channels compressed_size checksum
       compression_type reserved0 reserved1 reserved2].
  rewrite !le32_read_le32 by (try assumption; lia).
  assert (Hlast : [buffer !!! (4 + 24)%nat; buffer !!! (4 + 25)%nat;
                   buffer !!! (4 + 26)%nat; buffer !!! (4 + 27)%nat]
                  = take 4 (drop (4 + 24) buffer))
    by (rewrite take4_drop by lia; reflexivity).
  rewrite Hlast. clear Hlast.
  replace (drop (4 + 4) buffer) with (drop 4 (drop 4 buffer))
    by (rewrite drop_drop; reflexivity).
  replace (drop (4 + 8) buffer) with (drop 8 (drop 4 buffer))
    by (rewrite drop_drop; reflexivity).
  replace (drop (4 + 12) buffer) with (drop 12 (drop 4 buffer))
    by (rewrite drop_drop; reflexivity).
  replace (drop (4 + 16) buffer) with (drop 16 (drop 4 buffer))
    by (rewrite drop_drop; reflexivity).
  replace (drop (4 + 20) buffer) with (drop 20 (drop 4 buffer))
    by (rewrite drop_drop; reflexivity).
  replace (drop (4 + 24) buffer) with (drop 24 (drop 4 buffer))
    by (rewrite drop_drop; reflexivity).
  assert (Hd : (28 <= length (drop 4 buffer))%nat)
    by (rewrite length_drop; lia).
  generalize dependent (drop 4 buffer). intros l Hl.
  do 28 (destruct l as [|? l]; [cbn in Hl; lia|]). reflexivity.
Qed.

(** X2: serialising a record that [deserialize_frame] returned for a buffer of
    bytes gives back the bytes that were parsed, the first 32 +
    [compressed_size] bytes of the buffer. *)
Theorem serialize_deserialized_frame (buffer : list Z) (r : frame_t) :
  bytes_ok buffer ->
  deserialize_frame buffer = Success r ->
  serialize_frame r = take (32 + length (data r)) buffer.
Proof.
  intros Hb Hparse.
  destruct (deserialize_frame_inv buffer r Hb Hparse)
    as (Hmagic & Hhdr & _ & _ & _ & _ & Hlen & Hdata & _).
  unfold serialize_frame.
  rewrite Hhdr, header_bytes_read_header by (try assumption; lia).
  rewrite <- Hmagic. rewrite Hdata at 1.
  rewrite <- (take_drop 4 buffer) at 4.
  rewrite take_app_ge by (rewrite length_take; lia).
  rewrite length_take.
  replace (4 `min` length buffer)%nat with 4%nat by lia.
  f_equal.
  rewrite <- (take_drop 28 (drop 4 buffer)) at 2.
  rewrite take_app_ge by (rewrite length_take, length_drop; lia).
  rewrite length_take, length_drop, drop_drop.
  f_equal. f_equal. lia.
Qed.

(** X3: bytes after the payload are not looked at: a valid serialised record
    followed by any bytes is parsed by [deserialize_frame] to the record
    itself. *)
Theorem deserialize_ignores_trailing_bytes (r : frame_t) (extra : list Z) :
  frame_well_typed r -> valid_record r ->
  deserialize_frame (serialize_frame r ++ extra) = Success r.
Proof.
  intros [Hh _] (Hw & Hht & Hc & Hsum & _ & _ & _ & Hsize).
  unfold serialize_frame. rewrite <- !(assoc_L (++)).
  rewrite (deserialize_frame_layout _ _ Hh).
  rewrite Hw, Hht, Hc, !Z.eqb_refl. cbn [negb orb].
  rewrite <- Hsize, length_app.
  replace (32 + Z.of_nat (length (data r))
           >? 32 + Z.of_nat (length (data r) + length extra)) with false
    by (symmetry; rewrite Z.gtb_ltb; apply Z.ltb_ge; lia).
  rewrite Nat2Z.id, take_app_length.
  destruct r as [h d]; cbn [header data] in *.
  destruct d as [|b d]; [reflexivity|].
  cbn [length Nat.ltb Nat.leb].
  rewrite Hsum, Z.eqb_refl. reflexivity.
Qed.

Lemma deserialize_ignores_trailing_bytes_witness :
  frame_well_typed sample_record /\ valid_record sample_record
  /\ deserialize_frame (serialize_frame sample_record ++ [9; 9; 9])
     = Success sample_record.
Proof.
  split; [exact sample_record_well_typed|].
  split; [exact sample_record_valid|].
  apply (deserialize_ignores_trailing_bytes sample_record [9; 9; 9]).
  - exact sample_record_well_typed.
  - exact sample_record_valid.
Defined.

(** X4: a record with [compressed_size] 0 and the configured dimensions is
    accepted by [deserialize_frame] whatever its checksum field holds and
    whatever follows the header; the payload returned is empty. *)
Theorem deserialize_empty_payload_unchecked (h : frame_header_t) (rest : list Z) :
  header_well_typed h ->
  width h = FRAME_WIDTH -> height h = FRAME_HEIGHT ->
  channels h = FRAME_CHANNELS -> compressed_size h = 0 ->
  deserialize_frame (le32 FRAME_MAGIC ++ header_bytes h ++ rest)
  = Success {| header := h; data := [] |}.
Proof.
  intros Hh Hw Hht Hc Hsize.
  rewrite (deserialize_frame_layout _ _ Hh).
  rewrite Hw, Hht, Hc, !Z.eqb_refl, Hsize. cbn [negb orb].
  replace (32 + 0 >? 32 + Z.of_nat (length rest)) with false
    by (symmetry; rewrite Z.gtb_ltb; apply Z.ltb_ge; lia).
  reflexivity.
Qed.

(** X5: a buffer of bytes whose first four bytes are not the magic word, a
    buffer of fewer than four bytes included, is rejected by
    [deserialize_frame] with [GVC_ERROR_FORMAT]. *)
Theorem deserialize_rejects_bad_magic (buffer : list Z) :
  bytes_ok buffer -> take 4 buffer <> le32 FRAME_MAGIC ->
  deserialize_frame buffer = Failure GVC_ERROR_FORMAT.
Proof.
  intros Hb Hmagic. unfold deserialize_frame. cbv zeta.
  destruct (Nat.ltb_spec (length buffer) (4 + 28)) as [|Hlen]; [reflexivity|].
  destruct (Z.eqb_spec (read_le32 buffer 0) FRAME_MAGIC) as [Heq|];
    [|reflexivity].
  exfalso. apply Hmagic.
  rewrite <- Heq, le32_read_le32 by (try assumption; lia).
  rewrite drop_0. reflexivity.
Qed.

(** X6: every proper prefix of a valid serialised record, the empty buffer
    included, is rejected by [deserialize_frame] with [GVC_ERROR_FORMAT]. *)
Theorem deserialize_rejects_truncation (r : frame_t) (k : nat) :
  frame_well_typed r -> valid_record r ->
  (k < 32 + length (data r))%nat ->
  deserialize_frame (take k (serialize_frame r)) = Failure GVC_ERROR_FORMAT.
Proof.
  intros [Hh _] (Hw & Hht & Hc & Hsum & _ & _ & _ & Hsize) Hk.
  destruct (Nat.lt_ge_cases k 32) as [Hshort|Hlong].
  - unfold deserialize_frame. cbv zeta.
    replace (length (take k (serialize_frame r)) <? 4 + 28)%nat with true;
      [reflexivity|].
    symmetry. apply Nat.ltb_lt. rewrite length_take. lia.
  - unfold serialize_frame. rewrite (assoc_L (++)).
    rewrite take_app_ge by (rewrite serialized_prefix_length; lia).
    rewrite serialized_prefix_length, <- (assoc_L (++)).
    rewrite (deserialize_frame_layout _ _ Hh).
    rewrite Hw, Hht, Hc, !Z.eqb_refl. cbn [negb orb].
    rewrite length_take.
    replace (32 + compressed_size (header r)
             >? 32 + Z.of_nat ((k - 32) `min` length (data r))) with true;
      [reflexivity|].
    symmetry. rewrite Z.gtb_ltb. apply Z.ltb_lt. lia.
Qed.

Lemma deserialize_rejects_truncation_witness :
  frame_well_typed sample_record /\ valid_record sample_record
  /\ (35 < 32 + length (data sample_record))%nat
  /\ deserialize_frame (take 35 (serialize_frame sample_record))
     = Failure GVC_ERROR_FORMAT.
Proof.
  split; [exact sample_record_well_typed|].
  split; [exact sample_record_valid|].
  split; [simpl; lia|].
  apply (deserialize_rejects_truncation sample_record 35).
  - exact sample_record_well_typed.
  - exact sample_record_valid.
  - simpl; lia.
Defined.

(** X7: [serialize_frame] is injective: two records whose header fields hold
    values of their C types and whose serialisations are equal are the same
    record. *)
Theorem serialize_frame_injective (r1 r2 : frame_t) :
  header_well_typed (header r1) -> header_well_typed (header r2) ->
  serialize_frame r1 = serialize_frame r2 -> r1 = r2.
Proof.
  intros H1 H2 Heq.
  assert (Hh : header r1 = header r2).
  { rewrite <- (read_serialized_header (header r1) (data r1) H1).
    rewrite <- (read_serialized_header (header r2) (data r2) H2).
    unfold serialize_frame in Heq. rewrite Heq. reflexivity. }
  assert (Hd : data r1 = data r2).
  { apply (f_equal (drop 32)) in Heq. unfold serialize_frame in Heq.
    rewrite !(assoc_L (++)) in Heq.
    rewrite (drop_app_length' _ _ 32 (eq_sym (serialized_prefix_length (header r1)))) in Heq.
    rewrite (drop_app_length' _ _ 32 (eq_sym (serialized_prefix_length (header r2)))) in Heq.
    exact Heq. }
  destruct r1 as [h1 d1], r2 as [h2 d2]; cbn [header data] in *. congruence.
Qed.

(** ** Size and content of the run-length stream *)

Lemma land_255_byte (x : Z) : byte_ok (Z.land x 0xFF).
Proof.
  rewrite land_255. unfold byte_ok.
  apply Z.mod_pos_bound. lia.
Qed.

Lemma u8_byte_ok (x : Z) : byte_ok (u8 x).
Proof. unfold byte_ok, u8. apply Z.mod_pos_bound. lia. Qed.

Lemma delta_values_bytes (cur prev : list Z) (i d : nat) :
  bytes_ok (delta_values cur prev i d).
Proof.
  unfold delta_values, bytes_ok. apply Forall_map, Forall_forall.
  intros j _. apply land_255_byte.
Qed.

Lemma delta_loop_bounds (cur prev : list Z) (N : nat) :
  forall fuel i stream,
    (i <= N)%nat ->
    delta_loop fuel cur prev N i [] = Some stream ->
    (2 * (N - i) <= 255 * length stream)%nat
    /\ (length stream <= 3 * (N - i))%nat
    /\ bytes_ok stream.
Proof.
  induction fuel as [|fuel IH]; intros i stream Hi; cbn [delta_loop].
  - destruct (Nat.ltb_spec i N); [discriminate|].
    intros [= <-]. cbn [length]. repeat split; try lia. constructor.
  - destruct (Nat.ltb_spec i N) as [Hlt|Hge].
    2:{ intros [= <-]. cbn [length]. repeat split; try lia. constructor. }
    destruct (identical_run_scan_spec cur prev N i 255 0) as (Hr & Hrn & _).
    destruct (diff_run_scan_spec cur prev N i 255 0) as (Hd & Hdn & _).
    cbv zeta in Hr, Hrn, Hd, Hdn. rewrite Nat.add_0_r in Hrn, Hdn.
    pose proof (scan_progress cur prev N i Hlt) as Hprog.
    set (r := identical_run_scan 255 cur prev N i 0) in *.
    set (d := diff_run_scan 255 cur prev N i 0) in *.
    clearbody r d.
    destruct (Nat.ltb_spec 0 r) as [Hrpos|Hrz].
    { rewrite delta_loop_acc.
      destruct (delta_loop fuel cur prev N (i + r) []) as [tail|] eqn:Htail;
        cbn [fmap option_fmap option_map]; [|discriminate].
      intros [= <-].
      destruct (IH (i + r)%nat tail ltac:(lia) Htail) as (Hlo & Hhi & Hb).
      cbn [app length].
      repeat split; try lia.
      constructor; [unfold byte_ok; lia|].
      constructor; [apply u8_byte_ok|exact Hb]. }
    destruct (Nat.ltb_spec 0 d) as [Hdpos|Hdz].
    { rewrite delta_loop_acc.
      destruct (delta_loop fuel cur prev N (i + d) []) as [tail|] eqn:Htail;
        cbn [fmap option_fmap option_map]; [|discriminate].
      intros [= <-].
      destruct (IH (i + d)%nat tail ltac:(lia) Htail) as (Hlo & Hhi & Hb).
      cbn [app length].
      rewrite !length_app, delta_values_length.
      repeat split; try lia.
      constructor; [unfold byte_ok; lia|].
      constructor; [apply u8_byte_ok|].
      apply Forall_app. split; [apply delta_values_bytes|exact Hb]. }
    specialize (Hprog ltac:(lia)). lia.
Qed.

(** X9: the run-length loop of [compress_frame_delta] finishes on every pair
    of buffers and every pixel count N; the stream it writes consists of
    bytes, is at most 3 * N bytes long and at least 2 * N / 255. *)
Theorem delta_stream_bounds (cur prev : list Z) (N : nat) :
  exists stream,
    delta_transform cur prev N = Some stream
    /\ bytes_ok stream
    /\ (2 * N <= 255 * length stream)%nat
    /\ (length stream <= 3 * N)%nat.
Proof.
  destruct (delta_transform_total cur prev N) as [stream Hstream].
  exists stream. split; [exact Hstream|].
  destruct (delta_loop_bounds cur prev N N 0 stream ltac:(lia) Hstream)
    as (Hlo & Hhi & Hb).
  repeat split; [exact Hb|lia|lia].
Qed.

(** ** Pairs without differing bytes *)

Lemma delta_loop_all_equal (cur prev : list Z) (N : nat) :
  (forall k, (k < N)%nat -> cur !!! k = prev !!! k) ->
  forall fuel i stream,
    (i <= N)%nat ->
    delta_loop fuel cur prev N i [] = Some stream ->
    (length stream <= 2 * (N - i))%nat.
Proof.
  intros Heq.
  induction fuel as [|fuel IH]; intros i stream Hi; cbn [delta_loop].
  - destruct (Nat.ltb_spec i N); [discriminate|].
    intros [= <-]. cbn [length]. lia.
  - destruct (Nat.ltb_spec i N) as [Hlt|Hge].
    2:{ intros [= <-]. cbn [length]. lia. }
    destruct (identical_run_scan_spec cur prev N i 255 0)
      as (Hr & Hrn & _ & Hstop).
    cbv zeta in Hr, Hrn, Hstop. rewrite Nat.add_0_r in Hrn, Hstop.
    set (r := identical_run_scan 255 cur prev N i 0) in *. clearbody r.
    destruct (Nat.ltb_spec 0 r) as [Hrpos|Hrz].
    + rewrite delta_loop_acc.
      destruct (delta_loop fuel cur prev N (i + r) []) as [tail|] eqn:Htail;
        cbn [fmap option_fmap option_map]; [|discriminate].
      intros [= <-].
      pose proof (IH (i + r)%nat tail ltac:(lia) Htail).
      cbn [app length]. lia.
    + exfalso. apply Hstop; [lia|lia|exact Hlt|]. apply Heq. exact Hlt.
Qed.

Lemma identical_pair_fits (f : raw_frame_t) : delta_fits f f.
Proof.
  destruct (delta_transform_total (pixels f) (pixels f) (length (pixels f)))
    as [stream Hstream].
  exists stream. split; [exact Hstream|].
  pose proof (delta_loop_all_equal (pixels f) (pixels f) (length (pixels f))
                ltac:(reflexivity) _ 0%nat stream ltac:(lia) Hstream).
  lia.
Qed.

(** What the decoder stores for one byte, case by case. *)
Lemma delta_decoded_byte_cases (p c : Z) :
  byte_ok p -> byte_ok c ->
  (-128 <= c - p <= 127 -> delta_decoded_byte p c = c)
  /\ (127 < c - p -> delta_decoded_byte p c = 0)
  /\ (c - p < -128 -> delta_decoded_byte p c = 255).
Proof.
  intros Hp Hc. split; [apply delta_decoded_byte_in_range; assumption|].
  unfold byte_ok, delta_decoded_byte in *. rewrite land_255.
  assert (Hm : (c - p) mod 256 = c - p \/ (c - p) mod 256 = c - p + 256)
    by (Z.div_mod_to_equations; lia).
  pose proof (Z.mod_pos_bound (c - p) 256 ltac:(lia)) as Hb.
  split; intros Hd; clamp_cases; Z.div_mod_to_equations; lia.
Qed.

Section CodecRoundTrips.
Context `{EntropyCoder}.

(** X10: RAW mode is lossless: for every well-formed frame
    [compress_frame_raw] succeeds with [compression_type] 0, and
    [decompress_frame_raw] of the record returns the frame. *)
Theorem raw_codec_round_trip (input : raw_frame_t) (output : frame_t) :
  raw_frame_ok input ->
  exists r,
    compress_frame_raw input output = Success r
    /\ compression_type (header r) = 0
    /\ decompress_frame_raw r = Success input.
Proof.
  intros Hok. eexists.
  split; [apply compress_frame_raw_ok; exact Hok|].
  split; [reflexivity|].
  apply decompress_frame_raw_ok; try assumption; reflexivity.
Qed.

Lemma delta_codec_decoded (current previous : raw_frame_t) (output : frame_t) :
  raw_frame_ok current -> raw_frame_ok previous ->
  same_dims current previous -> delta_fits previous current ->
  exists r,
    compress_frame_delta current previous output = Success r
    /\ decompress_frame_delta r previous
       = Success {| pixels := zip_with delta_decoded_byte (pixels previous)
                                (pixels current);
                    raw_width := raw_width current;
                    raw_height := raw_height current;
                    raw_channels := raw_channels current |}.
Proof.
  intros Hcur Hprev Hdims (stream & Hstream & Hfit). eexists.
  split; [apply (compress_frame_delta_ok _ _ _ stream); assumption|].
  apply (decompress_frame_delta_ok _ current previous stream);
    try assumption; reflexivity.
Qed.

(** X11: for every well-formed pair of frames of the same dimensions whose
    run-length stream fits the delta buffer, [compress_frame_delta] succeeds,
    and [decompress_frame_delta] of the record against the predecessor returns
    the current frame if and only if every byte-wise difference lies in [-128,
    127]. *)
Theorem delta_codec_exact_iff_in_range (current previous : raw_frame_t)
    (output : frame_t) :
  raw_frame_ok current -> raw_frame_ok previous ->
  same_dims current previous -> delta_fits previous current ->
  exists r,
    compress_frame_delta current previous output = Success r
    /\ (decompress_frame_delta r previous = Success current
        <-> in_delta_range (pixels previous) (pixels current)).
Proof.
  intros Hcur Hprev Hdims Hfit.
  destruct (delta_codec_decoded current previous output Hcur Hprev Hdims Hfit)
    as (r & Henc & Hdec).
  exists r. split; [exact Henc|]. rewrite Hdec.
  pose proof Hcur as (_ & _ & _ & _ & Hlc & Hcb).
  pose proof Hprev as (_ & _ & _ & _ & Hlp & Hpb).
  destruct Hdims as (Hw & Hh & Hc).
  split.
  - intros [= Heq]. apply decoded_eq_in_range; try assumption.
    + rewrite Hlc, Hlp, Hw, Hh, Hc. reflexivity.
    + apply (f_equal pixels) in Heq. exact Heq.
  - intros Hrange. rewrite decoded_in_range by assumption.
    destruct current; reflexivity.
Qed.

(** X12: what DELTA mode makes of each byte: for every well-formed pair of the
    same dimensions whose stream fits, encoding and decoding against the
    predecessor succeeds, and the decoded frame holds the current byte where
    the difference is in [-128, 127], 0 where the difference exceeds 127 and
    255 where it is below -128. *)
Theorem delta_codec_saturates (current previous : raw_frame_t)
    (output : frame_t) :
  raw_frame_ok current -> raw_frame_ok previous ->
  same_dims current previous -> delta_fits previous current ->
  exists r decoded,
    compress_frame_delta current previous output = Success r
    /\ decompress_frame_delta r previous = Success decoded
    /\ length (pixels decoded) = length (pixels current)
    /\ forall k,
         (k < length (pixels current))%nat ->
         let p := pixels previous !!! k in
         let c := pixels current !!! k in
         (-128 <= c - p <= 127 -> pixels decoded !!! k = c)
         /\ (127 < c - p -> pixels decoded !!! k = 0)
         /\ (c - p < -128 -> pixels decoded !!! k = 255).
Proof.
  intros Hcur Hprev Hdims Hfit.
  destruct (delta_codec_decoded current previous output Hcur Hprev Hdims Hfit)
    as (r & Henc & Hdec).
  exists r. eexists. split; [exact Henc|]. split; [exact Hdec|].
  cbn [pixels].
  pose proof Hcur as (_ & _ & _ & _ & Hlc & Hcb).
  pose proof Hprev as (_ & _ & _ & _ & Hlp & Hpb).
  destruct Hdims as (Hw & Hh & Hc).
  assert (Hlen : length (pixels previous) = length (pixels current))
    by (rewrite Hlc, Hlp, Hw, Hh, Hc; reflexivity).
  split; [rewrite length_zip_with; lia|].
  intros k Hk. cbv zeta.
  rewrite (list_lookup_total_correct _ _ _
             (decoded_lookup (pixels current) (pixels previous)
                (length (pixels current)) eq_refl Hlen k Hk)).
  apply delta_decoded_byte_cases.
  - eapply Forall_lookup_1; [exact Hpb|].
    apply list_lookup_lookup_total_lt. lia.
  - eapply Forall_lookup_1; [exact Hcb|].
    apply list_lookup_lookup_total_lt. lia.
Qed.

(** X13: a well-formed frame encoded in DELTA mode against itself always gives
    a record ([compression_type] 1: the stream of identical runs always fits
    the buffer) that decodes against the frame to the frame. *)
Theorem repeated_frame_round_trip (f : raw_frame_t) (output : frame_t) :
  raw_frame_ok f ->
  exists r,
    compress_frame_delta f f output = Success r
    /\ compression_type (header r) = 1
    /\ decompress_frame_delta r f = Success f.
Proof.
  intros Hok.
  destruct (identical_pair_fits f) as (stream & Hstream & Hfit).
  eexists.
  split; [apply (compress_frame_delta_ok _ _ _ stream);
          try assumption; repeat split|].
  split; [reflexivity|].
  rewrite (decompress_frame_delta_ok _ f f stream);
    try assumption; try reflexivity; [|repeat split].
  destruct Hok as (_ & _ & _ & _ & _ & Hb).
  rewrite decoded_in_range by (try assumption; apply in_delta_range_same).
  destruct f; reflexivity.
Qed.

End CodecRoundTrips.

(** ** What the decoders return *)

Lemma apply_deltas_bytes (delta_buffer : list Z) (N : nat) :
  forall remaining st,
    bytes_ok (out_pixels st) ->
    bytes_ok (out_pixels (apply_deltas remaining delta_buffer N st)).
Proof.
  induction remaining as [|remaining IH]; intros st Hb; cbn [apply_deltas].
  - exact Hb.
  - destruct (_ && _); [|exact Hb].
    apply IH. cbn [out_pixels].
    apply Forall_insert; [exact Hb|apply u8_byte_ok].
Qed.

Lemma replay_loop_bytes (delta_buffer : list Z) (N : nat) :
  forall fuel st st',
    replay_loop fuel delta_buffer N st = Some st' ->
    bytes_ok (out_pixels st) -> bytes_ok (out_pixels st').
Proof.
  induction fuel as [|fuel IH]; intros st st'; cbn [replay_loop].
  - destruct (_ && _); [discriminate|]. intros [= <-]. auto.
  - destruct (_ && _); [|intros [= <-]; auto].
    destruct (_ <=? _)%nat; [intros [= <-]; auto|].
    destruct (_ =? 0); [intros Hrun Hb; apply (IH _ _ Hrun); exact Hb|].
    destruct (_ =? 1); [|intros Hrun Hb; apply (IH _ _ Hrun); exact Hb].
    intros Hrun Hb. apply (IH _ _ Hrun). apply apply_deltas_bytes. exact Hb.
Qed.

Section DecoderResults.
Context `{EntropyCoder}.

(** X14: whatever the payload holds, a frame that [decompress_frame_delta]
    returns has the dimensions of the record's header and exactly width *
    height * channels bytes, and it consists of bytes when the predecessor
    does. *)
Theorem decompress_frame_delta_sound (compressed : frame_t)
    (previous output : raw_frame_t) :
  decompress_frame_delta compressed previous = Success output ->
  raw_width output = width (header compressed)
  /\ raw_height output = height (header compressed)
  /\ raw_channels output = channels (header compressed)
  /\ length (pixels output)
     = pixel_count_of (width (header compressed)) (height (header compressed))
         (channels (header compressed))
  /\ (bytes_ok (pixels previous) -> bytes_ok (pixels output)).
Proof.
  unfold decompress_frame_delta, replay.
  destruct (_ =? _)%nat; [discriminate|].
  destruct (Nat.ltb_spec (length (pixels previous))
              (pixel_count_of (width (header compressed))
                 (height (header compressed)) (channels (header compressed))))
    as [|Hlen]; [discriminate|].
  match goal with |- context [replay_loop ?fuel ?buf ?n ?st] =>
    destruct (replay_loop_total buf n fuel st) as (st' & Hrun & _ & Hout);
      [cbn [delta_pos]; lia|constructor|];
    pose proof (replay_loop_bytes buf n fuel st st' Hrun) as Hbytes;
    rewrite Hrun
  end.
  cbn [out_pixels] in Hout, Hbytes. rewrite length_take in Hout.
  intros [= <-]. cbn [pixels raw_width raw_height raw_channels].
  repeat split; [lia|].
  intros Hb. apply Hbytes. apply Forall_take. exact Hb.
Qed.

(** X15: a record whose width * height * channels is 0 in [uint32_t] is
    rejected by [decompress_frame_raw] and by [decompress_frame_delta] with
    [GVC_ERROR_COMPRESSION], whatever its payload and predecessor. *)
Theorem decoders_reject_empty_destination (compressed : frame_t)
    (previous : raw_frame_t) :
  u32 (width (header compressed) * height (header compressed)
       * channels (header compressed)) = 0 ->
  decompress_frame_raw compressed = Failure GVC_ERROR_COMPRESSION
  /\ decompress_frame_delta compressed previous
     = Failure GVC_ERROR_COMPRESSION.
Proof.
  intros Hzero.
  assert (Hdouble : u32 (width (header compressed) * height (header compressed)
                         * channels (header compressed) * 2) = 0).
  { unfold u32 in *. rewrite <- Z.mul_mod_idemp_l, Hzero by lia. reflexivity. }
  split.
  - unfold decompress_frame_raw, pixel_count_of. rewrite Hzero.
    unfold compression_decode_buffer.
    destruct (lz_decode _); reflexivity.
  - unfold decompress_frame_delta. rewrite Hdouble.
    unfold compression_decode_buffer.
    destruct (lz_decode _); reflexivity.
Qed.

(** The RAW decoder rejects a payload that is corrupt or that decodes to
    fewer bytes than the header's dimensions call for. *)
Lemma decompress_frame_raw_rejects_short (compressed : frame_t) :
  match lz_decode (data compressed) with
  | Some decoded =>
      (length decoded
       < pixel_count_of (width (header compressed))
           (height (header compressed)) (channels (header compressed)))%nat
  | None => True
  end ->
  decompress_frame_raw compressed = Failure GVC_ERROR_COMPRESSION.
Proof.
  unfold decompress_frame_raw, compression_decode_buffer.
  destruct (lz_decode (data compressed)) as [decoded|]; [|reflexivity].
  intros Hshort. rewrite take_ge by lia.
  destruct (Nat.eqb_spec (length decoded) 0); [reflexivity|].
  destruct (Nat.eqb_spec (length decoded)
              (pixel_count_of (width (header compressed))
                 (height (header compressed)) (channels (header compressed))));
    [lia|reflexivity].
Qed.

End DecoderResults.

(** ** Checksums of byte strings *)

Lemma crc_byte_range (c b : Z) :
  0 <= c < 2 ^ 32 -> byte_ok b -> 0 <= crc_byte c b < 2 ^ 32.
Proof.
  intros Hc Hb. unfold crc_byte. apply crc_shift_iter_range.
  apply lxor_range; [lia|exact Hc|]. unfold byte_ok in Hb. lia.
Qed.

Lemma crc_update_range (buf : list Z) :
  forall c, 0 <= c < 2 ^ 32 -> bytes_ok buf ->
            0 <= crc_update c buf < 2 ^ 32.
Proof.
  induction buf as [|b buf IH]; intros c Hc Hb; [exact Hc|].
  apply Forall_cons in Hb as [Hb Hbuf].
  rewrite crc_update_cons. apply IH; [|exact Hbuf].
  apply crc_byte_range; assumption.
Qed.

Lemma calculate_checksum_range (buf : list Z) :
  bytes_ok buf -> 0 <= calculate_checksum buf < 2 ^ 32.
Proof.
  intros Hb. unfold calculate_checksum, crc32.
  apply lxor_range; [lia| |lia].
  apply crc_update_range; [|exact Hb].
  change (Z.lxor 0 4294967295) with 4294967295. lia.
Qed.

Lemma byte_lxor_nonzero (b b' : Z) :
  byte_ok b -> byte_ok b' -> b' <> b ->
  0 <= Z.lxor b b' < 2 ^ 32 /\ Z.lxor b b' <> 0 /\ Z.lxor b (Z.lxor b b') = b'.
Proof.
  unfold byte_ok. intros Hb Hb' Hne.
  split; [apply lxor_range; lia|].
  split.
  - intros Hz. apply Z.lxor_eq in Hz. congruence.
  - rewrite <- Z.lxor_assoc, Z.lxor_nilpotent, Z.lxor_0_l. reflexivity.
Qed.

Lemma crc32_byte_change (buf : list Z) (k : nat) (b' : Z) :
  (k < length buf)%nat -> byte_ok (buf !!! k) -> byte_ok b' ->
  b' <> buf !!! k ->
  calculate_checksum (<[k := b']> buf) <> calculate_checksum buf.
Proof.
  intros Hk Hb Hb' Hne.
  destruct (lookup_lt_is_Some_2 buf k Hk) as [b Hbk].
  rewrite (list_lookup_total_correct _ _ _ Hbk) in Hb, Hne.
  destruct (byte_lxor_nonzero b b' Hb Hb' Hne) as (He & Hez & Hx).
  rewrite insert_take_drop by exact Hk.
  rewrite <- (take_drop_middle buf k b Hbk) at 3.
  rewrite <- Hx. apply crc32_flip_middle; assumption.
Qed.

(** X8: replacing one payload byte of a valid serialised record by any other
    byte value makes [deserialize_frame] fail with [GVC_ERROR_FORMAT]. *)
Theorem crc_rejects_payload_byte_change (r : frame_t) (k : nat) (b' : Z) :
  frame_well_typed r -> valid_record r ->
  (k < length (data r))%nat -> byte_ok b' -> b' <> data r !!! k ->
  deserialize_frame (<[(32 + k)%nat := b']> (serialize_frame r))
  = Failure GVC_ERROR_FORMAT.
Proof.
  intros [Hh Hd] (Hw & Hht & Hc & Hsum & _ & _ & _ & Hsize) Hk Hb' Hne.
  assert (Hins : <[(32 + k)%nat := b']> (serialize_frame r)
                 = le32 FRAME_MAGIC ++ header_bytes (header r)
                   ++ <[k := b']> (data r)).
  { unfold serialize_frame. rewrite !(assoc_L (++)).
    pose proof (serialized_prefix_length (header r)) as Hlen.
    rewrite insert_app_r_alt by (rewrite Hlen; lia).
    rewrite Hlen. replace (32 + k - 32)%nat with k by lia. reflexivity. }
  rewrite Hins, (deserialize_frame_layout _ _ Hh).
  rewrite Hw, Hht, Hc, !Z.eqb_refl. cbn [negb orb].
  rewrite length_insert, <- Hsize.
  replace (32 + Z.of_nat (length (data r)) >? 32 + Z.of_nat (length (data r)))
    with false by (symmetry; rewrite Z.gtb_ltb; apply Z.ltb_irrefl).
  rewrite Nat2Z.id.
  replace (0 <? length (data r))%nat with true
    by (symmetry; apply Nat.ltb_lt; lia).
  cbv zeta.
  rewrite <- (length_insert (data r) k b') at 1. rewrite firstn_all.
  rewrite Hsum.
  destruct (Z.eqb_spec (calculate_checksum (<[k := b']> (data r)))
              (calculate_checksum (data r))) as [Heq|]; [|reflexivity].
  exfalso. revert Heq. apply crc32_byte_change; try assumption.
  eapply Forall_lookup_1; [exact Hd|].
  apply list_lookup_lookup_total_lt. exact Hk.
Qed.

(** ** From the encoder to the player through the container *)

Lemma compressBound_upper (n : nat) :
  Z.of_nat (compressBound n) <= 4 * Z.of_nat n + 13.
Proof.
  unfold compressBound.
  assert (Hs : forall k, 0 <= k -> 0 <= Z.shiftr (Z.of_nat n) k <= Z.of_nat n).
  { intros k Hk. rewrite Z.shiftr_div_pow2 by lia.
    assert (0 < 2 ^ k) by (apply Z.pow_pos_nonneg; lia).
    split; [apply Z.div_pos; lia|].
    apply Z.div_le_upper_bound; nia. }
  pose proof (Hs 12 ltac:(lia)). pose proof (Hs 14 ltac:(lia)).
  pose proof (Hs 25 ltac:(lia)). lia.
Qed.

Lemma encoded_record_deserializes (stack : frame_t) (type n : Z)
    (payload : list Z) :
  reserved_typed stack -> byte_ok type -> bytes_ok payload ->
  Z.of_nat (length payload) < 2 ^ 32 ->
  let r := set_frame_number
             (fill_output stack FRAME_WIDTH FRAME_HEIGHT FRAME_CHANNELS type
                payload) (u32 n) in
  deserialize_frame (serialize_frame r) = Success r.
Proof.
  intros (Hr0 & Hr1 & Hr2) Htype Hpayload Hlen r.
  apply deserialize_serialize_frame; subst r;
    cbn [set_frame_number fill_output header data width height channels
         checksum compressed_size]; try reflexivity.
  - split; [|exact Hpayload].
    unfold header_well_typed.
    cbn [set_frame_number fill_output header data frame_number width height
         channels compressed_size checksum compression_type reserved0
         reserved1 reserved2].
    pose proof (calculate_checksum_range payload Hpayload).
    unfold u32.
    pose proof (Z.mod_pos_bound n (2 ^ 32) ltac:(lia)).
    pose proof (Z.mod_pos_bound (Z.of_nat (length payload)) (2 ^ 32)
                  ltac:(lia)).
    unfold FRAME_WIDTH, FRAME_HEIGHT, FRAME_CHANNELS.
    unfold byte_ok in *. repeat split; lia.
  - unfold u32. rewrite Z.mod_small by lia. reflexivity.
Qed.

Lemma configured_pixel_count (f : raw_frame_t) :
  configured_frame f ->
  exists N, pixel_count_of (raw_width f) (raw_height f) (raw_channels f) = N
            /\ Z.of_nat N = 6220800.
Proof.
  intros (-> & -> & ->). exists (Z.to_nat 6220800).
  split; [reflexivity|]. apply Z2Nat.id. lia.
Qed.

Lemma copy_raw_frame_ok (f : raw_frame_t) :
  raw_frame_ok f -> copy_raw_frame f = Success f.
Proof.
  intros Hok. destruct (raw_frame_pixel_count f Hok) as (Hn & _ & _).
  unfold copy_raw_frame. rewrite Hn, Nat.ltb_irrefl, firstn_all.
  destruct f; reflexivity.
Qed.

Section EncoderToPlayer.
Context `{EntropyCoder}.

Lemma payload_length_bound (src : list Z) :
  Z.of_nat (length src) <= 2 * 6220800 ->
  Z.of_nat (length (lz_encode src)) < 2 ^ 32.
Proof.
  intros Hsrc. pose proof (lz_encode_bound src) as Hb.
  pose proof (compressBound_upper (length src)). lia.
Qed.

(** X16: a blob that [encode_frame_to_commit] builds for a frame of the
    configured dimensions, in RAW or in DELTA mode, is parsed by
    [deserialize_frame] to the record it was serialised from, provided the
    entropy coder writes bytes. *)
Theorem encoded_blob_deserializes (current : raw_frame_t)
    (previous : option raw_frame_t) (n : Z) (stack r : frame_t)
    (blob : list Z) :
  coder_emits_bytes H -> reserved_typed stack ->
  configured_frame current -> bytes_ok (pixels current) ->
  encode_frame_to_commit current previous n stack = Success (r, blob) ->
  deserialize_frame blob = Success r.
Proof.
  intros Hcoder Hstack Hconf Hbytes. unfold encode_frame_to_commit.
  destruct (configured_pixel_count current Hconf) as (N & Hpc & HN).
  destruct Hconf as (Hw & Hh & Hc).
  destruct previous as [previous|].
  - unfold compress_frame_delta. rewrite Hpc.
    destruct (_ || _ || _); [discriminate|].
    destruct (_ || _); [discriminate|].
    destruct (delta_transform _ _ _) as [stream|] eqn:Hstream;
      [|discriminate].
    destruct (delta_loop_bounds _ _ _ _ 0%nat stream ltac:(lia) Hstream)
      as (_ & _ & Hsb).
    destruct (Nat.ltb_spec (N * 2) (length stream)) as [|Hfit];
      [discriminate|].
    rewrite encode_buffer_bound, lz_encode_length_pos.
    cbn [mbind outcome_bind]. intros [= <- <-].
    rewrite Hw, Hh, Hc.
    apply encoded_record_deserializes; try assumption.
    + unfold byte_ok. lia.
    + apply Hcoder. exact Hsb.
    + apply payload_length_bound. lia.
  - unfold compress_frame_raw. rewrite Hpc.
    destruct (Nat.ltb_spec (length (pixels current)) N)
      as [|Hlen]; [discriminate|].
    assert (Htake : length (take N (pixels current)) = N)
      by (rewrite length_take; lia).
    replace (compression_encode_buffer (compressBound N)
               (take N (pixels current)))
      with (lz_encode (take N (pixels current)))
      by (rewrite <- encode_buffer_bound, Htake; reflexivity).
    rewrite lz_encode_length_pos.
    cbn [mbind outcome_bind]. intros [= <- <-].
    rewrite Hw, Hh, Hc.
    apply encoded_record_deserializes; try assumption.
    + unfold byte_ok. lia.
    + apply Hcoder. apply Forall_take. exact Hbytes.
    + apply payload_length_bound. lia.
Qed.

(** What the players decode from the blob of a key frame, and from the
    blob of a frame that DELTA mode carries exactly. *)
Lemma buffered_key_record (stack : frame_t) (current : raw_frame_t) (n : Z)
    (previous_frame : option raw_frame_t) :
  coder_emits_bytes H -> reserved_typed stack ->
  raw_frame_ok current -> configured_frame current ->
  decode_and_display_frame_buffered
    (Success
       (serialize_frame
          (set_frame_number
             (fill_output stack (raw_width current) (raw_height current)
                (raw_channels current) 0 (lz_encode (pixels current)))
             (u32 n))))
    previous_frame
  = Success current.
Proof.
  intros Hcoder Hstack Hcur Hconf. unfold decode_and_display_frame_buffered.
  cbn [mbind outcome_bind].
  destruct (raw_frame_pixel_count current Hcur) as (Hn & _ & _).
  destruct (configured_pixel_count current Hconf) as (N & Hpc & HN).
  rewrite Hpc in Hn.
  pose proof Hconf as (Hw & Hh & Hc).
  pose proof Hcur as (_ & _ & _ & _ & _ & Hb).
  assert (Hrec : deserialize_frame
                   (serialize_frame
                      (set_frame_number
                         (fill_output stack (raw_width current)
                            (raw_height current) (raw_channels current) 0
                            (lz_encode (pixels current))) (u32 n)))
                 = Success
                     (set_frame_number
                        (fill_output stack (raw_width current)
                           (raw_height current) (raw_channels current) 0
                           (lz_encode (pixels current))) (u32 n))).
  { rewrite Hw, Hh, Hc. apply encoded_record_deserializes; try assumption.
    - unfold byte_ok. lia.
    - apply Hcoder. exact Hb.
    - apply payload_length_bound. lia. }
  rewrite Hrec. cbn [mbind outcome_bind].
  apply decode_key_record. exact Hcur.
Qed.

Lemma buffered_delta_record (stack : frame_t) (current previous : raw_frame_t)
    (n : Z) (stream : list Z) :
  coder_emits_bytes H -> reserved_typed stack ->
  raw_frame_ok current -> raw_frame_ok previous ->
  configured_frame current -> same_dims current previous ->
  in_delta_range (pixels previous) (pixels current) ->
  delta_transform (pixels current) (pixels previous)
    (length (pixels current)) = Some stream ->
  (length stream <= 2 * length (pixels current))%nat ->
  decode_and_display_frame_buffered
    (Success
       (serialize_frame
          (set_frame_number
             (fill_output stack (raw_width current) (raw_height current)
                (raw_channels current) 1 (lz_encode stream)) (u32 n))))
    (Some previous)
  = Success current.
Proof.
  intros Hcoder Hstack Hcur Hprev Hconf Hdims Hrange Hstream Hfit.
  unfold decode_and_display_frame_buffered. cbn [mbind outcome_bind].
  destruct (raw_frame_pixel_count current Hcur) as (Hn & _ & _).
  destruct (configured_pixel_count current Hconf) as (N & Hpc & HN).
  rewrite Hpc in Hn.
  destruct (delta_loop_bounds _ _ _ _ 0%nat stream ltac:(lia) Hstream)
    as (_ & _ & Hsb).
  pose proof Hconf as (Hw & Hh & Hc).
  assert (Hrec : deserialize_frame
                   (serialize_frame
                      (set_frame_number
                         (fill_output stack (raw_width current)
                            (raw_height current) (raw_channels current) 1
                            (lz_encode stream)) (u32 n)))
                 = Success
                     (set_frame_number
                        (fill_output stack (raw_width current)
                           (raw_height current) (raw_channels current) 1
                           (lz_encode stream)) (u32 n))).
  { rewrite Hw, Hh, Hc. apply encoded_record_deserializes; try assumption.
    - unfold byte_ok. lia.
    - apply Hcoder. exact Hsb.
    - apply payload_length_bound. lia. }
  rewrite Hrec. cbn [mbind outcome_bind].
  rewrite (decode_delta_record _ _ _ _ stream) by assumption.
  destruct Hcur as (_ & _ & _ & _ & _ & Hcb).
  destruct Hprev as (_ & _ & _ & _ & _ & Hpb).
  rewrite decoded_in_range by assumption.
  destruct current; reflexivity.
Qed.




Lemma decoder_thread_decoded (frame_data : outcome (list Z))
    (rest : list (outcome (list Z))) (previous_frame : option raw_frame_t)
    (current : raw_frame_t) :
  decode_and_display_frame_buffered frame_data previous_frame
  = Success current ->
  copy_raw_frame current = Success current ->
  decoder_thread (frame_data :: rest) previous_frame
  = (frames ← decoder_thread rest (Some current); Success (current :: frames)).
Proof.
  intros Hdec Hcopy. cbn [decoder_thread]. rewrite Hdec, Hcopy. reflexivity.
Qed.

Lemma play_frames_decoded (frame_data : outcome (list Z))
    (rest : list (outcome (list Z))) (previous_frame : option raw_frame_t)
    (current : raw_frame_t) :
  decode_and_display_frame_buffered frame_data previous_frame
  = Success current ->
  play_frames (frame_data :: rest) previous_frame
  = (frames ← play_frames rest (Some current); Success (current :: frames)).
Proof.
  intros Hdec. cbn [play_frames].
  change (decode_and_display_commit frame_data previous_frame)
    with (decode_and_display_frame_buffered frame_data previous_frame).
  rewrite Hdec. reflexivity.
Qed.

Lemma decoder_thread_pair (first second : outcome (list Z))
    (previous_frame : option raw_frame_t) (f0 f1 : raw_frame_t) :
  decode_and_display_frame_buffered first previous_frame = Success f0 ->
  copy_raw_frame f0 = Success f0 ->
  decode_and_display_frame_buffered second (Some f0) = Success f1 ->
  copy_raw_frame f1 = Success f1 ->
  decoder_thread ([first] ++ [second]) previous_frame = Success [f0; f1].
Proof.
  intros Hd0 Hc0 Hd1 Hc1. cbn [app].
  rewrite (decoder_thread_decoded _ _ _ f0 Hd0 Hc0).
  rewrite (decoder_thread_decoded _ _ _ f1 Hd1 Hc1).
  reflexivity.
Qed.

Lemma play_frames_single (first : outcome (list Z))
    (previous_frame : option raw_frame_t) (f0 : raw_frame_t) :
  decode_and_display_frame_buffered first previous_frame = Success f0 ->
  play_frames [first] previous_frame = Success [f0].
Proof.
  intros Hd0. rewrite (play_frames_decoded _ _ _ f0 Hd0). reflexivity.
Qed.




(** X18: a commit that fails to decode against the predecessor
    [decoder_thread] holds when it reaches the commit, be it that the
    commit cannot be read or parsed or that it is a DELTA record and no
    frame has been decoded yet, is passed over by the thread: the frames
    handed on are those of the commit list without it, so that later frames
    are decoded against the last frame decoded before it.  The loop of
    [play_from_repo] ends at such a commit: it shows the frames of the
    commits before it only. *)
Theorem decoder_thread_skips_failed_commit
    (before after : list (outcome (list Z))) (bad : outcome (list Z))
    (previous_frame : option raw_frame_t) (code : Z) :
  decode_and_display_frame_buffered bad
    (thread_previous before previous_frame) = Failure code ->
  decoder_thread (before ++ bad :: after) previous_frame
  = decoder_thread (before ++ after) previous_frame
  /\ play_frames (before ++ bad :: after) previous_frame
     = play_frames before previous_frame.
Proof.
  revert previous_frame.
  induction before as [|c before IH]; intros previous_frame Hbad.
  - cbn [app decoder_thread play_frames thread_previous] in *.
    change (decode_and_display_commit bad previous_frame)
      with (decode_and_display_frame_buffered bad previous_frame).
    rewrite Hbad. split; reflexivity.
  - cbn [app decoder_thread play_frames thread_previous] in *.
    change (decode_and_display_commit c previous_frame)
      with (decode_and_display_frame_buffered c previous_frame).
    destruct (decode_and_display_frame_buffered c previous_frame)
      as [current| | |].
    + destruct (IH _ Hbad) as [-> ->]. split; reflexivity.
    + destruct (IH _ Hbad) as [-> _]. split; reflexivity.
    + split; reflexivity.
    + split; reflexivity.
Qed.

End EncoderToPlayer.

(** ** Frame file names *)

Lemma strcmp_eq_spec (a b : list ascii) : strcmp_eq a b = true <-> a = b.
Proof.
  revert b. induction a as [|c a IH]; intros [|d b]; cbn [strcmp_eq];
    try (split; [discriminate|congruence]); [tauto|].
  rewrite andb_true_iff, Ascii.eqb_eq, IH. split; [intros []|intros [=]];
    subst; auto.
Qed.

Lemma strcmp_eq_refl (a : list ascii) : strcmp_eq a a = true.
Proof. apply strcmp_eq_spec. reflexivity. Qed.

Lemma digit_char_spec (d : Z) :
  0 <= d <= 9 ->
  isdigit (digit_char d) = true /\ digit_value (digit_char d) = d
  /\ isspace (digit_char d) = false
  /\ Ascii.eqb (digit_char d) "-" = false
  /\ Ascii.eqb (digit_char d) "+" = false.
Proof.
  intros Hd.
  assert (Hc : d = 0 \/ d = 1 \/ d = 2 \/ d = 3 \/ d = 4 \/ d = 5 \/ d = 6
               \/ d = 7 \/ d = 8 \/ d = 9) by lia.
  repeat (destruct Hc as [->|Hc]); try subst d; repeat split; reflexivity.
Qed.

Lemma isdigit_head (c : ascii) :
  isdigit c = true ->
  isspace c = false /\ Ascii.eqb c "-" = false /\ Ascii.eqb c "+" = false.
Proof.
  unfold isdigit, isspace. cbv zeta. intros Hd.
  apply andb_true_iff in Hd as [Hlo Hhi].
  apply Z.leb_le in Hlo. apply Z.leb_le in Hhi.
  split.
  - apply orb_false_iff. split; [apply Z.eqb_neq; lia|].
    apply andb_false_iff. right. apply Z.leb_gt. lia.
  - split; apply Ascii.eqb_neq; intros ->.
    + change (Z.of_N (N_of_ascii "-")) with 45 in Hlo. lia.
    + change (Z.of_N (N_of_ascii "+")) with 43 in Hlo. lia.
Qed.

Lemma scan_digits_app (digits rest : list ascii) :
  Forall (fun c => isdigit c = true) digits ->
  match rest with c :: _ => isdigit c = false | [] => True end ->
  forall acc count,
    scan_digits (digits ++ rest) acc count
    = (fold_left (fun a c => a * 10 + digit_value c) digits acc,
       (count + length digits)%nat, rest).
Proof.
  intros Hd Hrest. induction Hd as [|c digits Hc Hd IH]; intros acc count.
  - cbn [app fold_left length]. rewrite Nat.add_0_r.
    destruct rest as [|c rest]; cbn [scan_digits]; [reflexivity|].
    rewrite Hrest. reflexivity.
  - cbn [app scan_digits fold_left length]. rewrite Hc, IH.
    replace (S count + length digits)%nat with (count + S (length digits))%nat
      by lia.
    reflexivity.
Qed.

Lemma decimal_value_nonneg (digits : list ascii) :
  Forall (fun c => isdigit c = true) digits ->
  forall acc, 0 <= acc ->
    0 <= fold_left (fun a c => a * 10 + digit_value c) digits acc.
Proof.
  intros Hd. induction Hd as [|c digits Hc Hd IH]; intros acc Hacc;
    cbn [fold_left]; [exact Hacc|].
  apply IH. unfold isdigit, digit_value in *. cbv zeta in Hc.
  apply andb_true_iff in Hc as [Hlo _]. apply Z.leb_le in Hlo. lia.
Qed.

Lemma strtoul_digits (digits rest : list ascii) :
  digits <> [] -> Forall (fun c => isdigit c = true) digits ->
  match rest with c :: _ => isdigit c = false | [] => True end ->
  strtoul (digits ++ rest)
  = (Z.min (decimal_value digits) ULONG_MAX, length digits).
Proof.
  intros Hne Hall Hrest. unfold strtoul.
  destruct digits as [|c digits]; [contradiction|].
  pose proof Hall as Hd. apply Forall_cons in Hd as [Hc Hd].
  destruct (isdigit_head c Hc) as (Hsp & Hminus & Hplus).
  cbn [app skip_spaces]. rewrite Hsp, Hminus, Hplus.
  change (c :: digits ++ rest) with ((c :: digits) ++ rest).
  rewrite (scan_digits_app (c :: digits) rest Hall Hrest 0 0).
  fold (decimal_value (c :: digits)).
  rewrite length_app, Nat.add_sub.
  change (0 + length (c :: digits) =? 0)%nat with false. cbv iota.
  f_equal.
  destruct (Z.gtb_spec (decimal_value (c :: digits)) ULONG_MAX); lia.
Qed.

(** What the parser returns on a name made of the prefix, decimal digits
    and the suffix. *)
Lemma parse_decimal_name (digits : list ascii) :
  digits <> [] -> Forall (fun c => isdigit c = true) digits ->
  parse_frame_number_from_filename (frame_prefix ++ digits ++ rgb_suffix)
  = Success (u32 (Z.min (decimal_value digits) ULONG_MAX)).
Proof.
  intros Hne Hd. unfold parse_frame_number_from_filename.
  change (take 6 (frame_prefix ++ digits ++ rgb_suffix)) with frame_prefix.
  rewrite strcmp_eq_refl. cbn [negb].
  change (drop 6 (frame_prefix ++ digits ++ rgb_suffix))
    with (digits ++ rgb_suffix).
  rewrite (strtoul_digits digits rgb_suffix Hne Hd eq_refl).
  replace (drop (6 + length digits) (frame_prefix ++ digits ++ rgb_suffix))
    with rgb_suffix.
  2:{ symmetry. rewrite (assoc_L (++)). apply drop_app_length'.
      rewrite length_app. reflexivity. }
  rewrite strcmp_eq_refl.
  destruct digits; [contradiction|]. reflexivity.
Qed.

Lemma decimal_value_snoc (digits : list ascii) (c : ascii) :
  decimal_value (digits ++ [c]) = decimal_value digits * 10 + digit_value c.
Proof. unfold decimal_value. rewrite fold_left_app. reflexivity. Qed.

Lemma decimal_spec :
  forall fuel n acc,
    0 <= n < 10 ^ Z.of_nat fuel -> (0 < fuel)%nat ->
    exists digits,
      decimal fuel n acc = digits ++ acc
      /\ digits <> []
      /\ Forall (fun c => isdigit c = true) digits
      /\ decimal_value digits = n
      /\ (length digits <= fuel)%nat.
Proof.
  induction fuel as [|fuel IH]; intros n acc Hn Hfuel; [lia|].
  cbn [decimal].
  assert (Hd : 0 <= n mod 10 <= 9) by (Z.div_mod_to_equations; lia).
  destruct (digit_char_spec (n mod 10) Hd) as (Hdig & Hval & _).
  destruct (Z.eqb_spec (n / 10) 0) as [Hz|Hnz].
  - exists [digit_char (n mod 10)].
    split; [reflexivity|]. split; [discriminate|].
    split; [repeat constructor; exact Hdig|].
    split; [|cbn [length]; lia].
    unfold decimal_value. cbn [fold_left]. rewrite Hval.
    Z.div_mod_to_equations. lia.
  - assert (Hq : 0 <= n / 10 < 10 ^ Z.of_nat fuel).
    { rewrite Nat2Z.inj_succ, Z.pow_succ_r in Hn by lia.
      Z.div_mod_to_equations. lia. }
    assert (Hpos : (0 < fuel)%nat).
    { destruct fuel; [|lia]. cbn in Hq. lia. }
    destruct (IH (n / 10) (digit_char (n mod 10) :: acc) Hq Hpos)
      as (digits & Heq & Hne & Hall & Hv & Hlen).
    exists (digits ++ [digit_char (n mod 10)]).
    split; [rewrite Heq, <- (assoc_L (++)); reflexivity|].
    split; [destruct digits; discriminate|].
    split; [apply Forall_app; split; [exact Hall|repeat constructor; exact Hdig]|].
    split.
    + rewrite decimal_value_snoc, Hv, Hval. Z.div_mod_to_equations. lia.
    + rewrite length_app. cbn [length]. lia.
Qed.

Lemma decimal_value_zeros (k : nat) (digits : list ascii) :
  decimal_value (repeat "0"%char k ++ digits) = decimal_value digits.
Proof.
  unfold decimal_value. rewrite fold_left_app. f_equal.
  induction k as [|k IH]; [reflexivity|]. cbn [repeat fold_left]. exact IH.
Qed.

Lemma format_06u_spec (n : Z) :
  0 <= n < 2 ^ 32 ->
  format_06u n <> []
  /\ Forall (fun c => isdigit c = true) (format_06u n)
  /\ decimal_value (format_06u n) = n
  /\ (6 <= length (format_06u n) <= 10)%nat.
Proof.
  intros Hn. unfold format_06u.
  destruct (decimal_spec 10 n [] ltac:(cbn; lia) ltac:(lia))
    as (digits & Heq & Hne & Hall & Hv & Hlen).
  rewrite app_nil_r in Heq. rewrite Heq. cbv zeta.
  split; [destruct digits; [contradiction|]; destruct (repeat _ _); discriminate|].
  split.
  { apply Forall_app. split; [|exact Hall].
    apply Forall_forall. intros c Hc. apply list_elem_of_In in Hc.
    apply repeat_spec in Hc. subst c. reflexivity. }
  split; [rewrite decimal_value_zeros; exact Hv|].
  rewrite length_app, repeat_length. lia.
Qed.

(** X20: a name made of the prefix, one or more decimal digits and the suffix
    is accepted by [parse_frame_number_from_filename] whatever the number of
    digits; the result is the number the digits denote, saturated at
    [ULONG_MAX] by [strtoul] and then reduced modulo 2^32 by the cast. *)
Theorem parse_frame_number_wraps (digits : list ascii) :
  digits <> [] -> Forall (fun c => isdigit c = true) digits ->
  parse_frame_number_from_filename (frame_prefix ++ digits ++ rgb_suffix)
  = Success (Z.min (decimal_value digits) ULONG_MAX mod 2 ^ 32).
Proof. exact (parse_decimal_name digits). Qed.

(** X19: for every [uint32_t] frame number and every buffer of at least 21
    characters, the name [generate_frame_filename] writes parses back to that
    number with [parse_frame_number_from_filename], and [generate_frame_path]
    writes the directory, a slash and that name. *)
Theorem frame_filename_round_trip (n : Z) (max_len : nat) :
  0 <= n < 2 ^ 32 -> (21 <= max_len)%nat ->
  exists name,
    generate_frame_filename n max_len = Some name
    /\ parse_frame_number_from_filename name = Success n
    /\ forall directory,
         generate_frame_path directory n (length directory + 1 + max_len)
         = Some (directory ++ ["/"%char] ++ name).
Proof.
  intros Hn Hlen.
  destruct (format_06u_spec n Hn) as (Hne & Hall & Hv & Hl).
  exists (frame_prefix ++ format_06u n ++ rgb_suffix).
  assert (Hfull : length (frame_prefix ++ format_06u n ++ rgb_suffix)
                  = (10 + length (format_06u n))%nat).
  { rewrite !length_app. cbn [length frame_prefix rgb_suffix]. lia. }
  split.
  { unfold generate_frame_filename, snprintf.
    destruct max_len as [|room]; [lia|].
    rewrite take_ge by lia. reflexivity. }
  split.
  { rewrite parse_decimal_name by assumption. rewrite Hv.
    unfold u32, ULONG_MAX. rewrite Z.min_l by lia.
    rewrite Z.mod_small by lia. reflexivity. }
  intros directory. unfold generate_frame_path, snprintf.
  replace (length directory + 1 + max_len)%nat
    with (S (length directory + max_len)) by lia.
  rewrite take_ge; [reflexivity|].
  rewrite length_app, length_app, Hfull. cbn [length]. lia.
Qed.

Lemma strcmp_eq_length (a b : list ascii) :
  length a <> length b -> strcmp_eq a b = false.
Proof.
  intros Hlen. destruct (strcmp_eq a b) eqn:E; [|reflexivity].
  apply strcmp_eq_spec in E. subst. contradiction.
Qed.

Lemma parse_cut_suffix (digits : list ascii) (j : nat) :
  Forall (fun c => isdigit c = true) digits -> (j < 4)%nat ->
  parse_frame_number_from_filename (frame_prefix ++ digits ++ take j rgb_suffix)
  = Failure GVC_ERROR_FORMAT.
Proof.
  intros Hall Hj. unfold parse_frame_number_from_filename.
  change (take 6 (frame_prefix ++ digits ++ take j rgb_suffix))
    with frame_prefix.
  rewrite strcmp_eq_refl. cbn [negb].
  change (drop 6 (frame_prefix ++ digits ++ take j rgb_suffix))
    with (digits ++ take j rgb_suffix).
  destruct digits as [|c digits].
  - destruct j as [|[|[|[|j]]]]; try lia; reflexivity.
  - rewrite (strtoul_digits (c :: digits) (take j rgb_suffix)
               ltac:(discriminate) Hall).
    2:{ destruct j as [|[|[|[|j]]]]; try lia; first [exact I|reflexivity]. }
    replace (drop (6 + length (c :: digits))
               (frame_prefix ++ (c :: digits) ++ take j rgb_suffix))
      with (take j rgb_suffix).
    2:{ symmetry. rewrite (assoc_L (++)). apply drop_app_length'.
        rewrite length_app. reflexivity. }
    rewrite (strcmp_eq_length (take j rgb_suffix) rgb_suffix).
    + cbn [length Nat.eqb negb orb]. reflexivity.
    + rewrite length_take. cbn [length rgb_suffix]. lia.
Qed.

Lemma parse_cut_digits (digits : list ascii) :
  Forall (fun c => isdigit c = true) digits ->
  parse_frame_number_from_filename (frame_prefix ++ digits)
  = Failure GVC_ERROR_FORMAT.
Proof.
  intros Hall.
  rewrite <- (app_nil_r digits). apply (parse_cut_suffix digits 0 Hall). lia.
Qed.

(** X21: a name that [generate_frame_filename] cuts short, because the buffer
    has room for fewer characters than the name and its NUL, is rejected by
    [parse_frame_number_from_filename] with [GVC_ERROR_FORMAT]. *)
Theorem truncated_filename_rejected (n : Z) (max_len : nat) :
  0 <= n < 2 ^ 32 ->
  (0 < max_len <= 10 + length (format_06u n))%nat ->
  exists name,
    generate_frame_filename n max_len = Some name
    /\ parse_frame_number_from_filename name = Failure GVC_ERROR_FORMAT.
Proof.
  intros Hn Hlen.
  destruct (format_06u_spec n Hn) as (_ & Hall & _ & Hl).
  destruct max_len as [|room]; [lia|].
  eexists. split; [reflexivity|].
  set (digits := format_06u n) in *. clearbody digits.
  destruct (Nat.lt_ge_cases room 6) as [Hshort|Hlong].
  - unfold parse_frame_number_from_filename.
    rewrite strcmp_eq_length; [reflexivity|].
    rewrite !length_take, !length_app. cbn [length frame_prefix rgb_suffix].
    lia.
  - rewrite take_app_ge by (cbn [length frame_prefix]; lia).
    change (length frame_prefix) with 6%nat.
    destruct (Nat.le_gt_cases (room - 6) (length digits)) as [Hin|Hout].
    + rewrite take_app_le by exact Hin.
      apply parse_cut_digits. apply Forall_take. exact Hall.
    + rewrite take_app_ge by lia.
      apply parse_cut_suffix; [exact Hall|lia].
Qed.

Lemma skip_spaces_app (spaces rest : list ascii) :
  Forall (fun c => isspace c = true) spaces ->
  skip_spaces (spaces ++ rest) = skip_spaces rest.
Proof.
  intros Hs. induction Hs as [|c spaces Hc Hs IH]; [reflexivity|].
  cbn [app skip_spaces]. rewrite Hc. exact IH.
Qed.

(** X22: [parse_frame_number_from_filename] accepts white space and a minus
    sign between the prefix and the digits, as [strtoul] does; the frame
    number returned is the negated number reduced modulo 2^32. *)
Theorem parse_accepts_negative (spaces digits : list ascii) :
  Forall (fun c => isspace c = true) spaces ->
  digits <> [] -> Forall (fun c => isdigit c = true) digits ->
  decimal_value digits <= ULONG_MAX ->
  parse_frame_number_from_filename
    (frame_prefix ++ spaces ++ ["-"%char] ++ digits ++ rgb_suffix)
  = Success (u32 (- decimal_value digits)).
Proof.
  intros Hsp Hne Hall Hfit. unfold parse_frame_number_from_filename.
  change (take 6 (frame_prefix ++ ?l)) with frame_prefix.
  rewrite strcmp_eq_refl. cbn [negb].
  change (drop 6 (frame_prefix ++ spaces ++ ["-"%char] ++ digits ++ rgb_suffix))
    with (spaces ++ ["-"%char] ++ digits ++ rgb_suffix).
  unfold strtoul. rewrite skip_spaces_app by exact Hsp.
  cbn [app skip_spaces]. change (isspace "-") with false. cbv iota.
  change (Ascii.eqb "-" "-") with true. cbv iota.
  rewrite (scan_digits_app digits rgb_suffix Hall eq_refl 0 0).
  fold (decimal_value digits).
  destruct digits as [|c digits]; [contradiction|].
  change (0 + length (c :: digits) =? 0)%nat with false. cbv iota.
  replace (length (spaces ++ "-"%char :: (c :: digits) ++ rgb_suffix)
           - length rgb_suffix)%nat
    with (length (spaces ++ "-"%char :: c :: digits)).
  2:{ rewrite !length_app. cbn [length]. rewrite ?length_app.
      change (length rgb_suffix) with 4%nat. cbn [length]. lia. }
  replace (drop (6 + length (spaces ++ "-"%char :: c :: digits))
             (frame_prefix ++ spaces ++ "-"%char :: (c :: digits) ++ rgb_suffix))
    with rgb_suffix.
  2:{ symmetry.
      change (frame_prefix ++ spaces ++ "-"%char :: (c :: digits) ++ rgb_suffix)
        with (frame_prefix ++ spaces ++ ("-"%char :: c :: digits) ++ rgb_suffix).
      rewrite !(assoc_L (++)). apply drop_app_length'.
      rewrite <- (assoc_L (++)), !length_app. reflexivity. }
  rewrite strcmp_eq_refl.
  replace (length (spaces ++ "-"%char :: c :: digits) =? 0)%nat with false.
  2:{ symmetry. apply Nat.eqb_neq. rewrite length_app. cbn [length]. lia. }
  cbn [negb orb].
  destruct (Z.gtb_spec (decimal_value (c :: digits)) ULONG_MAX); [lia|].
  f_equal. unfold u32.
  pose proof (decimal_value_nonneg (c :: digits) Hall 0 ltac:(lia)) as Hpos.
  fold (decimal_value (c :: digits)) in Hpos.
  unfold ULONG_MAX in *.
  Z.div_mod_to_equations. lia.
Qed.

(** ** The blob cache *)

Lemma entry_test (key : list ascii) (entry : blob_cache_entry_t) :
  negb (valid entry =? 0) && strcmp_eq (oid_str entry) key = true
  <-> entry_matches key entry.
Proof.
  unfold entry_matches.
  rewrite andb_true_iff, negb_true_iff, Z.eqb_neq, strcmp_eq_spec. tauto.
Qed.

Lemma find_blob_scan_hit (st : cache_state) (key : list ascii) :
  forall remaining i,
    find_blob_scan remaining st key i <> 0 ->
    exists j, (i <= j < i + remaining)%nat
              /\ entry_matches key (blob_cache st !!! j)
              /\ blob (blob_cache st !!! j) = find_blob_scan remaining st key i.
Proof.
  induction remaining as [|remaining IH]; intros i; cbn [find_blob_scan];
    [contradiction|].
  destruct (negb _ && _) eqn:Htest.
  - intros _. exists i. split; [lia|]. split; [|reflexivity].
    apply entry_test. exact Htest.
  - intros Hnz. destruct (IH (S i) Hnz) as (j & Hj & Hm & Hb).
    exists j. split; [lia|]. split; assumption.
Qed.

Lemma find_blob_scan_only (st : cache_state) (key : list ascii) (s : nat) :
  entry_matches key (blob_cache st !!! s) ->
  (forall j, j <> s -> ~ entry_matches key (blob_cache st !!! j)) ->
  forall remaining i,
    (i <= s < i + remaining)%nat ->
    find_blob_scan remaining st key i = blob (blob_cache st !!! s).
Proof.
  intros Hs Hother.
  induction remaining as [|remaining IH]; intros i Hi; [lia|].
  cbn [find_blob_scan].
  destruct (negb _ && _) eqn:Htest.
  - apply entry_test in Htest.
    destruct (decide (i = s)) as [->|Hne]; [reflexivity|].
    exfalso. exact (Hother i Hne Htest).
  - destruct (decide (i = s)) as [->|Hne].
    + apply entry_test in Hs. congruence.
    + apply IH. lia.
Qed.

Lemma find_blob_scan_none (st : cache_state) (key : list ascii) :
  (forall j, ~ entry_matches key (blob_cache st !!! j)) ->
  forall remaining i, find_blob_scan remaining st key i = 0.
Proof.
  intros Hnone. induction remaining as [|remaining IH]; intros i;
    cbn [find_blob_scan]; [reflexivity|].
  destruct (negb _ && _) eqn:Htest; [|apply IH].
  apply entry_test in Htest. exfalso. exact (Hnone i Htest).
Qed.

Lemma insert_lookup_total_cases (l : list blob_cache_entry_t) (s j : nat)
    (e : blob_cache_entry_t) :
  <[s := e]> l !!! j = e \/ <[s := e]> l !!! j = l !!! j.
Proof.
  rewrite list_lookup_total_insert. destruct (decide _); auto.
Qed.

Section RepositoryReads.
Context (odb_lookup : list ascii -> option Z).
Context (blob_content : Z -> list Z).
Context (Hodb : forall commit_hash handle,
            odb_lookup commit_hash = Some handle ->
            length commit_hash = GIT_OID_HEXSZ /\ handle <> 0).

Lemma empty_cache_coherent : cache_coherent odb_lookup empty_cache.
Proof.
  intros j. unfold empty_cache. cbn [blob_cache].
  rewrite list_lookup_total_alt.
  destruct (replicate _ _ !! j) as [e|] eqn:He; cbn [default].
  - apply lookup_replicate in He as [-> _]. contradiction.
  - contradiction.
Qed.

Lemma add_blob_coherent (st : cache_state) (commit_hash : list ascii)
    (handle : Z) :
  cache_coherent odb_lookup st -> odb_lookup commit_hash = Some handle ->
  cache_coherent odb_lookup (add_blob_to_cache st commit_hash handle).
Proof.
  intros Hst Hlook j. unfold add_blob_to_cache. cbn [blob_cache].
  destruct (insert_lookup_total_cases (blob_cache st) (cache_write_pos st) j
              {| oid_str := take GIT_OID_HEXSZ commit_hash;
                 blob := handle; valid := 1 |}) as [-> | ->].
  - cbn [valid oid_str blob]. intros _.
    destruct (Hodb _ _ Hlook) as [Hlen _].
    rewrite take_ge by lia. exact Hlook.
  - apply Hst.
Qed.

Lemma git_read_blob_coherent (st : cache_state) (commit_hash : list ascii) :
  cache_coherent odb_lookup st ->
  cache_coherent odb_lookup
    (git_read_blob_libgit2 odb_lookup blob_content st commit_hash).1
  /\ (git_read_blob_libgit2 odb_lookup blob_content st commit_hash).2
     = uncached_read odb_lookup blob_content commit_hash.
Proof.
  intros Hst. unfold git_read_blob_libgit2, uncached_read.
  destruct (Z.eqb_spec (find_blob_in_cache st commit_hash) 0) as [Hmiss|Hhit];
    cbn [negb].
  - destruct (odb_lookup commit_hash) as [handle|] eqn:Hlook; cbn [fst snd].
    + split; [apply add_blob_coherent; assumption|reflexivity].
    + split; [exact Hst|reflexivity].
  - cbn [fst snd]. split; [exact Hst|].
    destruct (find_blob_scan_hit st commit_hash _ _ Hhit)
      as (j & _ & [Hvalid Hkey] & Hblob).
    pose proof (Hst j Hvalid) as Hlook. rewrite Hkey, Hblob in Hlook.
    fold (find_blob_in_cache st commit_hash) in Hlook.
    rewrite Hlook. reflexivity.
Qed.

Lemma read_commits_coherent (commit_hashes : list (list ascii)) :
  forall st,
    cache_coherent odb_lookup st ->
    (read_commits odb_lookup blob_content st commit_hashes).2
    = map (uncached_read odb_lookup blob_content) commit_hashes.
Proof.
  induction commit_hashes as [|commit_hash rest IH]; intros st Hst;
    [reflexivity|].
  cbn [read_commits map].
  destruct (git_read_blob_coherent st commit_hash Hst) as [Hst1 Hres].
  destruct (git_read_blob_libgit2 _ _ st commit_hash) as [st1 result].
  cbn [fst snd] in Hst1, Hres.
  specialize (IH st1 Hst1).
  destruct (read_commits _ _ st1 rest) as [st2 results].
  cbn [snd] in *. rewrite Hres, IH. reflexivity.
Qed.

End RepositoryReads.

(** X23: the blob cache is transparent: starting from the empty cache and
    with no prefetch thread running, reading any list of commits through
    [git_read_blob_libgit2] returns for each commit what the repository
    holds for it, [GVC_ERROR_GIT] where the lookup fails, provided lookups
    succeed only on 40-character names and give non-null handles. *)
Theorem blob_cache_transparent (odb_lookup : list ascii -> option Z)
    (blob_content : Z -> list Z) (commit_hashes : list (list ascii)) :
  (forall commit_hash handle,
      odb_lookup commit_hash = Some handle ->
      length commit_hash = GIT_OID_HEXSZ /\ handle <> 0) ->
  (read_commits odb_lookup blob_content empty_cache commit_hashes).2
  = map (uncached_read odb_lookup blob_content) commit_hashes.
Proof.
  intros Hodb. apply read_commits_coherent; [exact Hodb|].
  apply empty_cache_coherent.
Qed.

(** *** How long an entry stays *)

Lemma slot_after (s m : nat) :
  (s < 32)%nat -> (m < 31)%nat -> ((s + 1 + m) mod 32)%nat <> s.
Proof.
  intros Hs Hm Heq. apply (f_equal Z.of_nat) in Heq.
  rewrite Nat2Z.inj_mod in Heq.
  replace (Z.of_nat (s + 1 + m)) with (Z.of_nat s + 1 + Z.of_nat m) in Heq
    by lia.
  change (Z.of_nat 32) with 32 in Heq.
  revert Heq. Z.div_mod_to_equations. lia.
Qed.

Lemma slot_wraps (s : nat) : (s < 32)%nat -> ((s + 1 + 31) mod 32)%nat = s.
Proof.
  intros Hs. apply Nat2Z.inj. rewrite Nat2Z.inj_mod.
  replace (Z.of_nat (s + 1 + 31)) with (Z.of_nat s + 32) by lia.
  change (Z.of_nat 32) with 32. Z.div_mod_to_equations. lia.
Qed.

Lemma slot_next (s m : nat) :
  (((s + 1 + m) mod 32 + 1) mod 32)%nat = ((s + 1 + S m) mod 32)%nat.
Proof.
  apply Nat2Z.inj. rewrite !Nat2Z.inj_mod.
  replace (Z.of_nat ((s + 1 + m) mod 32 + 1))
    with (Z.of_nat ((s + 1 + m) mod 32) + 1) by lia.
  rewrite Nat2Z.inj_mod.
  replace (Z.of_nat (s + 1 + S m)) with (Z.of_nat (s + 1 + m) + 1) by lia.
  change (Z.of_nat 32) with 32. Z.div_mod_to_equations. lia.
Qed.

Section EntryLifetime.
Context (key : list ascii) (handle : Z) (s : nat).
Context (Hs : (s < PREFETCH_CACHE_SIZE)%nat).

Local Abbreviation aged := (entry_aged key handle s).

Lemma aged_step (m : nat) (st : cache_state) (other : list ascii) (b : Z) :
  aged m st -> take GIT_OID_HEXSZ other <> key ->
  aged (S m) (add_blob_to_cache st other b).
Proof.
  unfold entry_aged, PREFETCH_CACHE_SIZE in *.
  intros (Hlen & Hpos & Hother & Hyoung & Hold) Hne.
  unfold entry_aged, add_blob_to_cache, PREFETCH_CACHE_SIZE.
  cbn [blob_cache cache_write_pos].
  assert (Hnew : ~ entry_matches key
                   {| oid_str := take GIT_OID_HEXSZ other; blob := b;
                      valid := 1 |}).
  { intros [_ Hk]. cbn [oid_str] in Hk. contradiction. }
  split; [rewrite length_insert; exact Hlen|].
  split; [rewrite Hpos; apply slot_next|].
  split.
  { intros j Hj.
    destruct (insert_lookup_total_cases (blob_cache st) (cache_write_pos st) j
                {| oid_str := take GIT_OID_HEXSZ other; blob := b;
                   valid := 1 |}) as [-> | ->]; [exact Hnew|].
    apply Hother. exact Hj. }
  split.
  - intros Hm. rewrite list_lookup_total_insert_ne.
    + apply Hyoung. lia.
    + rewrite Hpos. apply slot_after; lia.
  - intros Hm.
    destruct (insert_lookup_total_cases (blob_cache st) (cache_write_pos st) s
                {| oid_str := take GIT_OID_HEXSZ other; blob := b;
                   valid := 1 |}) as [-> | Hsame]; [exact Hnew|].
    rewrite Hsame.
    destruct (decide (m = 31%nat)) as [->|Hm'].
    + exfalso. rewrite Hpos, slot_wraps in Hsame by exact Hs.
      rewrite list_lookup_total_insert in Hsame.
      destruct (decide _) as [_|Hno]; [|apply Hno; split; [reflexivity|lia]].
      rewrite <- Hsame in Hyoung. specialize (Hyoung ltac:(lia)).
      apply (f_equal oid_str) in Hyoung. cbn [oid_str] in Hyoung.
      contradiction.
    + apply Hold. lia.
Qed.

Lemma aged_additions (additions : list (list ascii * Z)) :
  Forall (fun addition => take GIT_OID_HEXSZ addition.1 <> key) additions ->
  forall m st,
    aged m st -> aged (m + length additions) (add_blobs st additions).
Proof.
  intros Hall. induction Hall as [|[other b] additions Hne Hall IH];
    intros m st Hst.
  - cbn [length add_blobs foldl]. rewrite Nat.add_0_r. exact Hst.
  - cbn [length]. replace (m + S (length additions))%nat
      with (S m + length additions)%nat by lia.
    apply (IH (S m)). apply aged_step; assumption.
Qed.

Lemma aged_find (m : nat) (st : cache_state) :
  aged m st ->
  find_blob_in_cache st key = if (m <? 32)%nat then handle else 0.
Proof.
  unfold entry_aged, PREFETCH_CACHE_SIZE in *.
  intros (Hlen & Hpos & Hother & Hyoung & Hold). unfold find_blob_in_cache.
  destruct (Nat.ltb_spec m 32) as [Hm|Hm].
  - specialize (Hyoung Hm).
    rewrite (find_blob_scan_only st key s).
    + rewrite Hyoung. reflexivity.
    + rewrite Hyoung. split; [discriminate|reflexivity].
    + exact Hother.
    + unfold PREFETCH_CACHE_SIZE in *. lia.
  - apply find_blob_scan_none. intros j.
    destruct (decide (j = s)) as [->|Hj]; [apply Hold; exact Hm|].
    apply Hother. exact Hj.
Qed.

End EntryLifetime.

(** X24: an entry [add_blob_to_cache] stores under a key that was not cached
    is found by [find_blob_in_cache] during the next 31 additions of other
    keys, and is no longer found from the 32nd on. *)
Theorem cache_entry_lifetime (st : cache_state) (key : list ascii)
    (handle : Z) (additions : list (list ascii * Z)) :
  cache_shape st -> (length key <= GIT_OID_HEXSZ)%nat ->
  (forall j, ~ entry_matches key (blob_cache st !!! j)) ->
  Forall (fun addition => take GIT_OID_HEXSZ addition.1 <> key) additions ->
  find_blob_in_cache
    (add_blobs (add_blob_to_cache st key handle) additions) key
  = if (length additions <? 32)%nat then handle else 0.
Proof.
  intros [Hlen Hpos] Hkey Hfresh Hall.
  apply (aged_find key handle (cache_write_pos st) Hpos (length additions)).
  apply (aged_additions key handle (cache_write_pos st) Hpos additions Hall 0).
  unfold entry_aged, add_blob_to_cache. cbn [blob_cache cache_write_pos].
  split; [rewrite length_insert; exact Hlen|].
  split.
  { rewrite Nat.add_0_r. reflexivity. }
  split.
  { intros j Hj. rewrite list_lookup_total_insert_ne by congruence.
    apply Hfresh. }
  split.
  - intros _. rewrite list_lookup_total_insert.
    destruct (decide _) as [_|Hno]; [|exfalso; apply Hno; split; [reflexivity|]].
    + rewrite take_ge by exact Hkey. reflexivity.
    + rewrite Hlen. exact Hpos.
  - lia.
Qed.

(** *** Every handle is released once *)

Lemma live_blobs_omap (st : cache_state) :
  live_blobs st = omap live_handle (blob_cache st).
Proof. reflexivity. Qed.

Lemma invalidated_not_live (entry : blob_cache_entry_t) :
  live_handle (invalidated entry) = None.
Proof.
  unfold live_handle, invalidated.
  destruct (negb (valid entry =? 0) && negb (blob entry =? 0)) eqn:E;
    [reflexivity|rewrite E; reflexivity].
Qed.

Lemma split_at_slot (l : list blob_cache_entry_t) (s : nat) :
  (s < length l)%nat -> l = take s l ++ l !!! s :: drop (S s) l.
Proof.
  intros Hs. symmetry. apply take_drop_middle.
  apply list_lookup_lookup_total_lt. exact Hs.
Qed.

Lemma add_blob_accounts (st : cache_state) (key : list ascii) (handle : Z) :
  cache_shape st -> handle <> 0 ->
  cache_shape (add_blob_to_cache st key handle)
  /\ freed (add_blob_to_cache st key handle)
     ++ live_blobs (add_blob_to_cache st key handle)
     ≡ₚ handle :: freed st ++ live_blobs st.
Proof.
  unfold cache_shape, PREFETCH_CACHE_SIZE. intros [Hlen Hpos] Hnz.
  split.
  { unfold add_blob_to_cache. cbn [blob_cache cache_write_pos].
    rewrite length_insert. split; [exact Hlen|].
    apply Nat.mod_upper_bound. discriminate. }
  rewrite !live_blobs_omap.
  unfold add_blob_to_cache. cbn [blob_cache freed].
  set (s := cache_write_pos st) in *.
  set (l := blob_cache st) in *.
  pose proof (split_at_slot l s ltac:(lia)) as Hsplit.
  rewrite insert_take_drop by lia.
  replace (omap live_handle l)
    with (omap live_handle (take s l ++ l !!! s :: drop (S s) l))
    by (rewrite <- Hsplit; reflexivity).
  assert (Hfreed : (if negb (valid (l !!! s) =? 0) && negb (blob (l !!! s) =? 0)
                    then blob (l !!! s) :: freed st else freed st)
                   = match live_handle (l !!! s) with
                     | Some b => b :: freed st
                     | None => freed st
                     end).
  { unfold live_handle. destruct (negb _ && negb _); reflexivity. }
  rewrite Hfreed, !omap_app. cbn [omap list_omap].
  change (live_handle {| oid_str := take GIT_OID_HEXSZ key; blob := handle;
                         valid := 1 |})
    with (if negb (handle =? 0) then Some handle else None).
  replace (handle =? 0) with false by (symmetry; apply Z.eqb_neq; exact Hnz).
  cbn [negb].
  destruct (live_handle (l !!! s)) as [b|].
  - cbn [app]. rewrite <- !Permutation_middle. apply perm_swap.
  - rewrite <- !Permutation_middle. reflexivity.
Qed.

Lemma add_blobs_accounts (additions : list (list ascii * Z)) :
  Forall (fun addition => addition.2 <> 0) additions ->
  forall st,
    cache_shape st ->
    cache_shape (add_blobs st additions)
    /\ freed (add_blobs st additions) ++ live_blobs (add_blobs st additions)
       ≡ₚ rev additions.*2 ++ freed st ++ live_blobs st.
Proof.
  intros Hall. induction Hall as [|[key handle] additions Hnz Hall IH];
    intros st Hst.
  - split; [exact Hst|reflexivity].
  - cbn [add_blobs foldl fmap list_fmap rev snd].
    destruct (add_blob_accounts st key handle Hst Hnz) as [Hst1 Hacc].
    destruct (IH _ Hst1) as [Hst2 Hacc2].
    split; [exact Hst2|].
    unfold add_blobs in Hacc2. cbn [fst snd] in *.
    rewrite Hacc2, Hacc. rewrite <- (assoc_L (++)). cbn [app].
    rewrite <- Permutation_middle. reflexivity.
Qed.

Lemma cleanup_scan_spec :
  forall remaining st i,
    (i + remaining = length (blob_cache st))%nat ->
    blob_cache (cleanup_scan remaining st i)
    = take i (blob_cache st) ++ map invalidated (drop i (blob_cache st))
    /\ freed (cleanup_scan remaining st i)
       = rev (omap live_handle (drop i (blob_cache st))) ++ freed st.
Proof.
  induction remaining as [|remaining IH]; intros st i Hlen;
    cbn [cleanup_scan].
  - rewrite drop_ge by lia. rewrite take_ge by lia.
    cbn [map omap rev app]. rewrite app_nil_r. split; reflexivity.
  - set (l := blob_cache st) in *.
    pose proof (split_at_slot l i ltac:(lia)) as Hsplit.
    assert (Hdrop : drop i l = l !!! i :: drop (S i) l).
    { rewrite Hsplit at 1. rewrite drop_app_length'; [reflexivity|].
      rewrite length_take. lia. }
    rewrite Hdrop. cbn [map omap list_omap].
    match goal with |- context [cleanup_scan remaining ?s (S i)] =>
      set (st1 := s) end.
    assert (Hcache1 : blob_cache st1 = <[i := invalidated (l !!! i)]> l).
    { subst st1. unfold invalidated.
      destruct (negb _ && negb _); cbn [blob_cache]; [reflexivity|].
      fold l. rewrite list_insert_id; [reflexivity|].
      apply list_lookup_lookup_total_lt. lia. }
    assert (Hfreed1 : freed st1
                      = match live_handle (l !!! i) with
                        | Some b => b :: freed st
                        | None => freed st
                        end).
    { subst st1. unfold live_handle.
      destruct (negb _ && negb _); reflexivity. }
    destruct (IH st1 (S i)) as [Hc Hf].
    { rewrite Hcache1, length_insert. lia. }
    rewrite Hc, Hf, Hcache1, Hfreed1.
    rewrite insert_take_drop by lia.
    split.
    + rewrite cons_middle, (assoc_L (++)).
      rewrite take_app_length'
        by (rewrite length_app, length_take; cbn [length]; lia).
      rewrite (drop_app_length' _ _ (S i))
        by (rewrite length_app, length_take; cbn [length]; lia).
      rewrite <- (assoc_L (++)). reflexivity.
    + rewrite cons_middle, (assoc_L (++)).
      rewrite (drop_app_length' _ _ (S i))
        by (rewrite length_app, length_take; cbn [length]; lia).
      destruct (live_handle (l !!! i)) as [b|]; [|reflexivity].
      cbn [rev]. rewrite <- (assoc_L (++)). reflexivity.
Qed.

(** X25: every non-null handle stored by [add_blob_to_cache] since
    [git_init_libgit2] has been released exactly once, on eviction or by
    [git_cleanup_libgit2], when the cleanup has run, and no cache entry is
    valid then. *)
Theorem blob_cache_frees_each_handle_once
    (additions : list (list ascii * Z)) :
  Forall (fun addition => addition.2 <> 0) additions ->
  freed (git_cleanup_libgit2 (add_blobs empty_cache additions))
  ≡ₚ additions.*2
  /\ live_blobs (git_cleanup_libgit2 (add_blobs empty_cache additions)) = [].
Proof.
  intros Hall.
  assert (Hempty : cache_shape empty_cache).
  { split; [apply length_replicate|]. unfold PREFETCH_CACHE_SIZE. cbn. lia. }
  destruct (add_blobs_accounts additions Hall empty_cache Hempty)
    as [[Hlen _] Hacc].
  assert (Hnone : live_blobs empty_cache = []) by reflexivity.
  rewrite Hnone in Hacc. cbn [freed empty_cache] in Hacc.
  rewrite !app_nil_r in Hacc.
  unfold git_cleanup_libgit2.
  generalize dependent (add_blobs empty_cache additions). intros st Hlen Hacc.
  assert (Hl0 : (0 + PREFETCH_CACHE_SIZE = length (blob_cache st))%nat).
  { rewrite Hlen. reflexivity. }
  destruct (cleanup_scan_spec PREFETCH_CACHE_SIZE st 0 Hl0) as [Hc Hf].
  rewrite take_0, drop_0 in Hc. rewrite drop_0 in Hf. cbn [app] in Hc.
  split.
  - rewrite Hf. rewrite <- Permutation_rev.
    change (omap live_handle (blob_cache st)) with (live_blobs st).
    rewrite (Permutation_app_comm (live_blobs st)).
    rewrite Hacc. rewrite <- Permutation_rev. reflexivity.
  - rewrite live_blobs_omap, Hc. clear.
    induction (blob_cache st) as [|e l IH]; [reflexivity|].
    cbn [map omap list_omap]. rewrite invalidated_not_live. exact IH.
Qed.

(** ** The frame buffer *)

Lemma ring_index_distinct (r k n : nat) :
  (r < 16)%nat -> (k < n)%nat -> (n < 16)%nat ->
  ((r + k) mod 16)%nat <> ((r + n) mod 16)%nat.
Proof.
  intros Hr Hk Hn Heq. apply (f_equal Z.of_nat) in Heq.
  rewrite !Nat2Z.inj_mod, !Nat2Z.inj_add in Heq.
  change (Z.of_nat 16) with 16 in Heq.
  revert Heq. Z.div_mod_to_equations. lia.
Qed.

Lemma ring_index_next (r n : nat) :
  (((r + n) mod 16 + 1) mod 16)%nat = ((r + S n) mod 16)%nat.
Proof.
  apply Nat2Z.inj. rewrite !Nat2Z.inj_mod, Nat2Z.inj_add, Nat2Z.inj_mod.
  rewrite !Nat2Z.inj_add, Nat2Z.inj_succ.
  change (Z.of_nat 16) with 16. change (Z.of_nat 1) with 1.
  Z.div_mod_to_equations. lia.
Qed.

Lemma ring_index_shift (r k : nat) :
  (((r + 1) mod 16 + k) mod 16)%nat = ((r + S k) mod 16)%nat.
Proof.
  apply Nat2Z.inj. rewrite !Nat2Z.inj_mod, Nat2Z.inj_add, Nat2Z.inj_mod.
  rewrite !Nat2Z.inj_add, Nat2Z.inj_succ.
  change (Z.of_nat 16) with 16. change (Z.of_nat 1) with 1.
  Z.div_mod_to_equations. lia.
Qed.

Lemma ring_index_bound (r : nat) : ((r + 1) mod 16 < 16)%nat.
Proof. apply Nat.mod_upper_bound. discriminate. Qed.

Lemma empty_buffer_holds : buffer_holds empty_buffer [].
Proof.
  unfold buffer_holds, empty_buffer, FRAME_BUFFER_SIZE.
  cbn [frame_buffer buffer_read_pos buffer_write_pos buffer_count length].
  repeat split; try reflexivity; lia.
Qed.

Lemma buffer_put_holds (st : frame_buffer_state) (queue : list raw_frame_t)
    (frame stored : raw_frame_t) :
  buffer_holds st queue -> should_exit st = false ->
  copy_raw_frame frame = Success stored ->
  if (length queue <? FRAME_BUFFER_SIZE)%nat then
    exists st',
      buffer_put_frame st frame = Returns (Success st')
      /\ should_exit st' = false
      /\ buffer_holds st' (queue ++ [stored])
  else buffer_put_frame st frame = Waits.
Proof.
  unfold buffer_holds, FRAME_BUFFER_SIZE.
  intros (Hlen & Hr & Hcount & Hcap & Hw & Hslots) Hexit Hcopy.
  unfold buffer_put_frame, FRAME_BUFFER_SIZE. rewrite Hexit, Hcount.
  cbn [negb]. rewrite andb_true_r.
  destruct (Nat.ltb_spec (length queue) 16) as [Hroom|Hfull].
  - replace (16 <=? length queue)%nat with false
      by (symmetry; apply Nat.leb_gt; exact Hroom).
    rewrite Hcopy. cbn [mbind outcome_bind].
    eexists. split; [reflexivity|].
    cbn [should_exit frame_buffer buffer_read_pos buffer_write_pos
         buffer_count].
    split; [reflexivity|].
    rewrite length_app, length_insert. cbn [length].
    split; [exact Hlen|]. split; [exact Hr|].
    split; [lia|]. split; [lia|].
    split.
    + rewrite Hw. replace (length queue + 1)%nat with (S (length queue))
        by lia.
      apply ring_index_next.
    + intros k Hk. rewrite Hw.
      destruct (decide (k = length queue)) as [->|Hne].
      * rewrite list_lookup_total_insert.
        destruct (decide _) as [_|Hno].
        -- rewrite lookup_total_app_r by lia.
           rewrite Nat.sub_diag. reflexivity.
        -- exfalso. apply Hno. split; [reflexivity|].
           rewrite Hlen. apply Nat.mod_upper_bound. discriminate.
      * rewrite list_lookup_total_insert_ne
          by (apply not_eq_sym, ring_index_distinct; lia).
        rewrite lookup_total_app_l by lia. apply Hslots. lia.
  - replace (16 <=? length queue)%nat with true
      by (symmetry; apply Nat.leb_le; exact Hfull).
    reflexivity.
Qed.

Lemma buffer_get_holds (st : frame_buffer_state) (queue : list raw_frame_t) :
  buffer_holds st queue -> should_exit st = false ->
  match queue with
  | [] => buffer_get_frame st = Waits
  | frame :: rest =>
      exists st',
        buffer_get_frame st = Returns (st', Success frame)
        /\ should_exit st' = false
        /\ buffer_holds st' rest
  end.
Proof.
  unfold buffer_holds, FRAME_BUFFER_SIZE.
  intros (Hlen & Hr & Hcount & Hcap & Hw & Hslots) Hexit.
  unfold buffer_get_frame, FRAME_BUFFER_SIZE. rewrite Hexit, Hcount.
  destruct queue as [|frame rest]; [reflexivity|].
  cbn [length Nat.eqb andb negb pred].
  eexists. split.
  { f_equal. f_equal. f_equal.
    specialize (Hslots 0%nat ltac:(cbn [length]; lia)).
    rewrite Nat.add_0_r, Nat.mod_small in Hslots by exact Hr.
    exact Hslots. }
  cbn [should_exit frame_buffer buffer_read_pos buffer_write_pos buffer_count].
  split; [reflexivity|].
  cbn [length] in *.
  split; [exact Hlen|]. split; [apply ring_index_bound|].
  split; [reflexivity|]. split; [lia|].
  split.
  - rewrite Hw, ring_index_shift. reflexivity.
  - intros k Hk. rewrite ring_index_shift.
    rewrite (Hslots (S k)) by lia. reflexivity.
Qed.

(** X26: the ring buffer of the player is a first-in first-out queue of at
    most 16 frames: it starts empty; while [should_exit] is clear,
    [buffer_put_frame] appends a copy of the frame, or waits when 16 frames
    are queued, and [buffer_get_frame] returns the oldest frame, or waits when
    none is queued. *)
Theorem frame_buffer_is_bounded_queue (st : frame_buffer_state)
    (queue : list raw_frame_t) (frame stored : raw_frame_t) :
  buffer_holds st queue -> should_exit st = false ->
  copy_raw_frame frame = Success stored ->
  buffer_holds empty_buffer []
  /\ (if (length queue <? FRAME_BUFFER_SIZE)%nat then
        exists st',
          buffer_put_frame st frame = Returns (Success st')
          /\ should_exit st' = false
          /\ buffer_holds st' (queue ++ [stored])
      else buffer_put_frame st frame = Waits)
  /\ match queue with
     | [] => buffer_get_frame st = Waits
     | oldest :: rest =>
         exists st',
           buffer_get_frame st = Returns (st', Success oldest)
           /\ should_exit st' = false
           /\ buffer_holds st' rest
     end.
Proof.
  intros Hst Hexit Hcopy.
  split; [exact empty_buffer_holds|]. split.
  - exact (buffer_put_holds st queue frame stored Hst Hexit Hcopy).
  - exact (buffer_get_holds st queue Hst Hexit).
Qed.

(** X27: the cleanup loop at the end of [play_from_stdin] frees none of the
    queued frames: [should_exit] has been set, so the first [buffer_get_frame]
    returns [GVC_ERROR_IO] and the buffer still holds the whole queue. *)
Theorem shutdown_leaves_queue (st : frame_buffer_state)
    (queue : list raw_frame_t) :
  buffer_holds st queue ->
  exists st',
    play_from_stdin_shutdown st = Some (st', [])
    /\ should_exit st' = true
    /\ buffer_holds st' queue.
Proof.
  intros Hst. unfold play_from_stdin_shutdown.
  exists {| frame_buffer := frame_buffer st;
            buffer_read_pos := buffer_read_pos st;
            buffer_write_pos := buffer_write_pos st;
            buffer_count := buffer_count st;
            should_exit := true |}.
  split.
  - generalize (buffer_count st) at 1. intros fuel.
    destruct fuel; cbn [drain_buffer]; unfold buffer_get_frame;
      cbn [should_exit negb]; rewrite andb_false_r; reflexivity.
  - split; [reflexivity|]. exact Hst.
Qed.

(** ** The test pattern *)

Lemma flat_map_chunks_length {A} (m : nat) (c : nat -> list A) (n : nat) :
  (forall i, length (c i) = m) ->
  length (flat_map c (seq 0 n)) = (m * n)%nat.
Proof.
  intros Hc. induction n as [|n IH]; [cbn; lia|].
  rewrite seq_S, flat_map_app, length_app, IH. cbn [flat_map Nat.add].
  rewrite app_nil_r, Hc. lia.
Qed.

Lemma foldl_store_chunks (m off L : nat) (c : nat -> list Z)
    (store : list Z -> nat -> list Z) :
  (forall i, length (c i) = m) ->
  (forall buf i,
      length buf = L -> (off + m * S i <= L)%nat ->
      store buf i = take (off + m * i) buf ++ c i ++ drop (off + m * S i) buf) ->
  forall n buf,
    length buf = L -> (off + m * n <= L)%nat ->
    foldl store buf (seq 0 n)
    = take off buf ++ flat_map c (seq 0 n) ++ drop (off + m * n) buf.
Proof.
  intros Hc Hstore. induction n as [|n IH]; intros buf HL Hlen.
  - cbn [seq foldl flat_map app]. rewrite Nat.mul_0_r, Nat.add_0_r.
    rewrite take_drop. reflexivity.
  - rewrite seq_S, foldl_app. cbn [foldl Nat.add].
    rewrite IH by (try assumption; lia).
    pose proof (flat_map_chunks_length m c n Hc) as Hfl.
    assert (Hpre : length (take off buf ++ flat_map c (seq 0 n))
                   = (off + m * n)%nat).
    { rewrite length_app, length_take, Hfl. lia. }
    rewrite Hstore; [|rewrite !length_app, length_take, Hfl, length_drop; lia
                     |exact Hlen].
    rewrite (assoc_L (++) (take off buf)).
    rewrite take_app_length' by (symmetry; exact Hpre).
    replace (off + m * S n)%nat with ((off + m * n) + m)%nat by lia.
    rewrite <- drop_drop.
    rewrite (drop_app_length' _ _ (off + m * n)) by (symmetry; exact Hpre).
    rewrite drop_drop.
    rewrite flat_map_app. cbn [flat_map]. rewrite app_nil_r.
    rewrite <- !(assoc_L (++)). reflexivity.
Qed.

Lemma store_three (buf : list Z) (i : nat) (r g b : Z) :
  (i + 3 <= length buf)%nat ->
  <[(i + 2)%nat := b]> (<[(i + 1)%nat := g]> (<[i := r]> buf))
  = take i buf ++ [r; g; b] ++ drop (i + 3) buf.
Proof.
  intros Hlen.
  pose proof (take_drop i buf) as Hsplit.
  assert (Ht : length (take i buf) = i) by (rewrite length_take; lia).
  assert (Hd : (3 <= length (drop i buf))%nat) by (rewrite length_drop; lia).
  replace (drop (i + 3) buf) with (drop 3 (drop i buf))
    by (rewrite drop_drop; reflexivity).
  revert Hsplit Ht Hd.
  generalize (drop i buf). generalize (take i buf).
  intros A D <- HA HD. clear Hlen.
  destruct D as [|x0 [|x1 [|x2 rest]]]; cbn [length] in HD; try lia.
  rewrite (insert_app_r_alt _ _ i) by lia.
  rewrite (insert_app_r_alt _ _ (i + 1)) by lia.
  rewrite (insert_app_r_alt _ _ (i + 2)) by lia.
  rewrite HA.
  replace (i - i)%nat with 0%nat by lia.
  replace (i + 1 - i)%nat with 1%nat by lia.
  replace (i + 2 - i)%nat with 2%nat by lia.
  reflexivity.
Qed.

Lemma frame_dimensions :
  exists W H,
    Z.to_nat FRAME_WIDTH = W /\ Z.to_nat FRAME_HEIGHT = H
    /\ Z.of_nat W = 1920 /\ Z.of_nat H = 1080.
Proof.
  exists (Z.to_nat FRAME_WIDTH), (Z.to_nat FRAME_HEIGHT).
  repeat split; apply Z2Nat.id; unfold FRAME_WIDTH, FRAME_HEIGHT; lia.
Qed.

Lemma generate_test_frame_pixels (frame_number : Z) (heap : list Z) :
  Z.of_nat (length heap) = 6220800 ->
  pixels (generate_test_frame frame_number heap) = test_pattern frame_number.
Proof.
  intros Hheap. unfold generate_test_frame, test_pattern. cbn [pixels].
  unfold test_frame_loops.
  destruct frame_dimensions as (W & H & -> & -> & HW & HH).
  assert (Hrow : forall y, length (flat_map (test_pixel frame_number y)
                                     (seq 0 W)) = (3 * W)%nat).
  { intros y. apply flat_map_chunks_length. reflexivity. }
  rewrite (foldl_store_chunks (3 * W) 0 (length heap)
             (fun y => flat_map (test_pixel frame_number y) (seq 0 W))).
  - rewrite take_0, drop_ge by lia. cbn [app]. apply app_nil_r.
  - exact Hrow.
  - intros buf y HL Hlen. cbn [Nat.add] in *.
    rewrite (foldl_store_chunks 3 (3 * W * y) (length heap)
               (test_pixel frame_number y)).
    + replace (3 * W * y + 3 * W)%nat with (3 * W * S y)%nat by lia.
      reflexivity.
    + reflexivity.
    + intros buf' x HL' Hlen'. unfold store_test_pixel. cbv zeta.
      assert (Hidx : Z.to_nat (u32 ((Z.of_nat y * FRAME_WIDTH + Z.of_nat x)
                                    * FRAME_CHANNELS))
                     = (3 * W * y + 3 * x)%nat).
      { unfold u32, FRAME_WIDTH, FRAME_CHANNELS.
        rewrite Z.mod_small by nia. nia. }
      rewrite Hidx.
      rewrite store_three by lia.
      replace (3 * W * y + 3 * x + 3)%nat with (3 * W * y + 3 * S x)%nat
        by lia.
      reflexivity.
    + exact HL.
    + lia.
  - reflexivity.
  - lia.
Qed.

Lemma lookup_flat_map_chunks (m : nat) (c : nat -> list Z) :
  (forall i, length (c i) = m) ->
  forall n i j,
    (i < n)%nat -> (j < m)%nat ->
    flat_map c (seq 0 n) !!! (m * i + j)%nat = c i !!! j.
Proof.
  intros Hc. induction n as [|n IH]; intros i j Hi Hj; [lia|].
  pose proof (flat_map_chunks_length m c n Hc) as Hfl.
  rewrite seq_S, flat_map_app. cbn [flat_map Nat.add]. rewrite app_nil_r.
  destruct (decide (i = n)) as [->|Hne].
  - rewrite lookup_total_app_r by (rewrite Hfl; lia).
    rewrite Hfl. f_equal. lia.
  - rewrite lookup_total_app_l by (rewrite Hfl; nia).
    apply IH; lia.
Qed.

Lemma flat_map_bytes {A} (c : A -> list Z) (l : list A) :
  (forall a, bytes_ok (c a)) -> bytes_ok (flat_map c l).
Proof.
  intros Hc. induction l as [|a l IH]; [constructor|].
  cbn [flat_map]. apply Forall_app. split; [apply Hc|exact IH].
Qed.

Lemma test_pixel_bytes (n : Z) (y x : nat) : bytes_ok (test_pixel n y x).
Proof.
  unfold test_pixel. repeat (constructor; [apply u8_byte_ok|]). constructor.
Qed.

Lemma test_pattern_length (n : Z) :
  Z.of_nat (length (test_pattern n)) = 6220800.
Proof.
  unfold test_pattern.
  destruct frame_dimensions as (W & H & -> & -> & HW & HH).
  rewrite (flat_map_chunks_length (3 * W)).
  - rewrite !Nat2Z.inj_mul, HW, HH. reflexivity.
  - intros y. apply flat_map_chunks_length. reflexivity.
Qed.

Lemma test_pattern_lookup (n : Z) (y x k : nat) :
  Z.of_nat y < 1080 -> Z.of_nat x < 1920 -> (k < 3)%nat ->
  exists i,
    Z.of_nat i = 3 * (1920 * Z.of_nat y + Z.of_nat x) + Z.of_nat k
    /\ test_pattern n !!! i = test_pixel n y x !!! k.
Proof.
  intros Hy Hx Hk. unfold test_pattern.
  destruct frame_dimensions as (W & H & -> & -> & HW & HH).
  exists (3 * W * y + (3 * x + k))%nat. split; [nia|].
  rewrite (lookup_flat_map_chunks (3 * W)); [| |lia|lia].
  - apply (lookup_flat_map_chunks 3); [reflexivity|lia|lia].
  - intros row. apply flat_map_chunks_length. reflexivity.
Qed.

Lemma test_frame_ok (n : Z) (heap : list Z) :
  Z.of_nat (length heap) = 6220800 ->
  raw_frame_ok (generate_test_frame n heap)
  /\ configured_frame (generate_test_frame n heap).
Proof.
  intros Hheap. split; [|repeat split].
  unfold raw_frame_ok. rewrite generate_test_frame_pixels by exact Hheap.
  cbn [generate_test_frame raw_width raw_height raw_channels].
  unfold FRAME_WIDTH, FRAME_HEIGHT, FRAME_CHANNELS.
  repeat (split; [lia|]).
  split.
  - apply Nat2Z.inj. rewrite test_pattern_length, Z2Nat.id by lia. reflexivity.
  - apply flat_map_bytes. intros y. apply flat_map_bytes. intros x.
    apply test_pixel_bytes.
Qed.

(** X28: the frame [generate_test_frame] builds does not depend on what the
    allocated block held: every byte of it is stored by the loops, it is well
    formed and has the configured dimensions. *)
Theorem test_frame_fully_initialised (frame_number : Z) (heap : list Z) :
  Z.of_nat (length heap) = 6220800 ->
  pixels (generate_test_frame frame_number heap) = test_pattern frame_number
  /\ raw_frame_ok (generate_test_frame frame_number heap)
  /\ configured_frame (generate_test_frame frame_number heap).
Proof.
  intros Hheap. split; [apply generate_test_frame_pixels; exact Hheap|].
  apply test_frame_ok. exact Hheap.
Qed.

Lemma test_pattern_at (n : Z) (p k : nat) :
  Z.of_nat p < 2073600 -> (k < 3)%nat ->
  test_pattern n !!! (3 * p + k)%nat
  = test_pixel n (Z.to_nat (Z.of_nat p / 1920))
      (Z.to_nat (Z.of_nat p mod 1920)) !!! k.
Proof.
  intros Hp Hk.
  assert (Hy : 0 <= Z.of_nat p / 1920 < 1080)
    by (Z.div_mod_to_equations; lia).
  assert (Hx : 0 <= Z.of_nat p mod 1920 < 1920)
    by (Z.div_mod_to_equations; lia).
  destruct (test_pattern_lookup n (Z.to_nat (Z.of_nat p / 1920))
              (Z.to_nat (Z.of_nat p mod 1920)) k
              ltac:(lia) ltac:(lia) Hk) as (i & Hi & Hlook).
  rewrite <- Hlook. f_equal.
  rewrite !Z2Nat.id in Hi by lia.
  pose proof (Z.div_mod (Z.of_nat p) 1920 ltac:(lia)). lia.
Qed.

(** *** Streams of pairs that differ in two bytes of every three *)

Section TwoOfThree.
Context (cur prev : list Z) (P : nat).
Context (Hfirst : forall p, (p < P)%nat ->
            cur !!! (3 * p)%nat <> prev !!! (3 * p)%nat).
Context (Hsecond : forall p, (p < P)%nat ->
            cur !!! (3 * p + 1)%nat = prev !!! (3 * p + 1)%nat).
Context (Hthird : forall p, (p < P)%nat ->
            cur !!! (3 * p + 2)%nat <> prev !!! (3 * p + 2)%nat).

Lemma loop_identical_run (fuel i r : nat) :
  (i < 3 * P)%nat -> (0 < r)%nat ->
  identical_run_scan 255 cur prev (3 * P) i 0 = r ->
  delta_loop (S fuel) cur prev (3 * P) i []
  = ([0; u8 (Z.of_nat r)] ++.) <$> delta_loop fuel cur prev (3 * P) (i + r) [].
Proof.
  intros Hi Hr Hscan. cbn [delta_loop].
  replace (i <? 3 * P)%nat with true by (symmetry; apply Nat.ltb_lt; lia).
  rewrite Hscan.
  replace (0 <? r)%nat with true by (symmetry; apply Nat.ltb_lt; lia).
  rewrite delta_loop_acc. reflexivity.
Qed.

Lemma loop_diff_run (fuel i d : nat) :
  (i < 3 * P)%nat -> (0 < d)%nat ->
  identical_run_scan 255 cur prev (3 * P) i 0 = 0%nat ->
  diff_run_scan 255 cur prev (3 * P) i 0 = d ->
  delta_loop (S fuel) cur prev (3 * P) i []
  = (([1; u8 (Z.of_nat d)] ++ delta_values cur prev i d) ++.)
      <$> delta_loop fuel cur prev (3 * P) (i + d) [].
Proof.
  intros Hi Hd Hsame Hscan. cbn [delta_loop].
  replace (i <? 3 * P)%nat with true by (symmetry; apply Nat.ltb_lt; lia).
  rewrite Hsame, Hscan. change (0 <? 0)%nat with false. cbv iota.
  replace (0 <? d)%nat with true by (symmetry; apply Nat.ltb_lt; lia).
  rewrite delta_loop_acc. reflexivity.
Qed.

Lemma scan_second (p : nat) :
  (p < P)%nat ->
  identical_run_scan 255 cur prev (3 * P) (3 * p + 1) 0 = 1%nat.
Proof.
  intros Hp. rewrite (identical_run_scan_step 254).
  2:{ rewrite Nat.add_0_r, Hsecond, Z.eqb_refl by exact Hp.
      replace (3 * p + 1 <? 3 * P)%nat with true
        by (symmetry; apply Nat.ltb_lt; lia).
      reflexivity. }
  apply identical_run_scan_stop.
  replace (3 * p + 1 + 1)%nat with (3 * p + 2)%nat by lia.
  pose proof (Hthird p Hp) as Hne. apply Z.eqb_neq in Hne. rewrite Hne.
  apply andb_false_r.
Qed.

Lemma scan_third_same (p : nat) :
  (p < P)%nat ->
  identical_run_scan 255 cur prev (3 * P) (3 * p + 2) 0 = 0%nat.
Proof.
  intros Hp. apply identical_run_scan_stop. rewrite Nat.add_0_r.
  pose proof (Hthird p Hp) as Hne. apply Z.eqb_neq in Hne. rewrite Hne.
  apply andb_false_r.
Qed.

Lemma scan_third_last (p : nat) :
  (S p = P)%nat ->
  diff_run_scan 255 cur prev (3 * P) (3 * p + 2) 0 = 1%nat.
Proof.
  intros Hp. rewrite (diff_run_scan_step 254).
  2:{ rewrite Nat.add_0_r.
      pose proof (Hthird p ltac:(lia)) as Hne. apply Z.eqb_neq in Hne.
      rewrite Hne.
      replace (3 * p + 2 <? 3 * P)%nat with true
        by (symmetry; apply Nat.ltb_lt; lia).
      reflexivity. }
  apply diff_run_scan_stop.
  replace (3 * p + 2 + 1 <? 3 * P)%nat with false
    by (symmetry; apply Nat.ltb_ge; lia).
  reflexivity.
Qed.

Lemma scan_third_inner (p : nat) :
  (S p < P)%nat ->
  diff_run_scan 255 cur prev (3 * P) (3 * p + 2) 0 = 2%nat.
Proof.
  intros Hp. rewrite (diff_run_scan_step 254).
  2:{ rewrite Nat.add_0_r.
      pose proof (Hthird p ltac:(lia)) as Hne. apply Z.eqb_neq in Hne.
      rewrite Hne.
      replace (3 * p + 2 <? 3 * P)%nat with true
        by (symmetry; apply Nat.ltb_lt; lia).
      reflexivity. }
  rewrite (diff_run_scan_step 253).
  2:{ replace (3 * p + 2 + 1)%nat with (3 * S p)%nat by lia.
      pose proof (Hfirst (S p) Hp) as Hne. apply Z.eqb_neq in Hne.
      rewrite Hne.
      replace (3 * S p <? 3 * P)%nat with true
        by (symmetry; apply Nat.ltb_lt; lia).
      reflexivity. }
  apply diff_run_scan_stop.
  replace (3 * p + 2 + 2)%nat with (3 * S p + 1)%nat by lia.
  rewrite Hsecond, Z.eqb_refl by exact Hp. apply andb_false_r.
Qed.

Lemma scan_first (p : nat) :
  (p < P)%nat ->
  identical_run_scan 255 cur prev (3 * P) (3 * p) 0 = 0%nat
  /\ diff_run_scan 255 cur prev (3 * P) (3 * p) 0 = 1%nat.
Proof.
  intros Hp. pose proof (Hfirst p Hp) as Hne. apply Z.eqb_neq in Hne.
  split.
  - apply identical_run_scan_stop. rewrite Nat.add_0_r, Hne.
    apply andb_false_r.
  - rewrite (diff_run_scan_step 254).
    2:{ rewrite Nat.add_0_r, Hne.
        replace (3 * p <? 3 * P)%nat with true
          by (symmetry; apply Nat.ltb_lt; lia).
        reflexivity. }
    apply diff_run_scan_stop.
    rewrite Hsecond, Z.eqb_refl by exact Hp. apply andb_false_r.
Qed.

(** From the second byte of pixel [p] on, the stream takes six bytes for
    every further pixel and five for the last. *)
Lemma two_of_three_tail :
  forall q p fuel,
    (p + q + 1 = P)%nat -> (2 * q + 2 <= fuel)%nat ->
    exists stream,
      delta_loop fuel cur prev (3 * P) (3 * p + 1) [] = Some stream
      /\ length stream = (6 * q + 5)%nat.
Proof.
  induction q as [|q IH]; intros p fuel Hp Hfuel.
  - destruct fuel as [|[|fuel]]; [lia..|].
    rewrite (loop_identical_run _ _ 1) by (try apply scan_second; lia).
    replace (3 * p + 1 + 1)%nat with (3 * p + 2)%nat by lia.
    rewrite (loop_diff_run _ _ 1)
      by (try apply scan_third_same; try apply scan_third_last; lia).
    replace (3 * p + 2 + 1)%nat with (3 * P)%nat by lia.
    assert (Hdone : delta_loop fuel cur prev (3 * P) (3 * P) [] = Some []).
    { destruct fuel; cbn [delta_loop]; rewrite Nat.ltb_irrefl; reflexivity. }
    rewrite Hdone. cbn [fmap option_fmap option_map].
    eexists. split; [reflexivity|].
    rewrite !length_app, delta_values_length. reflexivity.
  - destruct fuel as [|[|fuel]]; [lia..|].
    rewrite (loop_identical_run _ _ 1) by (try apply scan_second; lia).
    replace (3 * p + 1 + 1)%nat with (3 * p + 2)%nat by lia.
    rewrite (loop_diff_run _ _ 2)
      by (try apply scan_third_same; try apply scan_third_inner; lia).
    replace (3 * p + 2 + 2)%nat with (3 * S p + 1)%nat by lia.
    destruct (IH (S p) fuel ltac:(lia) ltac:(lia)) as (tail & -> & Hlen).
    cbn [fmap option_fmap option_map].
    eexists. split; [reflexivity|].
    rewrite !length_app, delta_values_length, Hlen. cbn [length]. lia.
Qed.

Lemma two_of_three_loop (fuel : nat) :
  (0 < P)%nat -> (2 * P + 1 <= fuel)%nat ->
  exists stream,
    delta_loop fuel cur prev (3 * P) 0 [] = Some stream
    /\ length stream = (6 * P + 2)%nat.
Proof.
  intros HP Hfuel. destruct fuel as [|fuel]; [lia|].
  destruct (scan_first 0 HP) as [Hsame Hdiff].
  rewrite Nat.mul_0_r in Hsame, Hdiff.
  rewrite (loop_diff_run _ _ 1) by (try assumption; lia).
  destruct (two_of_three_tail (P - 1) 0 fuel ltac:(lia) ltac:(lia))
    as (tail & Htail & Hlen).
  change (0 + 1)%nat with (3 * 0 + 1)%nat. rewrite Htail.
  cbn [fmap option_fmap option_map].
  eexists. split; [reflexivity|].
  rewrite !length_app, delta_values_length, Hlen. cbn [length]. lia.
Qed.

Lemma two_of_three_stream :
  (0 < P)%nat ->
  exists stream,
    delta_transform cur prev (3 * P) = Some stream
    /\ length stream = (6 * P + 2)%nat.
Proof. intros HP. apply two_of_three_loop; lia. Qed.

End TwoOfThree.

(** *** Consecutive test frames *)

Lemma test_pixel_red_changes (n : Z) (y x : nat) :
  test_pixel (n + 1) y x !!! 0%nat <> test_pixel n y x !!! 0%nat.
Proof.
  unfold test_pixel, u8, u32. cbn [lookup_total list_lookup_total].
  Z.div_mod_to_equations. lia.
Qed.

Lemma test_pixel_blue_changes (n : Z) (y x : nat) :
  test_pixel (n + 1) y x !!! 2%nat <> test_pixel n y x !!! 2%nat.
Proof.
  unfold test_pixel, u8, u32. cbn [lookup_total list_lookup_total].
  Z.div_mod_to_equations. lia.
Qed.

Lemma test_pixel_green_even (n : Z) (y x : nat) :
  n mod 2 = 0 ->
  test_pixel (n + 1) y x !!! 1%nat = test_pixel n y x !!! 1%nat.
Proof.
  intros Heven. unfold test_pixel. cbn [lookup_total list_lookup_total].
  replace ((n + 1) / 2) with (n / 2) by (Z.div_mod_to_equations; lia).
  reflexivity.
Qed.

Lemma test_pixel_green_odd (n : Z) (y x : nat) :
  n mod 2 = 1 ->
  test_pixel (n + 1) y x !!! 1%nat <> test_pixel n y x !!! 1%nat.
Proof.
  intros Hodd. unfold test_pixel. cbn [lookup_total list_lookup_total].
  replace ((n + 1) / 2) with (n / 2 + 1) by (Z.div_mod_to_equations; lia).
  unfold u8, u32. Z.div_mod_to_equations. lia.
Qed.

Lemma pattern_size :
  exists P N,
    Z.of_nat P = 2073600 /\ N = (3 * P)%nat
    /\ pixel_count_of FRAME_WIDTH FRAME_HEIGHT FRAME_CHANNELS = N
    /\ forall n, length (test_pattern n) = N.
Proof.
  exists (Z.to_nat 2073600), (3 * Z.to_nat 2073600)%nat.
  split; [apply Z2Nat.id; lia|]. split; [reflexivity|].
  split.
  - apply Nat2Z.inj. unfold pixel_count_of.
    rewrite Z2Nat.id by (unfold u32; apply Z.mod_pos_bound; lia).
    rewrite Nat2Z.inj_mul, Z2Nat.id by lia. reflexivity.
  - intros n. apply Nat2Z.inj. rewrite test_pattern_length.
    rewrite Nat2Z.inj_mul, Z2Nat.id by lia. reflexivity.
Qed.

Lemma test_frame_dims (n : Z) (heap : list Z) :
  raw_width (generate_test_frame n heap) = FRAME_WIDTH
  /\ raw_height (generate_test_frame n heap) = FRAME_HEIGHT
  /\ raw_channels (generate_test_frame n heap) = FRAME_CHANNELS.
Proof. repeat split. Qed.

Lemma test_pattern_first (n : Z) (P p : nat) :
  Z.of_nat P = 2073600 -> (p < P)%nat ->
  test_pattern (n + 1) !!! (3 * p)%nat <> test_pattern n !!! (3 * p)%nat.
Proof.
  intros HP Hlt. rewrite <- (Nat.add_0_r (3 * p)).
  rewrite !test_pattern_at by lia. apply test_pixel_red_changes.
Qed.

Lemma test_pattern_third (n : Z) (P p : nat) :
  Z.of_nat P = 2073600 -> (p < P)%nat ->
  test_pattern (n + 1) !!! (3 * p + 2)%nat
  <> test_pattern n !!! (3 * p + 2)%nat.
Proof.
  intros HP Hlt. rewrite !test_pattern_at by lia.
  apply test_pixel_blue_changes.
Qed.

Lemma test_pattern_second_even (n : Z) (P p : nat) :
  n mod 2 = 0 -> Z.of_nat P = 2073600 -> (p < P)%nat ->
  test_pattern (n + 1) !!! (3 * p + 1)%nat
  = test_pattern n !!! (3 * p + 1)%nat.
Proof.
  intros Heven HP Hlt. rewrite !test_pattern_at by lia.
  apply test_pixel_green_even. exact Heven.
Qed.

Lemma test_pattern_second_odd (n : Z) (P p : nat) :
  n mod 2 = 1 -> Z.of_nat P = 2073600 -> (p < P)%nat ->
  test_pattern (n + 1) !!! (3 * p + 1)%nat
  <> test_pattern n !!! (3 * p + 1)%nat.
Proof.
  intros Hodd HP Hlt. rewrite !test_pattern_at by lia.
  apply test_pixel_green_odd. exact Hodd.
Qed.

Lemma test_pattern_stream_even (n : Z) (P : nat) :
  n mod 2 = 0 -> Z.of_nat P = 2073600 ->
  exists stream,
    delta_transform (test_pattern (n + 1)) (test_pattern n) (3 * P)
    = Some stream
    /\ length stream = (6 * P + 2)%nat.
Proof.
  intros Heven HP. apply two_of_three_stream.
  - intros p Hlt. apply (test_pattern_first n P); assumption.
  - intros p Hlt. apply (test_pattern_second_even n P); assumption.
  - intros p Hlt. apply (test_pattern_third n P); assumption.
  - lia.
Qed.

Lemma compress_frame_delta_overrun (coder : EntropyCoder)
    (current previous : raw_frame_t) (output : frame_t) (stream : list Z) :
  same_dims current previous ->
  pixel_count_of (raw_width current) (raw_height current)
    (raw_channels current) = length (pixels current) ->
  length (pixels previous) = length (pixels current) ->
  delta_transform (pixels current) (pixels previous)
    (length (pixels current)) = Some stream ->
  (2 * length (pixels current) < length stream)%nat ->
  @compress_frame_delta coder current previous output = OutOfBounds.
Proof.
  intros (Hw & Hh & Hc) Hpc Hprev Hstream Hlong.
  unfold compress_frame_delta.
  rewrite <- Hw, <- Hh, <- Hc, !Z.eqb_refl. cbn [negb orb].
  rewrite Hpc, Hprev, Nat.ltb_irrefl. cbn [orb].
  rewrite Hstream.
  replace (length (pixels current) * 2 <? length stream)%nat with true
    by (symmetry; apply Nat.ltb_lt; lia).
  reflexivity.
Qed.

Lemma test_frame_pixel_count (n : Z) (heap : list Z) (P : nat) :
  Z.of_nat (length heap) = 6220800 -> Z.of_nat P = 2073600 ->
  pixel_count_of (raw_width (generate_test_frame n heap))
    (raw_height (generate_test_frame n heap))
    (raw_channels (generate_test_frame n heap)) = (3 * P)%nat
  /\ length (pixels (generate_test_frame n heap)) = (3 * P)%nat.
Proof.
  intros Hheap HP.
  destruct (test_frame_dims n heap) as (-> & -> & ->).
  rewrite generate_test_frame_pixels by exact Hheap.
  destruct pattern_size as (P' & N & HP' & -> & -> & Hlen).
  rewrite Hlen. assert (P' = P) by lia. subst P'. split; reflexivity.
Qed.

Lemma encode_frame_overrun (coder : EntropyCoder)
    (current previous : raw_frame_t) (n : Z) (stack : frame_t) :
  @compress_frame_delta coder current previous stack = OutOfBounds ->
  @encode_frame_to_commit coder current (Some previous) n stack = OutOfBounds.
Proof. intros Hover. unfold encode_frame_to_commit. rewrite Hover. reflexivity. Qed.

Lemma test_pair_overruns (coder : EntropyCoder)
    (frame_number : Z) (heap_current heap_previous : list Z)
    (output : frame_t) :
  frame_number mod 2 = 0 ->
  Z.of_nat (length heap_current) = 6220800 ->
  Z.of_nat (length heap_previous) = 6220800 ->
  @compress_frame_delta coder
    (generate_test_frame (frame_number + 1) heap_current)
    (generate_test_frame frame_number heap_previous) output
  = OutOfBounds.
Proof.
  intros Heven Hc Hp.
  destruct pattern_size as (P & N & HP & _ & _ & _).
  destruct (test_frame_pixel_count (frame_number + 1) heap_current P Hc HP)
    as [Hpc Hlc].
  destruct (test_frame_pixel_count frame_number heap_previous P Hp HP)
    as [_ Hlp].
  destruct (test_pattern_stream_even frame_number P Heven HP)
    as (stream & Hstream & Hlen).
  apply (compress_frame_delta_overrun coder _ _ _ stream).
  - unfold same_dims.
    destruct (test_frame_dims (frame_number + 1) heap_current)
      as (-> & -> & ->).
    destruct (test_frame_dims frame_number heap_previous) as (-> & -> & ->).
    repeat split.
  - rewrite Hpc, Hlc. reflexivity.
  - rewrite Hlp, Hlc. reflexivity.
  - rewrite Hlc, !generate_test_frame_pixels by assumption. exact Hstream.
  - rewrite Hlc, Hlen. lia.
Qed.

(** X29: in test mode, encoding the successor of a test frame of even number
    against it stores past the end of the delta buffer: the red and the blue
    byte of every pixel change and the green byte does not, so the run-length
    stream takes two bytes more than twice the frame size. *)
Theorem test_frames_overrun_delta_buffer (coder : EntropyCoder)
    (frame_number : Z) (heap_current heap_previous : list Z)
    (stack : frame_t) :
  frame_number mod 2 = 0 ->
  Z.of_nat (length heap_current) = 6220800 ->
  Z.of_nat (length heap_previous) = 6220800 ->
  @compress_frame_delta coder
    (generate_test_frame (frame_number + 1) heap_current)
    (generate_test_frame frame_number heap_previous) stack
  = OutOfBounds
  /\ @encode_frame_to_commit coder
       (generate_test_frame (frame_number + 1) heap_current)
       (Some (generate_test_frame frame_number heap_previous))
       (frame_number + 1) stack
     = OutOfBounds.
Proof.
  intros Heven Hc Hp.
  pose proof (test_pair_overruns coder frame_number heap_current heap_previous
                stack Heven Hc Hp) as Hover.
  split; [exact Hover|]. apply encode_frame_overrun. exact Hover.
Qed.

Lemma test_pattern_differs_odd (n : Z) (P j : nat) :
  n mod 2 = 1 -> Z.of_nat P = 2073600 -> (j < 3 * P)%nat ->
  test_pattern (n + 1) !!! j <> test_pattern n !!! j.
Proof.
  intros Hodd HP Hj.
  pose proof (Nat.div_mod_eq j 3) as Hsplit.
  pose proof (Nat.mod_upper_bound j 3 ltac:(lia)) as Hk.
  set (p := (j / 3)%nat) in *. set (k := (j mod 3)%nat) in *.
  clearbody p k. subst j.
  destruct k as [|[|[|k]]]; [| | |lia].
  - rewrite Nat.add_0_r. apply (test_pattern_first n P); [exact HP|lia].
  - apply (test_pattern_second_odd n P); [exact Hodd|exact HP|lia].
  - apply (test_pattern_third n P); [exact HP|lia].
Qed.

Lemma in_delta_range_lookup (prev cur : list Z) (k : nat) :
  in_delta_range prev cur -> (k < length prev)%nat ->
  -128 <= cur !!! k - prev !!! k <= 127.
Proof.
  intros Hr. revert k. induction Hr as [|p c prev cur Hpc Hr IH]; intros k Hk.
  - cbn [length] in Hk. lia.
  - destruct k as [|k]; [exact Hpc|].
    cbn [lookup_total list_lookup_total]. apply IH. cbn [length] in Hk. lia.
Qed.

Lemma byte_of_sum (a : Z) : u8 (u32 a mod 256) = a mod 256.
Proof. unfold u8, u32. Z.div_mod_to_equations. lia. Qed.

Lemma test_pattern_wraps (n : Z) :
  0 <= n -> ~ in_delta_range (test_pattern n) (test_pattern (n + 1)).
Proof.
  intros Hn Hr.
  assert (Hx : 0 <= (255 - n) mod 256 < 256) by (apply Z.mod_pos_bound; lia).
  assert (Hprev255 : ((255 - n) mod 256 + n) mod 256 = 255)
    by (Z.div_mod_to_equations; lia).
  assert (Hcur0 : ((255 - n) mod 256 + (n + 1)) mod 256 = 0)
    by (Z.div_mod_to_equations; lia).
  set (x := Z.to_nat ((255 - n) mod 256)).
  assert (HxZ : Z.of_nat x = (255 - n) mod 256) by (subst x; lia).
  clearbody x.
  destruct (test_pattern_lookup n 0 x 0 ltac:(lia) ltac:(lia) ltac:(lia))
    as (i & Hi & Hprev).
  destruct (test_pattern_lookup (n + 1) 0 x 0 ltac:(lia) ltac:(lia) ltac:(lia))
    as (i' & Hi' & Hcur).
  assert (i' = i) by lia. subst i'.
  pose proof (test_pattern_length n) as Hlen.
  pose proof (in_delta_range_lookup _ _ i Hr ltac:(lia)) as Hrange.
  rewrite Hprev, Hcur in Hrange.
  unfold test_pixel in Hrange.
  cbn [lookup_total list_lookup_total] in Hrange.
  rewrite !byte_of_sum, HxZ, Hprev255, Hcur0 in Hrange. lia.
Qed.

Lemma test_pattern_fits_odd (n : Z) (P : nat) :
  n mod 2 = 1 -> Z.of_nat P = 2073600 ->
  exists stream,
    delta_transform (test_pattern (n + 1)) (test_pattern n) (3 * P)
    = Some stream
    /\ (length stream <= 2 * (3 * P))%nat.
Proof.
  intros Hodd HP.
  destruct (delta_transform_total (test_pattern (n + 1)) (test_pattern n)
              (3 * P)) as [stream Hs].
  exists stream. split; [exact Hs|].
  apply (all_differ_stream_length _ _ (3 * P)) in Hs;
    [|intros j Hj; apply (test_pattern_differs_odd n P); assumption|lia].
  cbn [length] in Hs. rewrite Nat.sub_0_r in Hs.
  pose proof (Nat.div_mod_eq (3 * P + 254) 255) as Hq.
  pose proof (Nat.mod_upper_bound (3 * P + 254) 255 ltac:(lia)) as Hr.
  lia.
Qed.

(** X30: in test mode, the successor of a test frame of odd number differs
    from it in every byte; it is encoded in DELTA mode, and the player decodes
    the record to a frame other than the one encoded, since the bytes that
    wrap from 255 to 0 are outside the signed range. *)
Theorem test_frames_decode_wrongly (coder : EntropyCoder)
    (frame_number : Z) (heap_current heap_previous : list Z)
    (stack : frame_t) :
  0 <= frame_number -> frame_number mod 2 = 1 ->
  Z.of_nat (length heap_current) = 6220800 ->
  Z.of_nat (length heap_previous) = 6220800 ->
  exists r decoded,
    @encode_frame_to_commit coder
      (generate_test_frame (frame_number + 1) heap_current)
      (Some (generate_test_frame frame_number heap_previous))
      (frame_number + 1) stack
    = Success (r, serialize_frame r)
    /\ compression_type (header r) = 1
    /\ @decode_and_display_frame coder r
         (Some (generate_test_frame frame_number heap_previous))
       = Success decoded
    /\ pixels decoded
       <> pixels (generate_test_frame (frame_number + 1) heap_current).
Proof.
  intros Hn Hodd Hc Hp.
  destruct pattern_size as (P & N & HP & _ & _ & _).
  destruct (test_frame_pixel_count (frame_number + 1) heap_current P Hc HP)
    as [_ Hlc].
  apply (@delta_frame_out_of_range coder).
  - apply test_frame_ok. exact Hc.
  - apply test_frame_ok. exact Hp.
  - unfold same_dims.
    destruct (test_frame_dims (frame_number + 1) heap_current)
      as (-> & -> & ->).
    destruct (test_frame_dims frame_number heap_previous) as (-> & -> & ->).
    repeat split.
  - unfold delta_fits. rewrite Hlc, !generate_test_frame_pixels by assumption.
    apply test_pattern_fits_odd; assumption.
  - rewrite !generate_test_frame_pixels by assumption.
    apply test_pattern_wraps. exact Hn.
Qed.

(** ** The properties on sample inputs *)

Lemma bytes_ok_check (l : list Z) :
  forallb (fun b => (0 <=? b) && (b <? 256)) l = true -> bytes_ok l.
Proof.
  intros Hall. apply Forall_forall. intros b Hb.
  apply list_elem_of_In in Hb.
  rewrite forallb_forall in Hall. apply byte_ok_literal, Hall, Hb.
Qed.

Lemma sample_buffer_bytes : bytes_ok (serialize_frame sample_record).
Proof. apply bytes_ok_check. vm_compute. reflexivity. Qed.

Lemma sample_buffer_parses :
  deserialize_frame (serialize_frame sample_record) = Success sample_record.
Proof. vm_compute. reflexivity. Qed.

Lemma deserialize_frame_sound_witness :
  bytes_ok (serialize_frame sample_record)
  /\ deserialize_frame (serialize_frame sample_record) = Success sample_record
  /\ Z.of_nat (length (data sample_record))
     = compressed_size (header sample_record).
Proof.
  split; [exact sample_buffer_bytes|]. split; [exact sample_buffer_parses|].
  exact (proj1 (proj2 (proj2 (proj2 (proj2 (proj2
    (deserialize_frame_sound (serialize_frame sample_record) sample_record
       sample_buffer_bytes sample_buffer_parses))))))).
Defined.

Lemma serialize_deserialized_frame_witness :
  bytes_ok (serialize_frame sample_record)
  /\ deserialize_frame (serialize_frame sample_record) = Success sample_record
  /\ serialize_frame sample_record
     = take (32 + length (data sample_record)) (serialize_frame sample_record).
Proof.
  split; [exact sample_buffer_bytes|]. split; [exact sample_buffer_parses|].
  apply (serialize_deserialized_frame (serialize_frame sample_record)
           sample_record).
  - exact sample_buffer_bytes.
  - exact sample_buffer_parses.
Defined.

Lemma empty_payload_header_typed : header_well_typed empty_payload_header.
Proof. unfold header_well_typed. closed_bounds. Qed.

Lemma deserialize_empty_payload_unchecked_witness :
  header_well_typed empty_payload_header
  /\ compressed_size empty_payload_header = 0
  /\ checksum empty_payload_header <> calculate_checksum []
  /\ deserialize_frame
       (le32 FRAME_MAGIC ++ header_bytes empty_payload_header ++ [1; 2; 3])
     = Success {| header := empty_payload_header; data := [] |}.
Proof.
  split; [exact empty_payload_header_typed|].
  split; [reflexivity|]. split; [vm_compute; discriminate|].
  apply (deserialize_empty_payload_unchecked empty_payload_header [1; 2; 3]).
  - exact empty_payload_header_typed.
  - reflexivity.
  - reflexivity.
  - reflexivity.
  - reflexivity.
Defined.

Lemma deserialize_rejects_bad_magic_witness :
  bytes_ok (repeat 0 40) /\ take 4 (repeat 0 40) <> le32 FRAME_MAGIC
  /\ deserialize_frame (repeat 0 40) = Failure GVC_ERROR_FORMAT.
Proof.
  assert (Hb : bytes_ok (repeat 0 40))
    by (apply bytes_ok_check; vm_compute; reflexivity).
  assert (Hm : take 4 (repeat 0 40) <> le32 FRAME_MAGIC)
    by (vm_compute; discriminate).
  split; [exact Hb|]. split; [exact Hm|].
  apply (deserialize_rejects_bad_magic (repeat 0 40)).
  - exact Hb.
  - exact Hm.
Defined.

Lemma serialize_frame_injective_witness :
  header_well_typed (header sample_record)
  /\ serialize_frame sample_record = serialize_frame sample_record
  /\ sample_record = sample_record.
Proof.
  split; [exact (proj1 sample_record_well_typed)|]. split; [reflexivity|].
  apply (serialize_frame_injective sample_record sample_record).
  - exact (proj1 sample_record_well_typed).
  - exact (proj1 sample_record_well_typed).
  - reflexivity.
Defined.

Lemma crc_rejects_payload_byte_change_witness :
  frame_well_typed sample_record /\ valid_record sample_record
  /\ (2 < length (data sample_record))%nat /\ byte_ok 9
  /\ 9 <> data sample_record !!! 2%nat
  /\ deserialize_frame (<[(32 + 2)%nat := 9]> (serialize_frame sample_record))
     = Failure GVC_ERROR_FORMAT.
Proof.
  split; [exact sample_record_well_typed|].
  split; [exact sample_record_valid|].
  split; [simpl; lia|]. split; [unfold byte_ok; lia|].
  split; [vm_compute; discriminate|].
  apply (crc_rejects_payload_byte_change sample_record 2 9).
  - exact sample_record_well_typed.
  - exact sample_record_valid.
  - simpl; lia.
  - unfold byte_ok; lia.
  - vm_compute; discriminate.
Defined.

Lemma sample_pixel_ok : raw_frame_ok (pixel_frame 10 20 30).
Proof. apply pixel_frame_ok; apply byte_ok_literal; reflexivity. Qed.

Lemma raw_codec_round_trip_witness :
  raw_frame_ok (pixel_frame 10 20 30)
  /\ exists r,
       @compress_frame_raw stored_coder (pixel_frame 10 20 30) zero_frame
       = Success r
       /\ compression_type (header r) = 0
       /\ @decompress_frame_raw stored_coder r = Success (pixel_frame 10 20 30).
Proof.
  split; [exact sample_pixel_ok|].
  exact (@raw_codec_round_trip stored_coder (pixel_frame 10 20 30) zero_frame
           sample_pixel_ok).
Defined.

Lemma steady_pair_dims :
  same_dims (pixel_frame 12 21 29) (pixel_frame 10 20 30).
Proof. repeat split. Qed.

Lemma steady_pair_fits :
  delta_fits (pixel_frame 10 20 30) (pixel_frame 12 21 29).
Proof. exact (proj2 (proj2 (proj2 (proj2 steady_pair_ok)))). Qed.

Lemma delta_codec_exact_iff_in_range_witness :
  raw_frame_ok (pixel_frame 12 21 29) /\ raw_frame_ok (pixel_frame 10 20 30)
  /\ same_dims (pixel_frame 12 21 29) (pixel_frame 10 20 30)
  /\ delta_fits (pixel_frame 10 20 30) (pixel_frame 12 21 29)
  /\ exists r,
       @compress_frame_delta stored_coder (pixel_frame 12 21 29)
         (pixel_frame 10 20 30) zero_frame = Success r
       /\ (@decompress_frame_delta stored_coder r (pixel_frame 10 20 30)
           = Success (pixel_frame 12 21 29)
           <-> in_delta_range (pixels (pixel_frame 10 20 30))
                 (pixels (pixel_frame 12 21 29))).
Proof.
  destruct steady_pair_ok as (Hcur & Hprev & _).
  split; [exact Hcur|]. split; [exact Hprev|].
  split; [exact steady_pair_dims|]. split; [exact steady_pair_fits|].
  exact (@delta_codec_exact_iff_in_range stored_coder (pixel_frame 12 21 29)
           (pixel_frame 10 20 30) zero_frame Hcur Hprev steady_pair_dims
           steady_pair_fits).
Defined.

Lemma jump_pair_ok :
  raw_frame_ok (pixel_frame 200 200 200) /\ raw_frame_ok (pixel_frame 0 0 0).
Proof.
  split; apply pixel_frame_ok; apply byte_ok_literal; reflexivity.
Qed.

Lemma delta_codec_saturates_witness :
  raw_frame_ok (pixel_frame 200 200 200) /\ raw_frame_ok (pixel_frame 0 0 0)
  /\ same_dims (pixel_frame 200 200 200) (pixel_frame 0 0 0)
  /\ delta_fits (pixel_frame 0 0 0) (pixel_frame 200 200 200)
  /\ exists r decoded,
       @compress_frame_delta stored_coder (pixel_frame 200 200 200)
         (pixel_frame 0 0 0) zero_frame = Success r
       /\ @decompress_frame_delta stored_coder r (pixel_frame 0 0 0)
          = Success decoded
       /\ length (pixels decoded) = length (pixels (pixel_frame 200 200 200))
       /\ forall k,
            (k < length (pixels (pixel_frame 200 200 200)))%nat ->
            let p := pixels (pixel_frame 0 0 0) !!! k in
            let c := pixels (pixel_frame 200 200 200) !!! k in
            (-128 <= c - p <= 127 -> pixels decoded !!! k = c)
            /\ (127 < c - p -> pixels decoded !!! k = 0)
            /\ (c - p < -128 -> pixels decoded !!! k = 255).
Proof.
  destruct jump_pair_ok as [Hcur Hprev].
  assert (Hdims : same_dims (pixel_frame 200 200 200) (pixel_frame 0 0 0))
    by (repeat split).
  split; [exact Hcur|]. split; [exact Hprev|]. split; [exact Hdims|].
  split; [exact jump_fits|].
  exact (@delta_codec_saturates stored_coder (pixel_frame 200 200 200)
           (pixel_frame 0 0 0) zero_frame Hcur Hprev Hdims jump_fits).
Defined.

Lemma repeated_frame_round_trip_witness :
  raw_frame_ok (pixel_frame 10 20 30)
  /\ exists r,
       @compress_frame_delta stored_coder (pixel_frame 10 20 30)
         (pixel_frame 10 20 30) zero_frame = Success r
       /\ compression_type (header r) = 1
       /\ @decompress_frame_delta stored_coder r (pixel_frame 10 20 30)
          = Success (pixel_frame 10 20 30).
Proof.
  split; [exact sample_pixel_ok|].
  exact (@repeated_frame_round_trip stored_coder (pixel_frame 10 20 30)
           zero_frame sample_pixel_ok).
Defined.

Lemma run_record_decodes :
  @decompress_frame_delta stored_coder run_record (pixel_frame 10 20 30)
  = Success (pixel_frame 10 20 30).
Proof. vm_compute. reflexivity. Qed.

Lemma decompress_frame_delta_sound_witness :
  @decompress_frame_delta stored_coder run_record (pixel_frame 10 20 30)
  = Success (pixel_frame 10 20 30)
  /\ length (pixels (pixel_frame 10 20 30))
     = pixel_count_of (width (header run_record)) (height (header run_record))
         (channels (header run_record)).
Proof.
  split; [exact run_record_decodes|].
  exact (proj1 (proj2 (proj2 (proj2
    (@decompress_frame_delta_sound stored_coder run_record
       (pixel_frame 10 20 30) (pixel_frame 10 20 30) run_record_decodes))))).
Defined.

Lemma decoders_reject_empty_destination_witness :
  u32 (width (header zero_frame) * height (header zero_frame)
       * channels (header zero_frame)) = 0
  /\ @decompress_frame_raw stored_coder zero_frame
     = Failure GVC_ERROR_COMPRESSION
  /\ @decompress_frame_delta stored_coder zero_frame (pixel_frame 10 20 30)
     = Failure GVC_ERROR_COMPRESSION.
Proof.
  split; [reflexivity|].
  apply (@decoders_reject_empty_destination stored_coder zero_frame
           (pixel_frame 10 20 30)).
  reflexivity.
Defined.

Lemma stored_coder_emits_bytes : coder_emits_bytes stored_coder.
Proof.
  intros src Hsrc. cbn [lz_encode stored_coder]. unfold stored_encode.
  constructor; [unfold byte_ok; lia|exact Hsrc].
Qed.

Lemma zero_frame_reserved : reserved_typed zero_frame.
Proof. repeat split; cbn; lia. Qed.

Lemma flat_frame_ok : raw_frame_ok flat_frame.
Proof.
  apply uniform_frame_ok;
    first [reflexivity | apply byte_ok_literal; reflexivity].
Qed.

Lemma flat_frame_configured : configured_frame flat_frame.
Proof. repeat split. Qed.

Lemma encoded_blob_deserializes_witness :
  coder_emits_bytes stored_coder /\ reserved_typed zero_frame
  /\ configured_frame flat_frame /\ bytes_ok (pixels flat_frame)
  /\ exists r,
       @encode_frame_to_commit stored_coder flat_frame None 0 zero_frame
       = Success (r, serialize_frame r)
       /\ deserialize_frame (serialize_frame r) = Success r.
Proof.
  pose proof flat_frame_ok as Hok.
  pose proof (proj2 (proj2 (proj2 (proj2 (proj2 Hok))))) as Hbytes.
  pose proof (@encode_frame_key_ok stored_coder flat_frame 0 zero_frame Hok)
    as Henc.
  cbv zeta in Henc.
  split; [exact stored_coder_emits_bytes|].
  split; [exact zero_frame_reserved|].
  split; [exact flat_frame_configured|]. split; [exact Hbytes|].
  eexists. split; [exact Henc|].
  exact (@encoded_blob_deserializes stored_coder flat_frame None 0 zero_frame
           _ _ stored_coder_emits_bytes zero_frame_reserved
           flat_frame_configured Hbytes Henc).
Defined.






Lemma key_commit_blob :
  key_commit
  = Success
      (serialize_frame
         (set_frame_number
            (fill_output zero_frame (raw_width flat_frame)
               (raw_height flat_frame) (raw_channels flat_frame) 0
               (@lz_encode stored_coder (pixels flat_frame))) (u32 0))).
Proof.
  unfold key_commit.
  rewrite (@encode_frame_key_ok stored_coder) by exact flat_frame_ok.
  reflexivity.
Qed.

Lemma delta_commit_blob :
  exists stream,
    delta_transform (pixels flat_frame) (pixels flat_frame)
      (length (pixels flat_frame)) = Some stream
    /\ (length stream <= 2 * length (pixels flat_frame))%nat
    /\ delta_commit
       = Success
           (serialize_frame
              (set_frame_number
                 (fill_output zero_frame (raw_width flat_frame)
                    (raw_height flat_frame) (raw_channels flat_frame) 1
                    (@lz_encode stored_coder stream)) (u32 1))).
Proof.
  destruct (identical_pair_fits flat_frame) as (stream & Hstream & Hfit).
  exists stream. split; [exact Hstream|]. split; [exact Hfit|].
  unfold delta_commit.
  rewrite (@encode_frame_delta_ok stored_coder flat_frame flat_frame 1
             zero_frame stream flat_frame_ok flat_frame_ok
             ltac:(repeat split) Hstream Hfit).
  reflexivity.
Qed.

Lemma key_commit_decodes (previous_frame : option raw_frame_t) :
  @decode_and_display_frame_buffered stored_coder key_commit previous_frame
  = Success flat_frame.
Proof.
  rewrite key_commit_blob.
  apply (@buffered_key_record stored_coder);
    first [exact stored_coder_emits_bytes | exact zero_frame_reserved
          | exact flat_frame_ok | exact flat_frame_configured].
Qed.

Lemma delta_commit_decodes :
  @decode_and_display_frame_buffered stored_coder delta_commit
    (Some flat_frame)
  = Success flat_frame.
Proof.
  destruct delta_commit_blob as (stream & Hstream & Hfit & ->).
  pose proof flat_frame_ok as (_ & _ & _ & _ & _ & Hbytes).
  apply (@buffered_delta_record stored_coder);
    first [exact stored_coder_emits_bytes | exact zero_frame_reserved
          | exact flat_frame_ok | exact flat_frame_configured
          | assumption | apply in_delta_range_same | repeat split].
Qed.

Lemma decoder_thread_skips_failed_commit_witness :
  @decode_and_display_frame_buffered stored_coder (Failure GVC_ERROR_GIT)
    (@thread_previous stored_coder [key_commit] None)
  = Failure GVC_ERROR_GIT
  /\ @decoder_thread stored_coder
       ([key_commit] ++ Failure GVC_ERROR_GIT :: [delta_commit]) None
     = Success [flat_frame; flat_frame]
  /\ @play_frames stored_coder
       ([key_commit] ++ Failure GVC_ERROR_GIT :: [delta_commit]) None
     = Success [flat_frame].
Proof.
  assert (Hbad : @decode_and_display_frame_buffered stored_coder
                   (Failure GVC_ERROR_GIT)
                   (@thread_previous stored_coder [key_commit] None)
                 = Failure GVC_ERROR_GIT) by reflexivity.
  split; [exact Hbad|].
  destruct (@decoder_thread_skips_failed_commit stored_coder [key_commit]
              [delta_commit] (Failure GVC_ERROR_GIT) None GVC_ERROR_GIT Hbad)
    as [-> ->].
  split.
  - exact (@decoder_thread_pair stored_coder key_commit delta_commit None
             flat_frame flat_frame (key_commit_decodes None)
             (copy_raw_frame_ok _ flat_frame_ok) delta_commit_decodes
             (copy_raw_frame_ok _ flat_frame_ok)).
  - exact (@play_frames_single stored_coder key_commit None flat_frame
             (key_commit_decodes None)).
Defined.

Lemma small_frame_number : 0 <= 42 < 2 ^ 32.
Proof. split; [lia|reflexivity]. Qed.

Lemma frame_filename_round_trip_witness :
  0 <= 42 < 2 ^ 32 /\ (21 <= 256)%nat
  /\ exists name,
       generate_frame_filename 42 256 = Some name
       /\ parse_frame_number_from_filename name = Success 42
       /\ forall directory,
            generate_frame_path directory 42 (length directory + 1 + 256)
            = Some (directory ++ ["/"%char] ++ name).
Proof.
  split; [exact small_frame_number|]. split; [lia|].
  apply (frame_filename_round_trip 42 256); [exact small_frame_number|lia].
Defined.

Lemma parse_frame_number_wraps_witness :
  ["4"; "2"; "9"; "4"; "9"; "6"; "7"; "3"; "0"; "3"]%char <> []
  /\ Forall (fun c => isdigit c = true)
       ["4"; "2"; "9"; "4"; "9"; "6"; "7"; "3"; "0"; "3"]%char
  /\ parse_frame_number_from_filename
       (frame_prefix
        ++ ["4"; "2"; "9"; "4"; "9"; "6"; "7"; "3"; "0"; "3"]%char
        ++ rgb_suffix)
     = Success
         (Z.min
            (decimal_value
               ["4"; "2"; "9"; "4"; "9"; "6"; "7"; "3"; "0"; "3"]%char)
            ULONG_MAX mod 2 ^ 32).
Proof.
  assert (Hne : ["4"; "2"; "9"; "4"; "9"; "6"; "7"; "3"; "0"; "3"]%char <> [])
    by discriminate.
  assert (Hdigits : Forall (fun c => isdigit c = true)
            ["4"; "2"; "9"; "4"; "9"; "6"; "7"; "3"; "0"; "3"]%char)
    by (repeat constructor).
  split; [exact Hne|]. split; [exact Hdigits|].
  exact (parse_frame_number_wraps _ Hne Hdigits).
Defined.

Lemma truncated_filename_rejected_witness :
  0 <= 42 < 2 ^ 32 /\ (0 < 16 <= 10 + length (format_06u 42))%nat
  /\ exists name,
       generate_frame_filename 42 16 = Some name
       /\ parse_frame_number_from_filename name = Failure GVC_ERROR_FORMAT.
Proof.
  assert (Hlen : (0 < 16 <= 10 + length (format_06u 42))%nat)
    by (vm_compute; lia).
  split; [exact small_frame_number|]. split; [exact Hlen|].
  exact (truncated_filename_rejected 42 16 small_frame_number Hlen).
Defined.

Lemma parse_accepts_negative_witness :
  Forall (fun c => isspace c = true) [" "%char]
  /\ ["1"%char] <> []
  /\ Forall (fun c => isdigit c = true) ["1"%char]
  /\ decimal_value ["1"%char] <= ULONG_MAX
  /\ parse_frame_number_from_filename
       (frame_prefix ++ [" "%char] ++ ["-"%char] ++ ["1"%char] ++ rgb_suffix)
     = Success (u32 (- decimal_value ["1"%char])).
Proof.
  assert (Hspaces : Forall (fun c => isspace c = true) [" "%char])
    by (repeat constructor).
  assert (Hne : ["1"%char] <> []) by discriminate.
  assert (Hdigits : Forall (fun c => isdigit c = true) ["1"%char])
    by (repeat constructor).
  assert (Hmax : decimal_value ["1"%char] <= ULONG_MAX)
    by (vm_compute; discriminate).
  split; [exact Hspaces|]. split; [exact Hne|]. split; [exact Hdigits|].
  split; [exact Hmax|].
  exact (parse_accepts_negative _ _ Hspaces Hne Hdigits Hmax).
Defined.

Lemma sample_odb_names (commit_hash : list ascii) (handle : Z) :
  sample_odb commit_hash = Some handle ->
  length commit_hash = GIT_OID_HEXSZ /\ handle <> 0.
Proof.
  unfold sample_odb.
  destruct (Nat.eqb_spec (length commit_hash) GIT_OID_HEXSZ) as [Hlen|_];
    [|discriminate].
  intros [= <-]. split; [exact Hlen|discriminate].
Qed.

Lemma blob_cache_transparent_witness :
  (forall commit_hash handle,
      sample_odb commit_hash = Some handle ->
      length commit_hash = GIT_OID_HEXSZ /\ handle <> 0)
  /\ (read_commits sample_odb sample_content empty_cache
        [sample_hash; sample_hash; []]).2
     = map (uncached_read sample_odb sample_content)
         [sample_hash; sample_hash; []].
Proof.
  split; [exact sample_odb_names|].
  exact (blob_cache_transparent sample_odb sample_content
           [sample_hash; sample_hash; []] sample_odb_names).
Defined.

Lemma empty_cache_shape : cache_shape empty_cache.
Proof. split; [reflexivity|]. unfold PREFETCH_CACHE_SIZE. cbn. lia. Qed.

Lemma empty_cache_no_match (key : list ascii) (j : nat) :
  ~ entry_matches key (blob_cache empty_cache !!! j).
Proof.
  unfold empty_cache, entry_matches. cbn [blob_cache].
  rewrite list_lookup_total_alt.
  destruct (replicate _ _ !! j) as [e|] eqn:He; cbn [default].
  - apply lookup_replicate in He as [-> _]. intros [Hvalid _].
    contradiction.
  - intros [Hvalid _]. contradiction.
Qed.

Lemma cache_entry_lifetime_witness :
  cache_shape empty_cache /\ (length ["a"%char] <= GIT_OID_HEXSZ)%nat
  /\ (forall j, ~ entry_matches ["a"%char] (blob_cache empty_cache !!! j))
  /\ Forall (fun addition => take GIT_OID_HEXSZ addition.1 <> ["a"%char])
       [(["b"%char], 6)]
  /\ find_blob_in_cache
       (add_blobs (add_blob_to_cache empty_cache ["a"%char] 5)
          [(["b"%char], 6)]) ["a"%char]
     = if (length [(["b"%char], 6)] <? 32)%nat then 5 else 0.
Proof.
  assert (Hlen : (length ["a"%char] <= GIT_OID_HEXSZ)%nat)
    by (unfold GIT_OID_HEXSZ; cbn; lia).
  assert (Hothers :
            Forall (fun addition => take GIT_OID_HEXSZ addition.1 <> ["a"%char])
              [(["b"%char], 6)])
    by (repeat constructor; discriminate).
  split; [exact empty_cache_shape|]. split; [exact Hlen|].
  split; [exact (empty_cache_no_match ["a"%char])|].
  split; [exact Hothers|].
  exact (cache_entry_lifetime empty_cache ["a"%char] 5 [(["b"%char], 6)]
           empty_cache_shape Hlen (empty_cache_no_match ["a"%char]) Hothers).
Defined.

Lemma blob_cache_frees_each_handle_once_witness :
  Forall (fun addition : list ascii * Z => addition.2 <> 0)
    [(["a"%char], 5); (["b"%char], 6)]
  /\ freed (git_cleanup_libgit2
              (add_blobs empty_cache [(["a"%char], 5); (["b"%char], 6)]))
     ≡ₚ [(["a"%char], 5); (["b"%char], 6)].*2
  /\ live_blobs (git_cleanup_libgit2
                   (add_blobs empty_cache [(["a"%char], 5); (["b"%char], 6)]))
     = [].
Proof.
  assert (Hhandles : Forall (fun addition : list ascii * Z => addition.2 <> 0)
            [(["a"%char], 5); (["b"%char], 6)])
    by (repeat constructor; discriminate).
  split; [exact Hhandles|].
  exact (blob_cache_frees_each_handle_once _ Hhandles).
Defined.

Lemma one_frame_buffer_holds : buffer_holds one_frame_buffer [pixel_frame 1 2 3].
Proof.
  unfold buffer_holds, one_frame_buffer, FRAME_BUFFER_SIZE.
  cbn [frame_buffer buffer_read_pos buffer_write_pos buffer_count length].
  split; [reflexivity|]. split; [lia|]. split; [reflexivity|].
  split; [lia|]. split; [reflexivity|].
  intros k Hk. assert (k = 0%nat) as -> by lia. reflexivity.
Qed.

Lemma sample_copy :
  copy_raw_frame (pixel_frame 10 20 30) = Success (pixel_frame 10 20 30).
Proof. reflexivity. Qed.

Lemma frame_buffer_is_bounded_queue_witness :
  buffer_holds one_frame_buffer [pixel_frame 1 2 3]
  /\ should_exit one_frame_buffer = false
  /\ copy_raw_frame (pixel_frame 10 20 30) = Success (pixel_frame 10 20 30)
  /\ (exists st',
        buffer_put_frame one_frame_buffer (pixel_frame 10 20 30)
        = Returns (Success st')
        /\ should_exit st' = false
        /\ buffer_holds st' [pixel_frame 1 2 3; pixel_frame 10 20 30])
  /\ exists st',
       buffer_get_frame one_frame_buffer
       = Returns (st', Success (pixel_frame 1 2 3))
       /\ should_exit st' = false
       /\ buffer_holds st' [].
Proof.
  split; [exact one_frame_buffer_holds|]. split; [reflexivity|].
  split; [exact sample_copy|].
  exact (proj2 (frame_buffer_is_bounded_queue one_frame_buffer
                  [pixel_frame 1 2 3] (pixel_frame 10 20 30)
                  (pixel_frame 10 20 30) one_frame_buffer_holds eq_refl
                  sample_copy)).
Defined.

Lemma shutdown_leaves_queue_witness :
  buffer_holds one_frame_buffer [pixel_frame 1 2 3]
  /\ exists st',
       play_from_stdin_shutdown one_frame_buffer = Some (st', [])
       /\ should_exit st' = true
       /\ buffer_holds st' [pixel_frame 1 2 3].
Proof.
  split; [exact one_frame_buffer_holds|].
  exact (shutdown_leaves_queue one_frame_buffer [pixel_frame 1 2 3]
           one_frame_buffer_holds).
Defined.

Lemma zero_heap_length : Z.of_nat (length zero_heap) = 6220800.
Proof.
  unfold zero_heap. rewrite repeat_length. apply Z2Nat.id. lia.
Qed.

Lemma test_frame_fully_initialised_witness :
  Z.of_nat (length zero_heap) = 6220800
  /\ pixels (generate_test_frame 7 zero_heap) = test_pattern 7
  /\ raw_frame_ok (generate_test_frame 7 zero_heap)
  /\ configured_frame (generate_test_frame 7 zero_heap).
Proof.
  split; [exact zero_heap_length|].
  exact (test_frame_fully_initialised 7 zero_heap zero_heap_length).
Defined.

Lemma test_frames_overrun_delta_buffer_witness :
  0 mod 2 = 0
  /\ Z.of_nat (length zero_heap) = 6220800
  /\ @compress_frame_delta stored_coder
       (generate_test_frame (0 + 1) zero_heap)
       (generate_test_frame 0 zero_heap) zero_frame
     = OutOfBounds
  /\ @encode_frame_to_commit stored_coder
       (generate_test_frame (0 + 1) zero_heap)
       (Some (generate_test_frame 0 zero_heap)) (0 + 1) zero_frame
     = OutOfBounds.
Proof.
  split; [reflexivity|]. split; [exact zero_heap_length|].
  exact (test_frames_overrun_delta_buffer stored_coder 0 zero_heap zero_heap
           zero_frame eq_refl zero_heap_length zero_heap_length).
Defined.

Lemma test_frames_decode_wrongly_witness :
  0 <= 1 /\ 1 mod 2 = 1
  /\ Z.of_nat (length zero_heap) = 6220800
  /\ exists r decoded,
       @encode_frame_to_commit stored_coder
         (generate_test_frame (1 + 1) zero_heap)
         (Some (generate_test_frame 1 zero_heap)) (1 + 1) zero_frame
       = Success (r, serialize_frame r)
       /\ compression_type (header r) = 1
       /\ @decode_and_display_frame stored_coder r
            (Some (generate_test_frame 1 zero_heap))
          = Success decoded
       /\ pixels decoded
          <> pixels (generate_test_frame (1 + 1) zero_heap).
Proof.
  assert (Hpos : 0 <= 1) by lia.
  split; [exact Hpos|]. split; [reflexivity|].
  split; [exact zero_heap_length|].
  exact (test_frames_decode_wrongly stored_coder 1 zero_heap zero_heap
           zero_frame Hpos eq_refl zero_heap_length zero_heap_length).
Defined.
